(** * Agent execution core: tool registry, tool executor, chat context
      windowing and the agent orchestrator.

    A shallow embedding of
      - lib/schemas/tools.ts        (module [Schemas]),
      - lib/services/tool-registry.ts (module [ToolRegistry]),
      - lib/services/tool-executor.ts (module [ToolExecutor]),
      - lib/services/chat-service.ts  (module [ChatService]),
      - lib/services/agent-orchestrator.ts (module [Orchestrator]),
    followed by the properties established about them.

    Conventions of the embedding.
      - A JavaScript value of type [unknown] is a [JsValue]; [undefined]
        is a value of its own, an optional string field is an
        [option string], and truthiness of such a field is [truthy].
      - Numbers that count things (turns taken, calls, milliseconds,
        tokens) are integral.  The turn limit of an agent, which the
        schema lets be any number from 1 to 50, is a rational.
      - [Date.now()] readings are only kept where the code computes with
        them ([executionTimeMs]); the [timestamp], [durationMs],
        [startedAt] and [endedAt] fields of steps, events and runs are
        left out.
      - Promises are modelled by their settlement: a handler run is its
        outcome, the number of milliseconds it takes and whether it
        settles in the task that started it.  Which of two tasks that
        are both due runs first is not the program's to say: where the
        code races a timer against such a promise, the order is given
        from outside.  *)

From stdpp Require Import base option list strings pretty gmap.
From Stdlib Require Import QArith Qround.

Close Scope Q_scope.
Open Scope string_scope.
Open Scope list_scope.

(* ===================================================================== *)
(** ** JavaScript values and the JSON printer                             *)
(* ===================================================================== *)

Module Json.

#[warnings="-register-all"]
Inductive JsValue : Type :=
| JUndefined
| JNull
| JBool (b : bool)
| JNum (n : Z)
| JStr (s : string)
| JArr (items : list JsValue)
| JObj (fields : list (string * JsValue)).

(** The double-quote character and the backslash, as one-character strings. *)
Definition dquote : string := String (Ascii.ascii_of_nat 34) EmptyString.
Definition backslash : string := String (Ascii.ascii_of_nat 92) EmptyString.

Definition hexDigit (n : nat) : string :=
  String (Ascii.ascii_of_nat (if (n <? 10)%nat then 48 + n else 87 + n)%nat) EmptyString.

(** QuoteJSONString, one code unit at a time. *)
Definition escapeChar (c : Ascii.ascii) : string :=
  let n := Ascii.nat_of_ascii c in
  if (n =? 34)%nat then backslash +:+ dquote
  else if (n =? 92)%nat then backslash +:+ backslash
  else if (n =? 8)%nat then backslash +:+ "b"
  else if (n =? 12)%nat then backslash +:+ "f"
  else if (n =? 10)%nat then backslash +:+ "n"
  else if (n =? 13)%nat then backslash +:+ "r"
  else if (n =? 9)%nat then backslash +:+ "t"
  else if (n <? 32)%nat
       then backslash +:+ "u00" +:+ hexDigit (n / 16) +:+ hexDigit (n mod 16)
  else String c EmptyString.

Fixpoint escapeString (s : string) : string :=
  match s with
  | EmptyString => EmptyString
  | String c rest => escapeChar c +:+ escapeString rest
  end.

Definition quoteJSONString (s : string) : string :=
  dquote +:+ escapeString s +:+ dquote.

Fixpoint joinWith (sep : string) (parts : list string) : string :=
  match parts with
  | [] => EmptyString
  | [p] => p
  | p :: rest => p +:+ sep +:+ joinWith sep rest
  end.

(** [JSON.stringify(v)]; [None] is the [undefined] it returns for an
    [undefined] argument.  Inside an array [undefined] prints as [null],
    inside an object the property is dropped. *)
Fixpoint JSON_stringify (v : JsValue) : option string :=
  match v with
  | JUndefined => None
  | JNull => Some "null"
  | JBool true => Some "true"
  | JBool false => Some "false"
  | JNum n => Some (pretty n)
  | JStr s => Some (quoteJSONString s)
  | JArr items =>
      let parts :=
        (fix go (l : list JsValue) : list string :=
           match l with
           | [] => []
           | x :: l' => default "null" (JSON_stringify x) :: go l'
           end) items in
      Some ("[" +:+ joinWith "," parts +:+ "]")
  | JObj fields =>
      let parts :=
        (fix go (l : list (string * JsValue)) : list string :=
           match l with
           | [] => []
           | (k, x) :: l' =>
               match JSON_stringify x with
               | Some s => (quoteJSONString k +:+ ":" +:+ s) :: go l'
               | None => go l'
               end
           end) fields in
      Some ("{" +:+ joinWith "," parts +:+ "}")
  end.

(** Truthiness of a [string | undefined]: present and not empty. *)
Definition truthy (o : option string) : bool :=
  match o with
  | Some (String _ _) => true
  | _ => false
  end.

(** [a || b] where [a] is a [string | undefined]. *)
Definition orElse (a : option string) (b : option string) : option string :=
  if truthy a then a else b.

(** What a [throw] carries: an [Error] instance with its message, or any
    other value. *)
Inductive Thrown : Type :=
| ErrorInstance (message : string)
| OtherValue.

(** [error instanceof Error ? error.message : fallback] *)
Definition messageOr (fallback : string) (e : Thrown) : string :=
  match e with
  | ErrorInstance m => m
  | OtherValue => fallback
  end.

(** [JSON.parse] is taken from the runtime: [None] is a thrown
    [SyntaxError], whose message the runtime words. *)
Class Runtime := {
  JSON_parse : string -> option JsValue;
  syntaxErrorMessage : string -> string
}.

End Json.
Export Json.

(* ===================================================================== *)
(** ** lib/schemas/tools.ts and the [Message] of lib/schemas/api.ts       *)
(* ===================================================================== *)

Module Schemas.

Inductive MessageRole := system | user | assistant | tool.

#[export] Instance MessageRole_eq_dec : EqDecision MessageRole.
Proof. solve_decision. Defined.

Record ToolCallFunction := {
  fn_name : string;
  fn_arguments : string
}.

(** [ToolCall]: the [type: "function"] tag is a constant. *)
Record ToolCall := {
  tc_id : string;
  tc_function : ToolCallFunction
}.

Record ParsedToolCall := {
  pc_id : string;
  pc_name : string;
  pc_arguments : JsValue
}.

Record ToolResult := {
  toolCallId : string;
  name : string;
  result : JsValue;
  error : option string;
  executionTimeMs : option Z
}.

(** [Message] of lib/schemas/api.ts. *)
Record Message := {
  role : MessageRole;
  content : string;
  msg_name : option string;
  tool_call_id : option string
}.

(** [ToolResultMessage]; [content] is what [JSON.stringify] returned. *)
Record ToolResultMessage := {
  trm_role : MessageRole;
  trm_content : option string;
  trm_tool_call_id : string;
  trm_name : string
}.

(** The object [executeToolCalls] and [parseToolCallArguments] receive at
    run time.  Their parameter is declared as a [ToolCall]; the orchestrator
    hands over a [ParsedToolCall] in that place, an object that has no
    [function] property. *)
Inductive CallObject :=
| WithFunction (toolCall : ToolCall)
| WithoutFunction (parsedCall : ParsedToolCall).

Definition callId (c : CallObject) : string :=
  match c with
  | WithFunction tc => tc_id tc
  | WithoutFunction pc => pc_id pc
  end.

Section WithRuntime.
Context `{Runtime}.

(** [parseToolCallArguments]: everything happens inside [try], so a
    [SyntaxError] of [JSON.parse] and the [TypeError] of reading
    [toolCall.function.arguments] off an object without [function] both
    end in [null]. *)
Definition parseToolCallArguments (toolCall : CallObject)
  : option ParsedToolCall :=
  match toolCall with
  | WithFunction tc =>
      match JSON_parse (fn_arguments (tc_function tc)) with
      | Some args =>
          Some {| pc_id := tc_id tc;
                  pc_name := fn_name (tc_function tc);
                  pc_arguments := args |}
      | None => None
      end
  | WithoutFunction _ => None
  end.
End WithRuntime.

Definition formatToolResultContent (r : ToolResult) : option string :=
  if truthy (error r)
  then JSON_stringify (JObj [("error", JStr (default EmptyString (error r)))])
  else JSON_stringify (result r).

Definition createToolResultMessage (r : ToolResult) : ToolResultMessage :=
  {| trm_role := tool;
     trm_content := formatToolResultContent r;
     trm_tool_call_id := toolCallId r;
     trm_name := name r |}.

End Schemas.
Export Schemas.

(* ===================================================================== *)
(** ** lib/services/tool-registry.ts                                      *)
(* ===================================================================== *)

Module ToolRegistry.

(** How a handler invocation ends. *)
Inductive HandlerOutcome :=
| Resolves (value : JsValue)
| Throws (e : Thrown).

(** When a promise settles: in the task that started it, before control
    returns to the event loop (the handler returned a plain value or
    threw, or nothing but microtasks stood between the call and the
    settlement), or in a later task (a timer, the completion of I/O). *)
Inductive Settling :=
| SameTask
| LaterTask.

(** A handler maps the argument object to its outcome, the milliseconds
    that [Date.now()] shows to have passed when [execute] goes on after
    it, and the task in which it settles. *)
Record HandlerRun := {
  outcome : HandlerOutcome;
  elapsedMs : N;
  settling : Settling
}.

Definition ToolHandler := JsValue -> HandlerRun.

(** [RegisteredTool]; of [definition] only the name matters here and it
    is the key of the map. *)
Record RegisteredTool := {
  handler : ToolHandler;
  enabled : bool;
  category : option string;
  requiresAuth : bool
}.

Abbreviation Tools := (gmap string RegisteredTool).

Definition register (fname : string) (h : ToolHandler) (en : bool)
    (cat : option string) (auth : bool) (tools : Tools) : Tools :=
  <[fname := {| handler := h; enabled := en; category := cat;
                requiresAuth := auth |}]> tools.

Definition unregister (fname : string) (tools : Tools) : Tools :=
  delete fname tools.

Definition isAvailable (tools : Tools) (fname : string) : bool :=
  match tools !! fname with
  | Some t => enabled t
  | None => false
  end.

Definition setEnabled (fname : string) (en : bool) (tools : Tools) : Tools :=
  alter (fun t => {| handler := handler t; enabled := en;
                     category := category t;
                     requiresAuth := requiresAuth t |}) fname tools.

(** A settled promise: the value, the milliseconds after which it
    settled, and the task in which it did. *)
Record Settled (A : Type) := {
  value : A;
  after : N;
  task : Settling
}.
Arguments value {A} _.
Arguments after {A} _.
Arguments task {A} _.

(** [execute(call)].  [startTime] is the reading of [Date.now()] on
    entry; the reading at each exit is [startTime] plus the time spent.
    Every path returns a result: there is no throwing exit.  The two
    early exits are reached without an [await]; after the handler the
    function goes on in the task in which the handler settled. *)
Definition execute (tools : Tools) (startTime : Z) (call : ParsedToolCall)
  : Settled ToolResult :=
  match tools !! pc_name call with
  | None =>
      {| value := {| toolCallId := pc_id call; name := pc_name call;
                     result := JNull;
                     error := Some ("Tool " +:+ dquote +:+ pc_name call
                                      +:+ dquote +:+ " not found");
                     executionTimeMs := Some (startTime - startTime)%Z |};
         after := 0%N; task := SameTask |}
  | Some t =>
      if negb (enabled t) then
        {| value := {| toolCallId := pc_id call; name := pc_name call;
                       result := JNull;
                       error := Some ("Tool " +:+ dquote +:+ pc_name call
                                        +:+ dquote +:+ " is disabled");
                       executionTimeMs := Some (startTime - startTime)%Z |};
           after := 0%N; task := SameTask |}
      else
        let run := handler t (pc_arguments call) in
        let now := (startTime + Z.of_N (elapsedMs run))%Z in
        match outcome run with
        | Resolves v =>
            {| value := {| toolCallId := pc_id call; name := pc_name call;
                           result := v;
                           error := None;
                           executionTimeMs := Some (now - startTime)%Z |};
               after := elapsedMs run; task := settling run |}
        | Throws e =>
            {| value := {| toolCallId := pc_id call; name := pc_name call;
                           result := JNull;
                           error := Some (messageOr "Unknown error" e);
                           executionTimeMs := Some (now - startTime)%Z |};
               after := elapsedMs run; task := settling run |}
        end
  end.

End ToolRegistry.
Export ToolRegistry.

(* ===================================================================== *)
(** ** lib/services/tool-executor.ts                                      *)
(* ===================================================================== *)

Module ToolExecutor.

(** How an [async] function ends: it returns, it rejects, or it is still
    looping when the fuel of the model is used up. *)
Inductive Completion (A : Type) :=
| Returned (a : A)
| Rejected (e : Thrown)
| Unfinished.
Arguments Returned {A} _.
Arguments Rejected {A} _.
Arguments Unfinished {A}.

(** The [TypeError] of reading property [prop] off [undefined]. *)
Definition undefinedRead (prop : string) : Thrown :=
  ErrorInstance ("Cannot read properties of undefined (reading '" +:+ prop +:+ "')").

Record ExecutionOptions := {
  timeout : option N;
  maxConcurrent : option nat;
  continueOnError : option bool
}.

Record RequiredOptions := {
  r_timeout : N;
  r_maxConcurrent : nat;
  r_continueOnError : bool
}.

Definition DEFAULT_OPTIONS : RequiredOptions :=
  {| r_timeout := 30000%N; r_maxConcurrent := 5; r_continueOnError := true |}.

Definition noOptions : ExecutionOptions :=
  {| timeout := None; maxConcurrent := None; continueOnError := None |}.

(** [{ ...DEFAULT_OPTIONS, ...options }] *)
Definition mergeOptions (options : ExecutionOptions) : RequiredOptions :=
  {| r_timeout := default (r_timeout DEFAULT_OPTIONS) (timeout options);
     r_maxConcurrent :=
       default (r_maxConcurrent DEFAULT_OPTIONS) (maxConcurrent options);
     r_continueOnError :=
       default (r_continueOnError DEFAULT_OPTIONS) (continueOnError options) |}.

Definition timeoutMessage (call : ParsedToolCall) (ms : N) : string :=
  "Tool " +:+ dquote +:+ pc_name call +:+ dquote
    +:+ " execution timed out after " +:+ pretty ms +:+ "ms".

(** [executeWithTimeout]: [Promise.race] of the execution against a
    timer of [ms] milliseconds.  The callback of the timer is a task of
    its own, so an execution that settles in the task that started it has
    won before the timer can fire, whatever [ms] is and however long the
    execution took.  For an execution that settles in a later task,
    [timerFirst] tells whether the callback of the timer runs before that
    task: this is up to the event loop and to what else keeps it busy.
    The rejection of the timer is caught and turned into a result. *)
Definition executeWithTimeout (tools : Tools) (startTime : Z)
    (timerFirst : bool) (call : ParsedToolCall) (ms : N)
  : Settled ToolResult :=
  let execution := execute tools startTime call in
  match task execution with
  | SameTask => execution
  | LaterTask =>
      if timerFirst
      then {| value := {| toolCallId := pc_id call;
                          name := pc_name call;
                          result := JNull;
                          error := Some (messageOr "Execution failed"
                                           (ErrorInstance
                                              (timeoutMessage call ms)));
                          executionTimeMs := None |};
              after := ms; task := LaterTask |}
      else execution
  end.

(** [results[index] = r] on an array that may be shorter than [index]:
    the array grows and the skipped positions are holes. *)
Definition arraySet {A : Type} (index : nat) (r : A) (results : list (option A))
  : list (option A) :=
  if (index <? length results)%nat then <[index := Some r]> results
  else results ++ replicate (index - length results) None ++ [Some r].

Definition parseFailure (tc : ToolCall) : ToolResult :=
  {| toolCallId := tc_id tc;
     name := fn_name (tc_function tc);
     result := JNull;
     error := Some "Failed to parse tool call arguments";
     executionTimeMs := None |}.

(** The [parsedCalls.forEach] that separates the calls that parsed from
    those that did not.  Reading [toolCalls[index].function.name] throws
    on an object without [function], which rejects the whole call. *)
Fixpoint filterParsed (toolCalls : list CallObject)
    (parsedCalls : list (option ParsedToolCall)) (index : nat)
    (validCalls : list (nat * ParsedToolCall))
    (results : list (option ToolResult))
  : Completion (list (nat * ParsedToolCall) * list (option ToolResult)) :=
  match parsedCalls with
  | [] => Returned (validCalls, results)
  | Some call :: rest =>
      filterParsed toolCalls rest (S index) (validCalls ++ [(index, call)])
        results
  | None :: rest =>
      match toolCalls !! index with
      | Some (WithFunction tc) =>
          filterParsed toolCalls rest (S index) validCalls
            (arraySet index (parseFailure tc) results)
      | Some (WithoutFunction _) => Rejected (undefinedRead "name")
      | None => Rejected (undefinedRead "id")
      end
  end.

(** [batch.forEach(({ index }, batchIndex) => results[index] = batchResults[batchIndex])] *)
Fixpoint placeResults (batch : list (nat * ParsedToolCall))
    (batchResults : list ToolResult) (results : list (option ToolResult))
  : list (option ToolResult) :=
  match batch, batchResults with
  | (index, _) :: batch', r :: batchResults' =>
      placeResults batch' batchResults' (arraySet index r results)
  | _, _ => results
  end.

Definition hasError (r : ToolResult) : bool := truthy (error r).

(** The batch loop [for (let i = 0; i < validCalls.length; i += maxConcurrent)],
    one iteration per unit of fuel.  All calls of a batch start at [now];
    [Promise.all] settles when the slowest of them has.  [timerFirst]
    gives, for the call at a position of the input, how its race against
    its timer would be decided in this invocation. *)
Fixpoint runBatches (fuel : nat) (tools : Tools) (opts : RequiredOptions)
    (timerFirst : nat -> bool)
    (validCalls : list (nat * ParsedToolCall)) (i : nat) (now : Z)
    (results : list (option ToolResult))
  : Completion (list (option ToolResult)) :=
  match fuel with
  | 0 => Unfinished
  | S fuel' =>
      if (i <? length validCalls)%nat then
        let batch := take (r_maxConcurrent opts) (drop i validCalls) in
        let settled :=
          map (fun ic => executeWithTimeout tools now (timerFirst ic.1) ic.2
                           (r_timeout opts))
              batch in
        let batchResults := map value settled in
        let results' := placeResults batch batchResults results in
        if negb (r_continueOnError opts) && existsb hasError batchResults
        then Returned results'
        else runBatches fuel' tools opts timerFirst validCalls
               (i + r_maxConcurrent opts)
               (now + Z.of_N (foldr N.max 0%N (map after settled)))%Z
               results'
      else Returned results
  end.

Section WithRuntime.
Context `{Runtime}.

Definition executeToolCallsFuel (fuel : nat) (tools : Tools) (now : Z)
    (timerFirst : nat -> bool)
    (toolCalls : list CallObject) (options : ExecutionOptions)
  : Completion (list (option ToolResult)) :=
  let opts := mergeOptions options in
  let parsedCalls := map parseToolCallArguments toolCalls in
  match filterParsed toolCalls parsedCalls 0 [] [] with
  | Returned (validCalls, results) =>
      runBatches fuel tools opts timerFirst validCalls 0 now results
  | Rejected e => Rejected e
  | Unfinished => Unfinished
  end.

(** [executeToolCalls]: with at least one call per batch the loop runs at
    most once per call, plus the final test. *)
Definition executeToolCalls (tools : Tools) (now : Z)
    (timerFirst : nat -> bool)
    (toolCalls : list CallObject) (options : ExecutionOptions)
  : Completion (list (option ToolResult)) :=
  executeToolCallsFuel (S (length toolCalls)) tools now timerFirst toolCalls
    options.

End WithRuntime.

(** [hasToolCalls(response)]: the argument is known by its optional
    [tool_calls] property only. *)
Definition hasToolCalls (response_tool_calls : option (list ToolCall)) : bool :=
  match response_tool_calls with
  | Some (_ :: _) => true
  | _ => false
  end.

End ToolExecutor.
Export ToolExecutor.

(* ===================================================================== *)
(** ** lib/services/chat-service.ts                                       *)
(* ===================================================================== *)

Module ChatService.

(** [Math.ceil(text.length / 4)] *)
Definition estimateTokenCount (text : string) : Z :=
  Z.of_nat ((String.length text + 3) / 4).

Definition messageTokens (msg : Message) : Z :=
  (estimateTokenCount (content msg) + 4)%Z.

Definition calculateConversationTokens (messages : list Message) : Z :=
  fold_left (fun total msg => (total + estimateTokenCount (content msg) + 4)%Z)
            messages 0%Z.

Inductive WindowingStrategy :=
| truncate_oldest
| truncate_middle
| summarize.

(** [Partial<ContextWindowOptions>] *)
Record ContextWindowOptions := {
  maxTokens : option Z;
  strategy : option WindowingStrategy;
  minMessages : option nat;
  keepSystemMessage : option bool
}.

Definition DEFAULT_maxTokens : Z := 4096.
Definition DEFAULT_strategy : WindowingStrategy := truncate_oldest.
Definition DEFAULT_minMessages : nat := 2.
Definition DEFAULT_keepSystemMessage : bool := true.

(** The loop of [truncateOldest] over the reversed messages: [result]
    grows at its front, the loop stops at the first message that neither
    fits nor is owed to the floor. *)
Fixpoint keepNewest (reversed : list Message) (availableTokens : Z)
    (minMessages : nat) (result : list Message) : list Message :=
  match reversed with
  | [] => result
  | msg :: rest =>
      let msgTokens := (estimateTokenCount (content msg) + 4)%Z in
      if (0 <=? availableTokens - msgTokens)%Z
         || (length result <? minMessages)%nat
      then keepNewest rest (availableTokens - msgTokens)%Z minMessages
             (msg :: result)
      else result
  end.

Definition reserveSystem (systemMessage : option Message) (maxTokens : Z) : Z :=
  match systemMessage with
  | Some sys => (maxTokens - (estimateTokenCount (content sys) + 4))%Z
  | None => maxTokens
  end.

Definition unshiftSystem (systemMessage : option Message)
    (result : list Message) : list Message :=
  match systemMessage with
  | Some sys => sys :: result
  | None => result
  end.

Definition truncateOldest (systemMessage : option Message)
    (messages : list Message) (maxTokens : Z) (minMessages : nat)
  : list Message :=
  let availableTokens := reserveSystem systemMessage maxTokens in
  let reversed := rev messages in
  let result := keepNewest reversed availableTokens minMessages [] in
  unshiftSystem systemMessage result.

(** [messages.slice(start)] for a possibly negative [start]. *)
Definition sliceFrom (start : Z) (messages : list Message) : list Message :=
  if (start <? 0)%Z
  then drop (Z.to_nat (Z.max (Z.of_nat (length messages) + start) 0)) messages
  else drop (Z.to_nat start) messages.

Definition truncateMiddle (systemMessage : option Message)
    (messages : list Message) (maxTokens : Z) (minMessages : nat)
  : list Message :=
  if (length messages <=? minMessages * 2)%nat
  then truncateOldest systemMessage messages maxTokens minMessages
  else
    let availableTokens := reserveSystem systemMessage maxTokens in
    let keepFirst := if (minMessages / 2 =? 0)%nat then 1%nat
                     else (minMessages / 2)%nat in
    let keepLast := (Z.of_nat minMessages - Z.of_nat keepFirst)%Z in
    let firstMessages := take keepFirst messages in
    let lastMessages := sliceFrom (- keepLast) messages in
    let keptTokens :=
      fold_left (fun sum msg => (sum + estimateTokenCount (content msg) + 4)%Z)
                (firstMessages ++ lastMessages) 0%Z in
    if (availableTokens <? keptTokens)%Z
    then truncateOldest systemMessage messages maxTokens minMessages
    else
      let truncatedMarker :=
        {| role := system;
           content := "[" +:+ pretty (Z.of_nat (length messages)
                                        - Z.of_nat keepFirst - keepLast)%Z
                          +:+ " messages truncated for context window]";
           msg_name := None; tool_call_id := None |} in
      unshiftSystem systemMessage
        (firstMessages ++ truncatedMarker :: lastMessages).

Definition applyContextWindow (messages : list Message)
    (options : ContextWindowOptions) : list Message :=
  let maxTokens := default DEFAULT_maxTokens (maxTokens options) in
  let strategy := default DEFAULT_strategy (strategy options) in
  let minMessages := default DEFAULT_minMessages (minMessages options) in
  let keepSystemMessage :=
    default DEFAULT_keepSystemMessage (keepSystemMessage options) in
  let currentTokens := calculateConversationTokens messages in
  if (currentTokens <=? maxTokens)%Z then messages
  else
    let systemMessage :=
      match messages with
      | first :: _ =>
          if keepSystemMessage && bool_decide (role first = system)
          then Some first else None
      | [] => None
      end in
    let workingMessages :=
      match systemMessage with
      | Some _ => drop 1 messages
      | None => messages
      end in
    match strategy with
    | truncate_oldest =>
        truncateOldest systemMessage workingMessages maxTokens minMessages
    | truncate_middle =>
        truncateMiddle systemMessage workingMessages maxTokens minMessages
    | summarize =>
        truncateOldest systemMessage workingMessages maxTokens minMessages
    end.

(** The retained messages that are not of role [system]. *)
Definition nonSystem (messages : list Message) : list Message :=
  filter (fun m => role m <> system) messages.

End ChatService.

(* ===================================================================== *)
(** ** lib/services/agent-orchestrator.ts                                 *)
(* ===================================================================== *)

Module Orchestrator.

Inductive AgentRunStatus :=
| pending | planning | executing | waiting_confirmation
| completed | failed | cancelled.

#[export] Instance AgentRunStatus_eq_dec : EqDecision AgentRunStatus.
Proof. solve_decision. Defined.

Record AgentBehavior := {
  maxToolCallsPerTurn : nat;
  maxTurns : Q;
  autoContinue : bool;
  stopOnError : bool;
  runTimeoutMs : N;
  requireConfirmation : bool
}.

(** Of [modelConfig] only [preferredModel] is read by the orchestrator
    itself; the sampling settings are forwarded to the server. *)
Record AgentModelConfig := {
  preferredModel : option string
}.

Record AgentDefinition := {
  agent_id : string;
  systemPrompt : string;
  agent_tools : list string;
  behavior : AgentBehavior;
  modelConfig : AgentModelConfig;
  isPreset : bool
}.

Inductive StepType :=
| thinking | tool_call | tool_result | response | error_step.

#[export] Instance StepType_eq_dec : EqDecision StepType.
Proof. solve_decision. Defined.

Record AgentStep := {
  index : nat;
  step_type : StepType;
  step_content : option string;
  toolName : option string;
  toolArgs : option JsValue;
  toolResult : option JsValue;
  step_error : option string
}.

(** An entry of [run.messages].  The orchestrator stores objects that go
    beyond [Message]: assistant entries carry [tool_calls], and the
    [content] of a tool entry is whatever [result.error ||
    JSON.stringify(result.result)] evaluated to, [undefined] included. *)
Record RunMessage := {
  m_role : MessageRole;
  m_content : option string;
  m_name : option string;
  m_tool_call_id : option string;
  m_tool_calls : option (list ToolCall)
}.

Definition ofMessage (m : Message) : RunMessage :=
  {| m_role := role m; m_content := Some (content m); m_name := msg_name m;
     m_tool_call_id := tool_call_id m; m_tool_calls := None |}.

Record AgentRun := {
  run_id : string;
  run_agentId : string;
  status : AgentRunStatus;
  input : string;
  steps : list AgentStep;
  output : option string;
  run_error : option string;
  messages : list RunMessage;
  currentTurn : nat;
  totalToolCalls : nat
}.

Inductive AgentStreamEvent :=
| StatusEvent (s : AgentRunStatus)
| StepEvent (step : AgentStep)
| ContentEvent (text : string)
| ToolCallEvent (step : AgentStep)
| ToolResultEvent (step : AgentStep)
| ErrorEvent (message : string)
| DoneEvent (run : AgentRun).

Record RunAgentRequest := {
  req_input : string;
  req_serverId : string;
  req_model : option string;
  req_contextMessages : option (list Message)
}.

Record AgentRunContext := {
  ctx_agent : AgentDefinition;
  ctx_serverId : string;
  ctx_model : string
}.

Record AgentOrchestratorConfig := {
  defaultTimeoutMs : N;
  maxConcurrentRuns : nat
}.

Definition defaultConfig : AgentOrchestratorConfig :=
  {| defaultTimeoutMs := 120000; maxConcurrentRuns := 5 |}.

Record AgentOrchestrator := {
  config : AgentOrchestratorConfig;
  activeRuns : gmap string AgentRunContext;
  agents : gmap string AgentDefinition
}.

(** *** Agent management *)

Definition registerAgent (agent : AgentDefinition) (o : AgentOrchestrator)
  : AgentOrchestrator :=
  {| config := config o; activeRuns := activeRuns o;
     agents := <[agent_id agent := agent]> (agents o) |}.

Definition unregisterAgent (agentId : string) (o : AgentOrchestrator)
  : bool * AgentOrchestrator :=
  (bool_decide (is_Some (agents o !! agentId)),
   {| config := config o; activeRuns := activeRuns o;
      agents := delete agentId (agents o) |}).

Definition getAgent (o : AgentOrchestrator) (agentId : string)
  : option AgentDefinition :=
  agents o !! agentId.

(** *** What the run loop gets from outside *)

(** One parsed [data:] line of the completion stream: the [delta] of its
    first choice. *)
Record Delta := {
  delta_content : option string;
  delta_tool_calls : option (list ToolCall)
}.

(** The answer to one [chatCompletion] request: the deltas read from the
    stream and, when the request or a later read fails, what was thrown
    after them. *)
Record TurnResponse := {
  deltas : list Delta;
  failure : option Thrown
}.

(** The surroundings of a run: the tool registry, the servers known to
    the server manager, the id [nanoid()] draws, the clock, how the races
    of the executor against its timers would be decided in the call made
    for a tool call, the model's answer to the request of each turn, and
    whether the abort signal is found set at the check that opens the
    iteration entered with the given turn count.  The answer is indexed by the turn alone: the request the
    loop sends (history, sampling settings, the tool definitions visible
    to the agent) only matters through what the server answers, and the
    properties hold for every answer. *)
Record World := {
  registry : Tools;
  servers : gset string;
  nanoid : string;
  clock : Z;
  timerFirst : ToolCall -> nat -> bool;
  modelResponse : nat -> TurnResponse;
  aborted : nat -> bool
}.

(** *** Generators as state-and-output computations *)

Inductive Result (A : Type) :=
| Ok (a : A)
| Raise (e : Thrown)
| Stuck.
Arguments Ok {A} _.
Arguments Raise {A} _.
Arguments Stuck {A}.

(** A piece of generator code: from the run record to its result, the
    updated run record and the events yielded on the way. *)
Definition Gen (A : Type) : Type :=
  AgentRun -> Result A * AgentRun * list AgentStreamEvent.

Definition ret {A} (a : A) : Gen A := fun run => (Ok a, run, []).

Definition bind {A B} (m : Gen A) (f : A -> Gen B) : Gen B :=
  fun run =>
    let '(r, run1, ev1) := m run in
    match r with
    | Ok a => let '(r2, run2, ev2) := f a run1 in (r2, run2, ev1 ++ ev2)
    | Raise e => (Raise e, run1, ev1)
    | Stuck => (Stuck, run1, ev1)
    end.

Definition yield (e : AgentStreamEvent) : Gen unit :=
  fun run => (Ok tt, run, [e]).

Definition raise {A} (e : Thrown) : Gen A := fun run => (Raise e, run, []).

Definition stuck {A} : Gen A := fun run => (Stuck, run, []).

Definition getRun : Gen AgentRun := fun run => (Ok run, run, []).

Definition modify (f : AgentRun -> AgentRun) : Gen unit :=
  fun run => (Ok tt, f run, []).

(** [try { body } catch (error) { handler }] *)
Definition tryCatch {A} (body : Gen A) (handler : Thrown -> Gen A) : Gen A :=
  fun run =>
    let '(r, run1, ev1) := body run in
    match r with
    | Raise e => let '(r2, run2, ev2) := handler e run1 in (r2, run2, ev1 ++ ev2)
    | _ => (r, run1, ev1)
    end.

Declare Scope gen_scope.
Delimit Scope gen_scope with gen.
Notation "x <- m ;; k" := (bind m (fun x => k))
  (at level 100, m at next level, right associativity) : gen_scope.
Notation "m ;; k" := (bind m (fun _ => k))
  (at level 100, right associativity) : gen_scope.
Open Scope gen_scope.

(** *** Field updates of the run record *)

Definition setStatus (s : AgentRunStatus) (r : AgentRun) : AgentRun :=
  {| run_id := run_id r; run_agentId := run_agentId r; status := s;
     input := input r; steps := steps r; output := output r;
     run_error := run_error r; messages := messages r;
     currentTurn := currentTurn r; totalToolCalls := totalToolCalls r |}.

Definition setSteps (l : list AgentStep) (r : AgentRun) : AgentRun :=
  {| run_id := run_id r; run_agentId := run_agentId r; status := status r;
     input := input r; steps := l; output := output r;
     run_error := run_error r; messages := messages r;
     currentTurn := currentTurn r; totalToolCalls := totalToolCalls r |}.

Definition setOutput (o : option string) (r : AgentRun) : AgentRun :=
  {| run_id := run_id r; run_agentId := run_agentId r; status := status r;
     input := input r; steps := steps r; output := o;
     run_error := run_error r; messages := messages r;
     currentTurn := currentTurn r; totalToolCalls := totalToolCalls r |}.

Definition setError (e : option string) (r : AgentRun) : AgentRun :=
  {| run_id := run_id r; run_agentId := run_agentId r; status := status r;
     input := input r; steps := steps r; output := output r;
     run_error := e; messages := messages r;
     currentTurn := currentTurn r; totalToolCalls := totalToolCalls r |}.

Definition setMessages (l : list RunMessage) (r : AgentRun) : AgentRun :=
  {| run_id := run_id r; run_agentId := run_agentId r; status := status r;
     input := input r; steps := steps r; output := output r;
     run_error := run_error r; messages := l;
     currentTurn := currentTurn r; totalToolCalls := totalToolCalls r |}.

Definition setCurrentTurn (n : nat) (r : AgentRun) : AgentRun :=
  {| run_id := run_id r; run_agentId := run_agentId r; status := status r;
     input := input r; steps := steps r; output := output r;
     run_error := run_error r; messages := messages r;
     currentTurn := n; totalToolCalls := totalToolCalls r |}.

Definition setTotalToolCalls (n : nat) (r : AgentRun) : AgentRun :=
  {| run_id := run_id r; run_agentId := run_agentId r; status := status r;
     input := input r; steps := steps r; output := output r;
     run_error := run_error r; messages := messages r;
     currentTurn := currentTurn r; totalToolCalls := n |}.

Definition pushMessage (m : RunMessage) : Gen unit :=
  modify (fun r => setMessages (messages r ++ [m]) r).

(** *** Event helpers *)

(** [createStatusEvent]: also writes the status into the run. *)
Definition createStatusEvent (s : AgentRunStatus) : Gen unit :=
  modify (setStatus s);; yield (StatusEvent s).

(** [createStepEvent(run, { index: run.steps.length, ... })]: the step is
    built from the fields given, with the index read off the run, pushed
    onto [run.steps] and yielded. *)
Definition createStepEvent (type : StepType) (text : option string)
    (tname : option string) (targs : option JsValue)
    (tresult : option JsValue) (err : option string)
  : Gen unit :=
  run <- getRun;;
  let step := {| index := length (steps run); step_type := type;
                 step_content := text; toolName := tname; toolArgs := targs;
                 toolResult := tresult; step_error := err |} in
  modify (fun r => setSteps (steps r ++ [step]) r);;
  yield (StepEvent step).

Definition createToolCallEvent (toolCall : ToolCall) (args : JsValue)
  : AgentStreamEvent :=
  ToolCallEvent
    {| index := 0; step_type := tool_call;
       step_content := Some ("Calling " +:+ fn_name (tc_function toolCall));
       toolName := Some (fn_name (tc_function toolCall));
       toolArgs := Some args; toolResult := None; step_error := None |}.

Definition createToolResultEvent (r : ToolResult) : AgentStreamEvent :=
  ToolResultEvent
    {| index := 0; step_type := tool_result;
       step_content := orElse (error r) (JSON_stringify (result r));
       toolName := Some (name r);
       toolArgs := None; toolResult := Some (result r);
       step_error := error r |}.

(** *** The run loop *)

Inductive LoopCtl := Next | Break | Return.

Definition awaitCompletion {A} (c : Completion A) : Gen A :=
  match c with
  | Returned a => ret a
  | Rejected e => raise e
  | Unfinished => stuck
  end.

Definition toolMessage (text : option string) (toolCall : ToolCall)
  : RunMessage :=
  {| m_role := tool; m_content := text;
     m_name := Some (fn_name (tc_function toolCall));
     m_tool_call_id := Some (tc_id toolCall);
     m_tool_calls := None |}.

(** [toolCall.function.arguments || "{}"] *)
Definition argumentsOrEmpty (toolCall : ToolCall) : string :=
  match fn_arguments (tc_function toolCall) with
  | EmptyString => "{}"
  | text => text
  end.

(** [run.messages[run.messages.length - 1]?.content || EmptyString] *)
Definition lastContent (l : list RunMessage) : string :=
  match last l with
  | Some m => default EmptyString (orElse (m_content m) (Some EmptyString))
  | None => EmptyString
  end.

(** [assistantMessage.tool_calls = limitedCalls], seen through
    [run.messages]: the assistant message is the entry pushed last, and
    the history holds that very object. *)
Definition limitLastToolCalls (limitedCalls : list ToolCall)
    (l : list RunMessage) : list RunMessage :=
  match last l with
  | Some m =>
      removelast l ++
        [{| m_role := m_role m; m_content := m_content m; m_name := m_name m;
            m_tool_call_id := m_tool_call_id m;
            m_tool_calls := Some limitedCalls |}]
  | None => l
  end.

(** The stream of one turn, delta by delta: content is accumulated and
    reported, and a delta that carries [tool_calls] replaces the pending
    assistant message. *)
Fixpoint readStream (ds : list Delta) (accumulatedContent : string)
    (assistantMessage : option RunMessage)
  : Gen (string * option RunMessage) :=
  match ds with
  | [] => ret (accumulatedContent, assistantMessage)
  | d :: rest =>
      acc <- (match delta_content d with
              | Some (String _ _ as text) =>
                  yield (ContentEvent text);;
                  ret (accumulatedContent +:+ text)
              | _ => ret accumulatedContent
              end);;
      let assistantMessage' :=
        match delta_tool_calls d with
        | Some calls =>
            Some {| m_role := assistant; m_content := Some acc;
                    m_name := None; m_tool_call_id := None;
                    m_tool_calls := Some calls |}
        | None => assistantMessage
        end in
      readStream rest acc assistantMessage'
  end.

Section WithRuntime.
Context `{Runtime}.

(** [JSON.parse(text)] as a statement of the generator. *)
Definition parseOrThrow (text : string) : Gen JsValue :=
  match JSON_parse text with
  | Some v => ret v
  | None => raise (ErrorInstance (syntaxErrorMessage text))
  end.

(** The body of the [for] loop of [executeTools] for one call; [true]
    when it ends in [return]. *)
Definition executeOneTool (w : World) (agent : AgentDefinition)
    (toolCall : ToolCall) : Gen bool :=
  let fname := fn_name (tc_function toolCall) in
  args <- parseOrThrow (argumentsOrEmpty toolCall);;
  createStepEvent tool_call (Some ("Calling tool: " +:+ fname)) (Some fname)
    (Some args) None None;;
  yield (createToolCallEvent toolCall args);;
  tryCatch
    (args' <- parseOrThrow (argumentsOrEmpty toolCall);;
     let parsedCall :=
       {| pc_id := tc_id toolCall; pc_name := fname; pc_arguments := args' |} in
     results <- awaitCompletion
                  (executeToolCalls (registry w) (clock w)
                     (timerFirst w toolCall)
                     [WithoutFunction parsedCall] noOptions);;
     match results !! 0%nat with
     | Some (Some r) =>
         let text := orElse (error r) (JSON_stringify (result r)) in
         pushMessage (toolMessage text toolCall);;
         createStepEvent tool_result text (Some fname) None
           (Some (result r)) (error r);;
         yield (createToolResultEvent r);;
         if truthy (error r) && stopOnError (behavior agent)
         then modify (setStatus failed);;
              modify (setError (error r));;
              ret true
         else ret false
     | _ => raise (undefinedRead "error")
     end)
    (fun e =>
       let errorMessage := messageOr "Tool execution failed" e in
       pushMessage (toolMessage (Some ("Error: " +:+ errorMessage)) toolCall);;
       createStepEvent error_step (Some errorMessage) (Some fname) None None
         (Some errorMessage);;
       if stopOnError (behavior agent)
       then modify (setStatus failed);;
            modify (setError (Some errorMessage));;
            ret true
       else ret false).

Fixpoint executeTools (w : World) (agent : AgentDefinition)
    (toolCalls : list ToolCall) : Gen unit :=
  match toolCalls with
  | [] => ret tt
  | toolCall :: rest =>
      returned <- executeOneTool w agent toolCall;;
      if returned then ret tt else executeTools w agent rest
  end.

(** The [try] block of one iteration. *)
Definition modelTurn (w : World) (agent : AgentDefinition) : Gen LoopCtl :=
  run <- getRun;;
  let answer := modelResponse w (currentTurn run) in
  read <- readStream (deltas answer) EmptyString None;;
  match failure answer with
  | Some e => raise e
  | None =>
      let accumulatedContent := read.1 in
      let assistantMessage :=
        default {| m_role := assistant; m_content := Some accumulatedContent;
                   m_name := None; m_tool_call_id := None;
                   m_tool_calls := None |} read.2 in
      pushMessage assistantMessage;;
      if hasToolCalls (m_tool_calls assistantMessage) then
        let toolCalls := default [] (m_tool_calls assistantMessage) in
        modify (fun r =>
                  setTotalToolCalls (totalToolCalls r + length toolCalls) r);;
        (if (maxToolCallsPerTurn (behavior agent) <? length toolCalls)%nat
         then
           let limitedCalls :=
             take (maxToolCallsPerTurn (behavior agent)) toolCalls in
           createStepEvent thinking
             (Some ("Limiting tool calls from " +:+ pretty (length toolCalls)
                      +:+ " to "
                      +:+ pretty (maxToolCallsPerTurn (behavior agent))))
             None None None None;;
           modify (fun r =>
                     setMessages (limitLastToolCalls limitedCalls (messages r)) r)
         else ret tt);;
        (if requireConfirmation (behavior agent)
         then modify (setStatus waiting_confirmation);;
              createStatusEvent waiting_confirmation
         else ret tt);;
        executeTools w agent toolCalls;;
        if negb (autoContinue (behavior agent)) then ret Break else ret Next
      else
        modify (setStatus completed);;
        modify (setOutput (Some accumulatedContent));;
        createStepEvent response (Some accumulatedContent) None None None None;;
        ret Return
  end.

(** One pass through the body of the [while] loop. *)
Definition iteration (w : World) (agent : AgentDefinition) : Gen LoopCtl :=
  run <- getRun;;
  if aborted w (currentTurn run) then
    modify (setStatus cancelled);;
    createStatusEvent cancelled;;
    ret Return
  else
    modify (fun r => setCurrentTurn (S (currentTurn r)) r);;
    run' <- getRun;;
    createStepEvent thinking
      (Some ("Turn " +:+ pretty (currentTurn run') +:+ ": Processing..."))
      None None None None;;
    tryCatch (modelTurn w agent)
      (fun e =>
         let errorMessage := messageOr "Unknown error" e in
         createStepEvent error_step (Some errorMessage) None None None
           (Some errorMessage);;
         if stopOnError (behavior agent)
         then modify (setStatus failed);;
              modify (setError (Some errorMessage));;
              ret Return
         else ret Next).

(** [turn < limit], for a count of turns and a limit that need not be
    integral. *)
Definition belowLimit (turn : nat) (limit : Q) : bool :=
  match (inject_Z (Z.of_nat turn) ?= limit)%Q with
  | Lt => true
  | _ => false
  end.

(** [while (run.currentTurn < agent.behavior.maxTurns)], one iteration per
    unit of fuel; the result tells whether the generator returned from
    inside the loop. *)
Fixpoint whileTurns (fuel : nat) (w : World) (agent : AgentDefinition)
  : Gen bool :=
  run <- getRun;;
  if belowLimit (currentTurn run) (maxTurns (behavior agent)) then
    match fuel with
    | 0 => stuck
    | S fuel' =>
        ctl <- iteration w agent;;
        match ctl with
        | Next => whileTurns fuel' w agent
        | Break => ret false
        | Return => ret true
        end
    end
  else ret false.

(** The code after the loop. *)
Definition maxTurnsReached : Gen unit :=
  run <- getRun;;
  if bool_decide (status run <> completed)
     && bool_decide (status run <> failed)
  then modify (setStatus completed);;
       modify (fun r => setOutput (Some (lastContent (messages r))) r)
  else ret tt.

(** The number of turns the guard of the loop lets a run take: the least
    integer that is not below [maxTurns], and none for a limit that is
    not positive. *)
Definition turnsAllowed (agent : AgentDefinition) : nat :=
  Z.to_nat (Qceiling (maxTurns (behavior agent))).

(** [executeAgentLoop]: every iteration that does not leave the loop
    raises [currentTurn], so the turns still allowed are fuel enough. *)
Definition executeAgentLoop (w : World) (context : AgentRunContext)
  : Gen unit :=
  let agent := ctx_agent context in
  run <- getRun;;
  returned <- whileTurns (turnsAllowed agent - currentTurn run) w agent;;
  if returned then ret tt else maxTurnsReached.

End WithRuntime.

(** *** Starting a run *)

Definition initialRun (runId agentId input : string) : AgentRun :=
  {| run_id := runId; run_agentId := agentId; status := pending;
     input := input; steps := []; output := None; run_error := None;
     messages := []; currentTurn := 0; totalToolCalls := 0 |}.

Definition initialMessages (agent : AgentDefinition)
    (request : RunAgentRequest) : list RunMessage :=
  ofMessage {| role := system; content := systemPrompt agent;
               msg_name := None; tool_call_id := None |}
  :: map ofMessage (default [] (req_contextMessages request))
  ++ [ofMessage {| role := user; content := req_input request;
                   msg_name := None; tool_call_id := None |}].

(** [request.model || agent.modelConfig.preferredModel || EmptyString] *)
Definition resolveModel (agent : AgentDefinition) (request : RunAgentRequest)
  : string :=
  default EmptyString
    (orElse (req_model request)
       (orElse (preferredModel (modelConfig agent)) (Some EmptyString))).

Definition withActiveRuns (m : gmap string AgentRunContext)
    (o : AgentOrchestrator) : AgentOrchestrator :=
  {| config := config o; activeRuns := m; agents := agents o |}.

(** [runAgent], with the loop it delegates to as a parameter: the events
    it yields, in order, and the orchestrator it leaves behind. *)
Definition runAgentWith (loop : World -> AgentRunContext -> Gen unit)
    (o : AgentOrchestrator) (w : World) (agentId : string)
    (request : RunAgentRequest)
  : list AgentStreamEvent * AgentOrchestrator :=
  match agents o !! agentId with
  | None => ([ErrorEvent ("Agent not found: " +:+ agentId)], o)
  | Some agent =>
      if (maxConcurrentRuns (config o) <=? size (activeRuns o))%nat
      then ([ErrorEvent "Maximum concurrent agent runs reached"], o)
      else if negb (bool_decide (req_serverId request ∈ servers w))
      then ([ErrorEvent ("Server not found: " +:+ req_serverId request)], o)
      else
        let runId := nanoid w in
        let model := resolveModel agent request in
        match model with
        | EmptyString => ([ErrorEvent "No model specified for agent run"], o)
        | _ =>
            let run := initialRun runId agentId (req_input request) in
            let context := {| ctx_agent := agent;
                              ctx_serverId := req_serverId request;
                              ctx_model := model |} in
            let started := withActiveRuns (<[runId := context]> (activeRuns o)) o in
            let ended := withActiveRuns (delete runId (activeRuns started)) o in
            let body :=
              modify (setMessages (initialMessages agent request));;
              createStatusEvent executing;;
              loop w context in
            let '(r, run1, ev) := body run in
            match r with
            | Ok _ => (ev ++ [DoneEvent run1], ended)
            | Raise e =>
                let errorMessage := messageOr "Unknown error" e in
                let run2 := setError (Some errorMessage) (setStatus failed run1) in
                (ev ++ [ErrorEvent errorMessage; DoneEvent run2], ended)
            | Stuck => (ev, started)
            end
        end
  end.

Definition runAgent `{Runtime} := runAgentWith executeAgentLoop.

End Orchestrator.

(* ===================================================================== *)
(** * Vocabulary of the properties and sample data                        *)
(* ===================================================================== *)

(** ** Concrete data used to evaluate the code                            *)

Module Examples.

(** A runtime whose parser is used on the text of an empty object only. *)
Definition bracesRuntime : Runtime :=
  {| JSON_parse := fun text =>
       if bool_decide (text = "{}") then Some (JObj []) else None;
     syntaxErrorMessage := fun _ => "Unexpected token in JSON" |}.

Definition call (id fname : string) : ToolCall :=
  {| tc_id := id;
     tc_function := {| fn_name := fname; fn_arguments := "{}" |} |}.

Definition tool (h : ToolHandler) : RegisteredTool :=
  {| handler := h; enabled := true; category := None; requiresAuth := false |}.

(** Handlers: one that computes its answer on the spot, one that waits a
    minute for its answer, one that throws an [Error] whose message is
    empty. *)
Definition quick : ToolHandler :=
  fun _ => {| outcome := Resolves (JNum 4); elapsedMs := 1;
              settling := SameTask |}.
Definition slow : ToolHandler :=
  fun _ => {| outcome := Resolves (JNum 4); elapsedMs := 60000;
              settling := LaterTask |}.
Definition silentFailure : ToolHandler :=
  fun _ => {| outcome := Throws (ErrorInstance EmptyString); elapsedMs := 1;
              settling := SameTask |}.

Definition someTools : Tools :=
  <["calculator" := tool quick]>
    (<["web_search" := tool slow]>
       (<["broken" := tool silentFailure]> ∅)).

End Examples.

(** ** Terms in which the properties are stated                           *)

Module SchemasTerms.

(** The content the specification announces: the error object whenever an
    error is present, the printed result otherwise. *)
Definition announcedContent (r : ToolResult) : option string :=
  match error r with
  | Some e => JSON_stringify (JObj [("error", JStr e)])
  | None => JSON_stringify (result r)
  end.

(** The result the registry returns when a handler throws an [Error] with
    an empty message. *)
Definition silentResult : ToolResult :=
  value (execute Examples.someTools 0
           {| pc_id := "c1"; pc_name := "broken"; pc_arguments := JObj [] |}).

End SchemasTerms.

Module RegistryTerms.

Definition notFoundText (fname : string) : string :=
  "Tool " +:+ dquote +:+ fname +:+ dquote +:+ " not found".

Definition disabledText (fname : string) : string :=
  "Tool " +:+ dquote +:+ fname +:+ dquote +:+ " is disabled".

End RegistryTerms.

Module ChatTerms.
Import ChatService.

(** The options of a [truncate-oldest] window with budget [budget]. *)
Definition oldestWindow (budget : Z) (floor : option nat) (keep : option bool)
  : ContextWindowOptions :=
  {| maxTokens := Some budget; strategy := Some truncate_oldest;
     minMessages := floor; keepSystemMessage := keep |}.

Definition threeMessages : list Message :=
  [ {| role := system; content := "You are a helpful assistant.";
       msg_name := None; tool_call_id := None |};
    {| role := user; content := "What is the capital of France?";
       msg_name := None; tool_call_id := None |};
    {| role := assistant; content := "Paris.";
       msg_name := None; tool_call_id := None |};
    {| role := user; content := "And of Italy?";
       msg_name := None; tool_call_id := None |} ].

(** The system message that [applyContextWindow] sets aside and the
    working messages that remain. *)
Definition setAside (keep : option bool) (messages : list Message)
  : option Message * list Message :=
  match messages with
  | first :: rest =>
      if default DEFAULT_keepSystemMessage keep
         && bool_decide (role first = system)
      then (Some first, rest) else (None, messages)
  | [] => (None, [])
  end.

End ChatTerms.

Module ExecutorTerms.

(** [needle] occurs in [text]. *)
Definition occursIn (needle text : string) : Prop :=
  exists before behind, text = before +:+ needle +:+ behind.

(** A sequence of assignments [results[index] = r]. *)
Definition writeAll (writes : list (nat * ToolResult))
    (results : list (option ToolResult)) : list (option ToolResult) :=
  fold_left (fun acc w => arraySet w.1 w.2 acc) writes results.

Definition timedWrite (tools : Tools) (ms : N) (timerFirst : nat -> bool)
    (ic : nat * ParsedToolCall) : nat * ToolResult :=
  (ic.1, value (executeWithTimeout tools 0 (timerFirst ic.1) ic.2 ms)).

(** What a result says, its [executionTimeMs] apart. *)
Definition verdict (r : ToolResult)
  : string * string * JsValue * option string :=
  (toolCallId r, name r, result r, error r).

(** The timer of a call fires before its execution has settled. *)
Definition timerWins (tools : Tools) (timerFirst : bool)
    (pc : ParsedToolCall) : bool :=
  match task (execute tools 0 pc) with
  | SameTask => false
  | LaterTask => timerFirst
  end.

(** The execution of a call settles in the task that started it. *)
Definition settlesAtOnce (tools : Tools) (pc : ParsedToolCall) : Prop :=
  task (execute tools 0 pc) = SameTask.

(** Timers that fire first whenever they can. *)
Definition eagerTimers (index : nat) : bool := true.

(** A registry whose search computes for a minute without giving the
    event loop a turn. *)
Definition busyTools : Tools :=
  <["web_search" := Examples.tool
      (fun _ => {| outcome := Resolves (JNum 4); elapsedMs := 60000;
                   settling := SameTask |})]> Examples.someTools.

(** Scenario 5: three calls, the second to a tool that takes a minute. *)
Definition threeCalls : list ToolCall :=
  [Examples.call "c1" "calculator"; Examples.call "c2" "web_search";
   Examples.call "c3" "calculator"].

Definition twoAtATime : ExecutionOptions :=
  {| timeout := Some 30000%N; maxConcurrent := Some 2;
     continueOnError := None |}.

(** Calls that settle at once: the calculator answers in the task that
    called it, and no tool is registered under the third name. *)
Definition settledCalls : list ToolCall :=
  [Examples.call "c1" "calculator"; Examples.call "c2" "no_such_tool";
   Examples.call "c3" "calculator"].

Section WithRuntime.
Context `{Runtime}.

(** What a well-formed call comes to under a timeout of [ms]: the parse
    failure, or what the race of its execution against the timer gives. *)
Definition outcomeOf (tools : Tools) (ms : N) (timerFirst : bool)
    (c : ToolCall) : ToolResult :=
  match parseToolCallArguments (WithFunction c) with
  | Some pc => value (executeWithTimeout tools 0 timerFirst pc ms)
  | None => parseFailure c
  end.

(** What the registry answers to a well-formed call, the parse failure
    included. *)
Definition answerOf (tools : Tools) (c : ToolCall) : ToolResult :=
  match parseToolCallArguments (WithFunction c) with
  | Some pc => value (execute tools 0 pc)
  | None => parseFailure c
  end.

(** The time the execution of a call takes on its own. *)
Definition executionTime (tools : Tools) (pc : ParsedToolCall) : N :=
  after (execute tools 0 pc).

Fixpoint validOf (index : nat) (calls : list ToolCall)
  : list (nat * ParsedToolCall) :=
  match calls with
  | [] => []
  | c :: rest =>
      match parseToolCallArguments (WithFunction c) with
      | Some pc => (index, pc) :: validOf (S index) rest
      | None => validOf (S index) rest
      end
  end.

Fixpoint failureWrites (index : nat) (calls : list ToolCall)
  : list (nat * ToolResult) :=
  match calls with
  | [] => []
  | c :: rest =>
      match parseToolCallArguments (WithFunction c) with
      | Some _ => failureWrites (S index) rest
      | None => (index, parseFailure c) :: failureWrites (S index) rest
      end
  end.

(** All assignments [executeToolCalls] makes when [k] of the calls that
    parsed are executed. *)
Definition allWrites (tools : Tools) (ms : N) (timerFirst : nat -> bool)
    (k : nat) (calls : list ToolCall) : list (nat * ToolResult) :=
  failureWrites 0 calls
    ++ map (timedWrite tools ms timerFirst) (take k (validOf 0 calls)).

(** The value every assignment to position [i] has. *)
Definition outcomeAt (tools : Tools) (ms : N) (timerFirst : nat -> bool)
    (calls : list ToolCall) (i : nat) : ToolResult :=
  match calls !! i with
  | Some c => outcomeOf tools ms (timerFirst i) c
  | None => parseFailure (Examples.call EmptyString EmptyString)
  end.

End WithRuntime.

End ExecutorTerms.

Module OrchestratorTerms.
Import Orchestrator.

(** The pure content of [readStream]: the accumulated text and the
    pending assistant message after the deltas. *)
Fixpoint streamResult (ds : list Delta) (accumulatedContent : string)
    (assistantMessage : option RunMessage) : string * option RunMessage :=
  match ds with
  | [] => (accumulatedContent, assistantMessage)
  | d :: rest =>
      let acc := match delta_content d with
                 | Some (String _ _ as text) => accumulatedContent +:+ text
                 | _ => accumulatedContent
                 end in
      streamResult rest acc
        match delta_tool_calls d with
        | Some calls =>
            Some {| m_role := assistant; m_content := Some acc;
                    m_name := None; m_tool_call_id := None;
                    m_tool_calls := Some calls |}
        | None => assistantMessage
        end
  end.

Fixpoint contentEvents (ds : list Delta) : list AgentStreamEvent :=
  match ds with
  | [] => []
  | d :: rest =>
      match delta_content d with
      | Some (String _ _ as text) => ContentEvent text :: contentEvents rest
      | _ => contentEvents rest
      end
  end.

(** The tool calls of the assistant message of a turn, as the model sent
    them: none when the request or the stream failed. *)
Definition announcedCalls (answer : TurnResponse) : list ToolCall :=
  match failure answer with
  | Some _ => []
  | None =>
      default []
        ((streamResult (deltas answer) EmptyString None).2 ≫= m_tool_calls)
  end.

(** The sum of [f t] over the turns [from < t <= to]. *)
Definition sumOverTurns (f : nat -> nat) (from to : nat) : nat :=
  sum_list (map f (seq (S from) (to - from))).

(** Events that report progress: neither [done] nor [error]. *)
Definition isProgress (e : AgentStreamEvent) : Prop :=
  match e with
  | DoneEvent _ | ErrorEvent _ => False
  | _ => True
  end.

(** The names of the tools for which a [tool_call] event was emitted. *)
Definition calledTools (events : list AgentStreamEvent) : list string :=
  omap (fun e => match e with
                 | ToolCallEvent step => toolName step
                 | _ => None
                 end) events.

(** The snapshot carried by the last event, if that is a [done] event. *)
Definition finalRun (events : list AgentStreamEvent) : option AgentRun :=
  match last events with
  | Some (DoneEvent run) => Some run
  | _ => None
  end.

(** The preconditions of [runAgent] and the error each reports. *)
Inductive PreconditionFails (o : AgentOrchestrator) (w : World)
    (agentId : string) (request : RunAgentRequest) : string -> Prop :=
| UnknownAgent :
    agents o !! agentId = None ->
    PreconditionFails o w agentId request ("Agent not found: " +:+ agentId)
| CapacityReached :
    maxConcurrentRuns (config o) <= size (activeRuns o) ->
    PreconditionFails o w agentId request "Maximum concurrent agent runs reached"
| UnknownServer :
    req_serverId request ∉ servers w ->
    PreconditionFails o w agentId request
      ("Server not found: " +:+ req_serverId request)
| NoModel agent :
    agents o !! agentId = Some agent ->
    resolveModel agent request = EmptyString ->
    PreconditionFails o w agentId request "No model specified for agent run".

(** The run record and the context with which [runAgent] enters the
    loop. *)
Definition entryRun (w : World) (agent : AgentDefinition) (agentId : string)
    (request : RunAgentRequest) : AgentRun :=
  setStatus executing
    (setMessages (initialMessages agent request)
       (initialRun (nanoid w) agentId (req_input request))).

Definition entryContext (agent : AgentDefinition) (request : RunAgentRequest)
  : AgentRunContext :=
  {| ctx_agent := agent; ctx_serverId := req_serverId request;
     ctx_model := resolveModel agent request |}.

Definition agentWith (perTurn turns : nat) (auto stop : bool)
  : AgentDefinition :=
  {| agent_id := "helper"; systemPrompt := "You are a helper.";
     agent_tools := [];
     behavior := {| maxToolCallsPerTurn := perTurn;
                    maxTurns := inject_Z (Z.of_nat turns);
                    autoContinue := auto; stopOnError := stop;
                    runTimeoutMs := 120000; requireConfirmation := false |};
     modelConfig := {| preferredModel := Some "local-model" |};
     isPreset := false |}.

(** The agent with another turn limit. *)
Definition withMaxTurns (limit : Q) (a : AgentDefinition) : AgentDefinition :=
  {| agent_id := agent_id a; systemPrompt := systemPrompt a;
     agent_tools := agent_tools a;
     behavior := {| maxToolCallsPerTurn := maxToolCallsPerTurn (behavior a);
                    maxTurns := limit;
                    autoContinue := autoContinue (behavior a);
                    stopOnError := stopOnError (behavior a);
                    runTimeoutMs := runTimeoutMs (behavior a);
                    requireConfirmation := requireConfirmation (behavior a) |};
     modelConfig := modelConfig a; isPreset := isPreset a |}.

(** A model whose every request fails. *)
Definition unreachableModel (turn : nat) : TurnResponse :=
  {| deltas := []; failure := Some (ErrorInstance "fetch failed") |}.

Definition orchestratorWith (a : AgentDefinition) : AgentOrchestrator :=
  registerAgent a {| config := defaultConfig; activeRuns := ∅; agents := ∅ |}.

(** A model that asks for [calls] on the first turn and answers [text]
    afterwards. *)
Definition callsThenText (calls : list ToolCall) (text : string) (turn : nat)
  : TurnResponse :=
  if (turn =? 1)%nat
  then {| deltas := [ {| delta_content := Some "Let me check.";
                         delta_tool_calls := None |};
                      {| delta_content := None;
                         delta_tool_calls := Some calls |} ];
          failure := None |}
  else {| deltas := [ {| delta_content := Some text;
                         delta_tool_calls := None |} ];
          failure := None |}.

Definition worldWith (answer : nat -> TurnResponse) : World :=
  {| registry := Examples.someTools; servers := {["local"]};
     nanoid := "run-1"; clock := 0; timerFirst := fun _ _ => false;
     modelResponse := answer;
     aborted := fun _ => false |}.

Definition sampleRequest : RunAgentRequest :=
  {| req_input := "What is 2+2?"; req_serverId := "local";
     req_model := None; req_contextMessages := None |}.

Definition twoCalls : list ToolCall :=
  [Examples.call "c1" "calculator"; Examples.call "c2" "web_search"].

Definition sampleRun (agent : AgentDefinition) (answer : nat -> TurnResponse)
  : list AgentStreamEvent :=
  (@runAgent Examples.bracesRuntime (orchestratorWith agent) (worldWith answer)
     "helper" sampleRequest).1.

(** The state of the sample run when the loop has been through [k]
    iterations and is about to start the next. *)
Definition sampleStateAfter (k : nat) (agent : AgentDefinition)
    (answer : nat -> TurnResponse) : Result bool * AgentRun :=
  (@whileTurns Examples.bracesRuntime k (worldWith answer) agent
     (entryRun (worldWith answer) agent "helper" sampleRequest)).1.

(** What a piece of generator code may end in. *)
Inductive Level := MayRaise | MustReturn.

Definition allowed {A} (l : Level) (r : Result A) : Prop :=
  match r, l with
  | Stuck, _ => False
  | Raise _, MustReturn => False
  | _, _ => True
  end.

Definition sameCounters (before after : AgentRun) : Prop :=
  currentTurn after = currentTurn before /\
  totalToolCalls after = totalToolCalls before.

(** [quiet l m]: [m] ends as [l] allows, yields progress events only and
    changes neither [currentTurn] nor [totalToolCalls]. *)
Definition quiet {A} (l : Level) (m : Gen A) : Prop :=
  forall run,
    allowed l (m run).1.1 /\
    sameCounters run (m run).1.2 /\
    Forall isProgress (m run).2.

(** The number of tool calls the model asked for on turn [t]. *)
Definition callsOfTurn (w : World) (t : nat) : nat :=
  length (announcedCalls (modelResponse w t)).

End OrchestratorTerms.

(* ===================================================================== *)
(** * Further code of the same files                                      *)
(* ===================================================================== *)

(** ** tool-registry.ts and tool-executor.ts, the remaining operations    *)

Module ToolOperations.

(** What [setEnabled] returns: whether the tool exists. *)
Definition setEnabledFound (fname : string) (tools : Tools) : bool :=
  bool_decide (is_Some (tools !! fname)).

(** What [unregister] returns: whether an entry was deleted. *)
Definition unregisterFound (fname : string) (tools : Tools) : bool :=
  bool_decide (is_Some (tools !! fname)).

(** [clear()] *)
Definition clear (tools : Tools) : Tools := ∅.

(** [extractToolCalls(response)], on the optional [tool_calls] property
    of the response. *)
Definition extractToolCalls (response_tool_calls : option (list ToolCall))
  : list ToolCall :=
  match response_tool_calls with
  | Some calls => calls
  | None => []
  end.

(** The loop of [validateToolsAvailable]: the names of the calls whose
    tool is not available, in call order. *)
Fixpoint missingTools (tools : Tools) (toolCalls : list ToolCall)
  : list string :=
  match toolCalls with
  | [] => []
  | call :: rest =>
      if negb (isAvailable tools (fn_name (tc_function call)))
      then fn_name (tc_function call) :: missingTools tools rest
      else missingTools tools rest
  end.

Record Validation := {
  valid : bool;
  missing : list string
}.

Definition validateToolsAvailable (tools : Tools) (toolCalls : list ToolCall)
  : Validation :=
  let missing := missingTools tools toolCalls in
  {| valid := bool_decide (length missing = 0); missing := missing |}.

Section WithRuntime.
Context `{Runtime}.

(** [executeToolCallsAsMessages]: [results.map(createToolResultMessage)]
    leaves the holes of [results] as holes. *)
Definition executeToolCallsAsMessages (tools : Tools) (now : Z)
    (timerFirst : nat -> bool)
    (toolCalls : list CallObject) (options : ExecutionOptions)
  : Completion (list (option ToolResultMessage)) :=
  match executeToolCalls tools now timerFirst toolCalls options with
  | Returned results => Returned (map (fmap createToolResultMessage) results)
  | Rejected e => Rejected e
  | Unfinished => Unfinished
  end.

(** Every call of the list has arguments that parse. *)
Definition allParse (calls : list ToolCall) : Prop :=
  forall c, c ∈ calls -> is_Some (parseToolCallArguments (WithFunction c)).

End WithRuntime.

(** A registry whose calculator fails. *)
Definition failingTools : Tools :=
  <["calculator" := Examples.tool
      (fun _ => {| outcome := Throws (ErrorInstance "Division by zero");
                   elapsedMs := 1; settling := SameTask |})]>
    Examples.someTools.

End ToolOperations.

(** ** chat-service.ts, the remaining functions                           *)

Module ChatOperations.
Import ChatService.

(** [prepareMessagesForRequest(systemPrompt, conversationMessages,
    maxTokens = 4096)] *)
Definition prepareMessagesForRequest (systemPrompt : string)
    (conversationMessages : list Message) (maxTokens : option Z)
  : list Message :=
  let messages :=
    {| role := system; content := systemPrompt;
       msg_name := None; tool_call_id := None |} :: conversationMessages in
  applyContextWindow messages
    {| ChatService.maxTokens := Some (default 4096%Z maxTokens);
       strategy := Some truncate_oldest;
       minMessages := None;
       keepSystemMessage := Some true |}.

(** [text.slice(0, stop)] for a possibly negative [stop]. *)
Definition sliceTo (stop : Z) (text : string) : string :=
  let len := Z.of_nat (String.length text) in
  let stop' := if (stop <? 0)%Z then Z.max (len + stop) 0 else Z.min stop len in
  String.substring 0 (Z.to_nat stop') text.

Section WithTrim.
(** [String.prototype.trim], taken from the runtime. *)
Variable trim : string -> string.

(** [generateTitle(messages, maxLength = 50)] *)
Definition generateTitle (messages : list Message) (maxLength : option Z)
  : string :=
  let maxLength := default 50%Z maxLength in
  match List.find (fun m => bool_decide (role m = user)) messages with
  | None => "New Chat"
  | Some firstUserMessage =>
      let text := trim (content firstUserMessage) in
      if (Z.of_nat (String.length text) <=? maxLength)%Z then text
      else sliceTo (maxLength - 3) text +:+ "..."
  end.

End WithTrim.

(** The sum of the token estimates of the messages. *)
Definition tokensOf (messages : list Message) : Z :=
  foldr (fun msg total => (messageTokens msg + total)%Z) 0%Z messages.

(** The options of a window under strategy [s]. *)
Definition windowOptions (s : option WindowingStrategy) (budget : Z)
    (floor : option nat) (keep : option bool) : ContextWindowOptions :=
  {| maxTokens := Some budget; strategy := s;
     minMessages := floor; keepSystemMessage := keep |}.

(** The marker [truncateMiddle] splices in for [n] elided messages. *)
Definition truncatedMarker (n : Z) : Message :=
  {| role := system;
     content := "[" +:+ pretty n +:+ " messages truncated for context window]";
     msg_name := None; tool_call_id := None |}.

Definition longChat : list Message :=
  [ {| role := system; content := "You are a helpful assistant.";
       msg_name := None; tool_call_id := None |};
    {| role := user; content := "Tell me about the tamarin.";
       msg_name := None; tool_call_id := None |};
    {| role := assistant; content := "Tamarins are small monkeys.";
       msg_name := None; tool_call_id := None |};
    {| role := user; content := "Where do they live?";
       msg_name := None; tool_call_id := None |};
    {| role := assistant; content := "In the forests of South America.";
       msg_name := None; tool_call_id := None |};
    {| role := user; content := "What do they eat?";
       msg_name := None; tool_call_id := None |};
    {| role := assistant; content := "Fruit, insects and tree sap.";
       msg_name := None; tool_call_id := None |} ].

End ChatOperations.

(** ** Relations between a run record, the events of a piece of the run
       loop and the run record it leaves                                  *)

Module RunTerms.
Import Orchestrator.

Definition Trace : Type :=
  AgentRun -> list AgentStreamEvent -> AgentRun -> Prop.

(** [keeps R m]: whatever run record [m] starts from, and however it
    ends, the record it leaves and the events it yields are related to
    the record it started from. *)
Definition keeps {A} (R : Trace) (m : Gen A) : Prop :=
  forall run, R run (m run).2 (m run).1.2.

(** A relation that holds of the statements the run loop is made of, one
    at a time, and of their sequences: the assignments to the fields of
    the run, the pushes onto [run.messages], the assignment to the
    [tool_calls] of the last message, the steps created (those of type
    [tool_result] apart), and the events yielded beside them. *)
Record Stepwise (R : Trace) : Prop := {
  sw_refl : forall run, R run [] run;
  sw_trans : forall a e1 b e2 c, R a e1 b -> R b e2 c -> R a (e1 ++ e2) c;
  sw_status : forall s run, R run [] (setStatus s run);
  sw_error : forall e run, R run [] (setError e run);
  sw_output : forall o run, R run [] (setOutput o run);
  sw_turn : forall n run, R run [] (setCurrentTurn n run);
  sw_total : forall n run, R run [] (setTotalToolCalls n run);
  sw_push : forall m run, R run [] (setMessages (messages run ++ [m]) run);
  sw_limit : forall calls run,
    R run [] (setMessages (limitLastToolCalls calls (messages run)) run);
  sw_step : forall type text tname targs tresult err run,
    type <> tool_result ->
    let step := {| index := length (steps run); step_type := type;
                   step_content := text; toolName := tname;
                   toolArgs := targs; toolResult := tresult;
                   step_error := err |} in
    R run [StepEvent step] (setSteps (steps run ++ [step]) run);
  sw_status_event : forall s run, R run [StatusEvent s] run;
  sw_content_event : forall text run, R run [ContentEvent text] run;
  sw_tool_call_event : forall step run, R run [ToolCallEvent step] run
}.

(** The steps carried by the [step] events. *)
Definition stepEvents (events : list AgentStreamEvent) : list AgentStep :=
  omap (fun e => match e with StepEvent s => Some s | _ => None end) events.

(** The steps added to the run are those of the [step] events, in the
    order of the events, each numbered by its position in [run.steps]. *)
Definition Logged : Trace := fun before events after =>
  steps after = steps before ++ stepEvents events /\
  map index (stepEvents events)
    = seq (length (steps before)) (length (stepEvents events)).

(** An event that reports no tool result: not a [tool_result] event, and
    no step of type [tool_result] in it. *)
Definition reportsNoResult (e : AgentStreamEvent) : Prop :=
  match e with
  | ToolResultEvent _ => False
  | StepEvent s => step_type s <> tool_result
  | DoneEvent run => Forall (fun s => step_type s <> tool_result) (steps run)
  | _ => True
  end.

Definition NoToolResult : Trace := fun before events after =>
  Forall reportsNoResult events /\
  (Forall (fun s => step_type s <> tool_result) (steps before) ->
   Forall (fun s => step_type s <> tool_result) (steps after)).

(** A message of the history without its [tool_calls]. *)
Definition outline (m : RunMessage)
  : MessageRole * option string * option string * option string :=
  (m_role m, m_content m, m_name m, m_tool_call_id m).

(** The history only grows: what was there stays in place, up to the
    [tool_calls] of its entries. *)
Definition Grows : Trace := fun before events after =>
  map outline (messages before) `prefix_of` map outline (messages after).

(** The world with another tool registry. *)
Definition withRegistry (tools : Tools) (w : World) : World :=
  {| registry := tools; servers := servers w; nanoid := nanoid w;
     clock := clock w; timerFirst := timerFirst w;
     modelResponse := modelResponse w;
     aborted := aborted w |}.

(** [triple P m Q E]: started from a run record that satisfies [P], the
    code [m] leaves one that satisfies [Q] when it ends normally and [E]
    when it throws. *)
Definition triple {A} (P : AgentRun -> Prop) (m : Gen A)
    (Q : A -> AgentRun -> Prop) (E : AgentRun -> Prop) : Prop :=
  forall run, P run ->
    match (m run).1.1 with
    | Ok a => Q a (m run).1.2
    | Raise _ => E (m run).1.2
    | Stuck => True
    end.

(** A run that is under way: it has no output, is not completed, and
    has its error set if it is marked as failed. *)
Definition Underway (run : AgentRun) : Prop :=
  output run = None /\
  status run <> completed /\
  (status run = failed -> is_Some (run_error run)).

(** A run that has come to its end: its status is final, it has an
    output exactly when it completed, and an error when it failed. *)
Definition Finished (run : AgentRun) : Prop :=
  (status run = completed \/ status run = failed \/ status run = cancelled) /\
  (is_Some (output run) <-> status run = completed) /\
  (status run = failed -> is_Some (run_error run)).

(** What holds when a pass through the loop body is over. *)
Definition afterIteration (ctl : LoopCtl) (run : AgentRun) : Prop :=
  match ctl with
  | Return => Finished run
  | Next | Break => Underway run
  end.

Definition afterLoop (returned : bool) (run : AgentRun) : Prop :=
  if returned then Finished run else Underway run.











End RunTerms.

(** ** agent-orchestrator.ts, reading the lines of the completion stream  *)

Module StreamLines.

Definition newline : Ascii.ascii := Ascii.ascii_of_nat 10.

(** [text.split("\n")] *)
Fixpoint splitNewline (text : string) : list string :=
  match text with
  | EmptyString => [EmptyString]
  | String c rest =>
      if Ascii.eqb c newline then EmptyString :: splitNewline rest
      else match splitNewline rest with
           | first :: more => String c first :: more
           | [] => [String c EmptyString]
           end
  end.

(** One pass of the read loop: [buffer += chunk], [lines =
    buffer.split("\n")], [buffer = lines.pop() || EmptyString]; the
    lines that are left are the ones the [for] loop goes through. *)
Definition readChunk (buffer chunk : string) : list string * string :=
  let lines := splitNewline (buffer +:+ chunk) in
  (removelast lines, default EmptyString (last lines)).

(** The read loop over the chunks of the stream, until [done]: the lines
    gone through, in order, and the buffer that is left. *)
Fixpoint readChunks (chunks : list string) (buffer : string)
  : list string * string :=
  match chunks with
  | [] => ([], buffer)
  | chunk :: rest =>
      let '(lines, buffer') := readChunk buffer chunk in
      let '(more, final) := readChunks rest buffer' in
      (lines ++ more, final)
  end.

(** What a line contributes: the text after [data: ], unless the line
    does not start with it or the text is [[DONE]]. *)
Definition payload (line : string) : option string :=
  if String.prefix "data: " line
  then let data := String.substring 6 (String.length line - 6) line in
       if bool_decide (data = "[DONE]") then None else Some data
  else None.

(** The payloads handed to [JSON.parse] in the course of a stream. *)
Definition payloads (chunks : list string) : list string :=
  omap payload (readChunks chunks EmptyString).1.

(** The whole text of the stream. *)
Definition streamText (chunks : list string) : string :=
  foldr String.append EmptyString chunks.

End StreamLines.

(** ** lmstudio-service.ts, the retry wrapper                             *)

Module Retry.

(** What the wrapper reads of an [Error]: its [name], its [message] and
    the [code] and [status] that [createLMStudioError] adds.  A [status]
    that is absent or [undefined] is [None]. *)
Record ErrorObject := {
  e_name : string;
  e_message : string;
  e_code : option string;
  e_status : option Z
}.

(** A thrown value: an [Error], [null] (the initial [lastError]) or
    anything else. *)
Inductive ThrownValue :=
| ErrorValue (e : ErrorObject)
| NullValue
| OtherThrown.

(** How one call of [operation()] settles. *)
Inductive Attempt (T : Type) :=
| Succeeds (value : T)
| Fails (error : ThrownValue).
Arguments Succeeds {T} _.
Arguments Fails {T} _.

Inductive Settlement (T : Type) :=
| Resolved (value : T)
| Thrown (error : ThrownValue)
| Unsettled.
Arguments Resolved {T} _.
Arguments Thrown {T} _.
Arguments Unsettled {T}.

(** The promise [withRetry] returns, with what it took: the number of
    calls of [operation] and the delays waited, in order. *)
Record RetryRun (T : Type) := {
  settlement : Settlement T;
  calls : nat;
  delays : list Z
}.
Arguments settlement {T} _.
Arguments calls {T} _.
Arguments delays {T} _.

Definition MAX_RETRIES : nat := 3.
Definition RETRY_BASE_DELAY_MS : Z := 1000.

Definition createLMStudioError (message code : string) (status : option Z)
  : ErrorObject :=
  {| e_name := "Error"; e_message := message; e_code := Some code;
     e_status := status |}.

(** [error instanceof Error && "status" in error] with a [status] that
    is truthy, at least 400 and below 500. *)
Definition isClientError (error : ThrownValue) : bool :=
  match error with
  | ErrorValue e =>
      match e_status e with
      | Some status =>
          negb (status =? 0)%Z && (400 <=? status)%Z && (status <? 500)%Z
      | None => false
      end
  | _ => false
  end.

(** [error instanceof Error && error.name === "AbortError"] *)
Definition isAbort (error : ThrownValue) : bool :=
  match error with
  | ErrorValue e => bool_decide (e_name e = "AbortError")
  | _ => false
  end.

Definition backoff (attempt : nat) : Z :=
  (RETRY_BASE_DELAY_MS * 2 ^ Z.of_nat attempt)%Z.

Section WithOperation.
Context {T : Type}.
(** [operation], by the number of the attempt that calls it. *)
Variable operation : nat -> Attempt T.
Variable maxRetries : nat.

(** The [for] loop from [attempt] on, one pass per unit of fuel, and the
    [throw lastError] that follows it. *)
Fixpoint retryLoop (fuel attempt : nat) (lastError : ThrownValue)
  : RetryRun T :=
  if (attempt <? maxRetries)%nat then
    match fuel with
    | 0 => {| settlement := Unsettled; calls := 0; delays := [] |}
    | S fuel' =>
        match operation attempt with
        | Succeeds value =>
            {| settlement := Resolved value; calls := 1; delays := [] |}
        | Fails error =>
            if isClientError error
            then {| settlement := Thrown error; calls := 1; delays := [] |}
            else if isAbort error
            then {| settlement :=
                      Thrown (ErrorValue
                                (createLMStudioError "Request timed out"
                                   "TIMEOUT" None));
                    calls := 1; delays := [] |}
            else
              let waited := if (attempt <? maxRetries - 1)%nat
                            then [backoff attempt] else [] in
              let later := retryLoop fuel' (S attempt) error in
              {| settlement := settlement later;
                 calls := S (calls later);
                 delays := waited ++ delays later |}
        end
    end
  else {| settlement := Thrown lastError; calls := 0; delays := [] |}.

End WithOperation.

(** [withRetry(operation, maxRetries = ServerConfig.MAX_RETRIES)] *)
Definition withRetry {T} (operation : nat -> Attempt T)
    (maxRetries : option nat) : RetryRun T :=
  let maxRetries := default MAX_RETRIES maxRetries in
  retryLoop operation maxRetries maxRetries 0 NullValue.

(** An attempt after which the loop goes on. *)
Definition retried {T} (a : Attempt T) : bool :=
  match a with
  | Succeeds _ => false
  | Fails error => negb (isClientError error) && negb (isAbort error)
  end.

(** How an attempt that is not retried settles the promise. *)
Definition settles {T} (a : Attempt T) : Settlement T :=
  match a with
  | Succeeds value => Resolved value
  | Fails error =>
      if isClientError error then Thrown error
      else Thrown (ErrorValue
                     (createLMStudioError "Request timed out" "TIMEOUT" None))
  end.

Definition thrownBy {T} (a : Attempt T) : ThrownValue :=
  match a with
  | Succeeds _ => NullValue
  | Fails error => error
  end.

Definition totalDelay (l : list Z) : Z := foldr Z.add 0%Z l.

(** A server that answers 503 twice and then with a value. *)
Definition unavailable : ThrownValue :=
  ErrorValue (createLMStudioError "Failed to fetch models: Service Unavailable"
                "SERVER_ERROR" (Some 503%Z)).

Definition recovering (attempt : nat) : Attempt string :=
  if (attempt <? 2)%nat then Fails unavailable else Succeeds "models".

End Retry.

(* ===================================================================== *)
(** * Properties                                                          *)
(* ===================================================================== *)

(** ** Tool results as messages                                           *)

Module SchemasFacts.
Import SchemasTerms.

(** C9, as stated, fails: a result whose error is present but empty is
    printed through its result, not as an error object. *)
Lemma createToolResultMessage_empty_error :
  error silentResult = Some EmptyString /\
  trm_content (createToolResultMessage silentResult) = Some "null" /\
  trm_content (createToolResultMessage silentResult)
    <> announcedContent silentResult.
Proof. repeat split; vm_compute; congruence. Qed.

(** C9, amended: the message has role [tool], the call id and the name of
    the result; its content is [JSON.stringify(result.result)] when the
    error is absent or the empty string, and [JSON.stringify] of the object
    holding the error when the error is a non-empty string. *)
Theorem createToolResultMessage_content (r : ToolResult) :
  trm_role (createToolResultMessage r) = tool /\
  trm_tool_call_id (createToolResultMessage r) = toolCallId r /\
  trm_name (createToolResultMessage r) = name r /\
  trm_content (createToolResultMessage r) =
    match error r with
    | None | Some EmptyString => JSON_stringify (result r)
    | Some e => JSON_stringify (JObj [("error", JStr e)])
    end.
Proof.
  unfold createToolResultMessage, formatToolResultContent; cbn [trm_role trm_tool_call_id trm_name trm_content].
  repeat split.
  destruct (error r) as [[|c e]|]; reflexivity.
Qed.

End SchemasFacts.

(** ** The registry never throws                                          *)

Module RegistryFacts.
Import RegistryTerms.

Lemma execute_identity (tools : Tools) (startTime : Z) (call : ParsedToolCall) :
  toolCallId (value (execute tools startTime call)) = pc_id call /\
  name (value (execute tools startTime call)) = pc_name call.
Proof.
  unfold execute. destruct (tools !! pc_name call) as [t|]; [|done].
  destruct (enabled t); [|done]. cbn. by destruct (outcome _).
Qed.

(** C8: [execute] is a total function into results.  Whatever the call,
    the result carries the id and name of the call and an execution time;
    an unregistered name gives the not-found error with a [null] result, a
    disabled tool the disabled error, a throwing handler its message (or
    the fallback text) as the error, and a handler that resolves gives its
    value with no error. *)
Theorem execute_returns_result (tools : Tools) (startTime : Z)
    (call : ParsedToolCall) :
  let r := value (execute tools startTime call) in
  toolCallId r = pc_id call /\
  name r = pc_name call /\
  is_Some (executionTimeMs r) /\
  match tools !! pc_name call with
  | None => error r = Some (notFoundText (pc_name call)) /\ result r = JNull
  | Some t =>
      if enabled t then
        match outcome (handler t (pc_arguments call)) with
        | Resolves v => error r = None /\ result r = v
        | Throws (ErrorInstance m) => error r = Some m /\ result r = JNull
        | Throws OtherValue => error r = Some "Unknown error" /\ result r = JNull
        end
      else error r = Some (disabledText (pc_name call)) /\ result r = JNull
  end.
Proof.
  unfold execute.
  destruct (tools !! pc_name call) as [t|]; cbn.
  - destruct (enabled t); cbn.
    + destruct (outcome (handler t (pc_arguments call))) as [v|[m|]]; cbn; eauto.
    + eauto 6.
  - eauto 6.
Qed.

(** Scenario 2 of the specification. *)
Example execute_nonexistent :
  let r := value (execute Examples.someTools 0
                    {| pc_id := "c2"; pc_name := "nonexistent";
                       pc_arguments := JObj [] |}) in
  error r = Some ("Tool " +:+ dquote +:+ "nonexistent" +:+ dquote +:+ " not found")
  /\ result r = JNull.
Proof. split; reflexivity. Qed.

End RegistryFacts.

(** ** Context windowing is monotone in the budget                        *)

Module ChatFacts.
Import ChatTerms.
Import ChatService.

Lemma keepNewest_extends reversed available floor result :
  result `suffix_of` keepNewest reversed available floor result.
Proof.
  revert available result.
  induction reversed as [|msg rest IH]; intros available result; cbn.
  - reflexivity.
  - destruct (_ || _); [|reflexivity].
    etransitivity; [|apply IH]. by apply suffix_cons_r.
Qed.

Lemma keepNewest_within reversed available floor result :
  keepNewest reversed available floor result `suffix_of` rev reversed ++ result.
Proof.
  revert available result.
  induction reversed as [|msg rest IH]; intros available result; cbn.
  - reflexivity.
  - destruct (_ || _).
    + rewrite <- app_assoc. apply IH.
    + by apply suffix_app_r.
Qed.

(** A larger remaining budget keeps at least the same messages. *)
Lemma keepNewest_monotone reversed a1 a2 floor result :
  (a1 <= a2)%Z ->
  keepNewest reversed a1 floor result
    `suffix_of` keepNewest reversed a2 floor result.
Proof.
  revert a1 a2 result.
  induction reversed as [|msg rest IH]; intros a1 a2 result Hle; cbn [keepNewest].
  - reflexivity.
  - set (t := (estimateTokenCount (content msg) + 4)%Z).
    destruct (Z.leb_spec 0 (a1 - t)) as [Hfit1|Hfit1]; cbn [orb].
    + destruct (Z.leb_spec 0 (a2 - t)) as [_|Hfit2]; [|lia].
      cbn [orb]. apply IH. lia.
    + destruct (length result <? floor)%nat eqn:Hfloor.
      * rewrite orb_true_r. apply IH. lia.
      * rewrite orb_false_r.
        destruct (0 <=? a2 - t)%Z; [|reflexivity].
        etransitivity; [|apply keepNewest_extends]. by apply suffix_cons_r.
Qed.

Lemma reserveSystem_monotone sys m1 m2 :
  (m1 <= m2)%Z -> (reserveSystem sys m1 <= reserveSystem sys m2)%Z.
Proof. destruct sys; cbn; lia. Qed.

Lemma setAside_unshift keep messages :
  unshiftSystem (setAside keep messages).1 (setAside keep messages).2 = messages.
Proof.
  destruct messages as [|first rest]; [done|]. cbn.
  by destruct (_ && _).
Qed.

Lemma setAside_system keep messages :
  nonSystem (unshiftSystem (setAside keep messages).1 []) = [].
Proof.
  destruct messages as [|first rest]; [done|]. unfold setAside.
  destruct (_ && _) eqn:Hsys; [|done]. cbn [fst unshiftSystem].
  apply andb_true_iff in Hsys as [_ Hrole].
  apply bool_decide_eq_true in Hrole.
  unfold nonSystem. rewrite filter_cons_False by (intros Hne; by apply Hne).
  apply filter_nil.
Qed.

(** The shape of a window: the messages come back untouched, or as the
    system message set aside followed by what [keepNewest] retains. *)
Lemma applyContextWindow_oldest_shape messages budget floor keep :
  applyContextWindow messages (oldestWindow budget floor keep) =
    if (calculateConversationTokens messages <=? budget)%Z then messages
    else unshiftSystem (setAside keep messages).1
           (keepNewest (rev (setAside keep messages).2)
              (reserveSystem (setAside keep messages).1 budget)
              (default DEFAULT_minMessages floor) []).
Proof.
  unfold applyContextWindow, oldestWindow; cbn.
  destruct (_ <=? _)%Z; [done|].
  destruct messages as [|first rest]; [done|]. cbn.
  by destruct (_ && _).
Qed.

(** C7: under [truncate-oldest] the retained messages grow with the
    budget.  For budgets [m1 <= m2] the two windows share the system
    message set aside (if any) and the window under [m1] is the tail end
    of the window under [m2]; so the retained messages that are not of
    role [system] under [m1] are a suffix, hence a subset, of those under
    [m2].  This holds for every floor and every pair of budgets. *)
Theorem truncate_oldest_monotone (messages : list Message)
    (floor : option nat) (keep : option bool) (m1 m2 : Z) :
  (m1 <= m2)%Z ->
  let window m := applyContextWindow messages (oldestWindow m floor keep) in
  (exists front dropped kept,
      window m2 = front ++ dropped ++ kept /\
      window m1 = front ++ kept /\
      nonSystem front = []) /\
  nonSystem (window m1) `suffix_of` nonSystem (window m2) /\
  nonSystem (window m1) ⊆ nonSystem (window m2).
Proof.
  intros Hle window.
  assert (exists front dropped kept,
      window m2 = front ++ dropped ++ kept /\
      window m1 = front ++ kept /\
      nonSystem front = []) as Hshape.
  { unfold window. rewrite !applyContextWindow_oldest_shape.
    pose proof (setAside_unshift keep messages) as Hmsgs.
    pose proof (setAside_system keep messages) as Hfront.
    destruct (setAside keep messages) as [sys working]; cbn in *.
    assert (forall l, unshiftSystem sys l = unshiftSystem sys [] ++ l) as Hun
      by (by destruct sys).
    set (floor' := default DEFAULT_minMessages floor).
    destruct (Z.leb_spec (calculateConversationTokens messages) m1) as [H1|H1].
    - destruct (Z.leb_spec (calculateConversationTokens messages) m2); [|lia].
      exists [], [], messages. by rewrite !app_nil_l.
    - exists (unshiftSystem sys []).
      destruct (Z.leb_spec (calculateConversationTokens messages) m2) as [H2|H2].
      + destruct (keepNewest_within (rev working) (reserveSystem sys m1)
                    floor' []) as [d Hd].
        rewrite app_nil_r, rev_involutive in Hd.
        exists d, (keepNewest (rev working) (reserveSystem sys m1) floor' []).
        split; [|split; [apply Hun|done]].
        rewrite <- Hmsgs at 1. rewrite Hun. f_equal. exact Hd.
      + destruct (keepNewest_monotone (rev working) (reserveSystem sys m1)
                    (reserveSystem sys m2) floor' [])
          as [d Hd]; [by apply reserveSystem_monotone|].
        exists d, (keepNewest (rev working) (reserveSystem sys m1) floor' []).
        split; [|split; [apply Hun|done]].
        rewrite Hun. f_equal. exact Hd. }
  split; [exact Hshape|].
  destruct Hshape as (front & dropped & kept & -> & -> & Hfront).
  unfold nonSystem in *. rewrite !filter_app, Hfront. cbn.
  split.
  - by apply suffix_app_r.
  - intros x Hx. apply elem_of_app. by right.
Qed.

(** The theorem at work: a budget of 20 tokens against one of 30. *)
Lemma truncate_oldest_monotone_witness :
  (20 <= 30)%Z /\
  nonSystem (applyContextWindow threeMessages (oldestWindow 20 (Some 1%nat) None))
    ⊆ nonSystem (applyContextWindow threeMessages (oldestWindow 30 (Some 1%nat) None)).
Proof.
  split; [lia|].
  apply (truncate_oldest_monotone threeMessages (Some 1%nat) None 20 30). lia.
Defined.

End ChatFacts.

(** ** Results of the executor keep the positions of the calls            *)

Module ExecutorFacts.
Import ExecutorTerms.

Lemma append_assoc (a b c : string) : (a +:+ b) +:+ c = a +:+ (b +:+ c).
Proof.
  induction a as [|x a IH]; [done|].
  change (String x ((a +:+ b) +:+ c) = String x (a +:+ (b +:+ c))).
  by rewrite IH.
Qed.

(** *** Array assignment *)

Lemma length_arraySet {A} i (r : A) l :
  length (arraySet i r l) = Nat.max (length l) (S i).
Proof.
  unfold arraySet. destruct (Nat.ltb_spec i (length l)).
  - rewrite length_insert. lia.
  - rewrite !length_app, length_replicate. cbn. lia.
Qed.

Lemma lookup_arraySet_eq {A} i (r : A) l :
  arraySet i r l !! i = Some (Some r).
Proof.
  unfold arraySet. destruct (Nat.ltb_spec i (length l)).
  - by apply list_lookup_insert_eq.
  - rewrite lookup_app_r by lia.
    rewrite lookup_app_r by (rewrite length_replicate; lia).
    rewrite length_replicate.
    by replace (i - length l - (i - length l)) with 0 by lia.
Qed.

Lemma lookup_arraySet_ne {A} i j (r x : A) l :
  i <> j -> arraySet i r l !! j = Some (Some x) -> l !! j = Some (Some x).
Proof.
  unfold arraySet. intros Hne. destruct (Nat.ltb_spec i (length l)).
  - by rewrite list_lookup_insert_ne.
  - intros Hj. apply lookup_app_Some in Hj as [Hj|[Hlen Hj]]; [done|].
    apply lookup_app_Some in Hj as [Hj|[Hlen' Hj]].
    + apply lookup_replicate in Hj as [? _]. done.
    + rewrite length_replicate in Hlen', Hj.
      destruct (j - length l - (i - length l)) as [|n] eqn:Hn; [lia|].
      done.
Qed.

Lemma lookup_arraySet_keep {A} i j (r x : A) l :
  i <> j -> l !! j = Some (Some x) -> arraySet i r l !! j = Some (Some x).
Proof.
  unfold arraySet. intros Hne Hj. destruct (Nat.ltb_spec i (length l)).
  - by rewrite list_lookup_insert_ne.
  - by apply lookup_app_l_Some.
Qed.

(** *** Sequences of assignments *)

Lemma writeAll_app ws1 ws2 results :
  writeAll (ws1 ++ ws2) results = writeAll ws2 (writeAll ws1 results).
Proof. apply fold_left_app. Qed.

Lemma writeAll_length_le ws results n :
  length results <= n ->
  (forall i r, (i, r) ∈ ws -> i < n) ->
  length (writeAll ws results) <= n.
Proof.
  revert results. induction ws as [|[i r] ws IH]; intros results Hlen Hin; cbn.
  - done.
  - apply IH.
    + rewrite length_arraySet. cbn.
      assert (i < n) by (apply (Hin i r); left). lia.
    + intros j x Hj. apply (Hin j x). by right.
Qed.

Lemma writeAll_length_ge ws results :
  length results <= length (writeAll ws results).
Proof.
  revert results. induction ws as [|[i r] ws IH]; intros results; cbn.
  - done.
  - etransitivity; [|apply IH]. rewrite length_arraySet. cbn. lia.
Qed.

(** A defined position of the outcome was assigned by one of the writes
    or was defined before. *)
Lemma writeAll_lookup_inv ws results j x :
  writeAll ws results !! j = Some (Some x) ->
  (j, x) ∈ ws \/ results !! j = Some (Some x).
Proof.
  revert results. induction ws as [|[i r] ws IH]; intros results Hj; cbn in *.
  - by right.
  - apply IH in Hj as [Hj|Hj].
    + left. by right.
    + destruct (decide (i = j)) as [->|Hne].
      * rewrite lookup_arraySet_eq in Hj. injection Hj as ->. left. left.
      * right. by eapply lookup_arraySet_ne.
Qed.

(** When all writes to a position agree on the value, a position written
    to holds that value, and other defined positions stay as they are. *)
Lemma writeAll_lookup ws results (f : nat -> ToolResult) j :
  (forall i r, (i, r) ∈ ws -> r = f i) ->
  (exists r, (j, r) ∈ ws) \/ results !! j = Some (Some (f j)) ->
  writeAll ws results !! j = Some (Some (f j)).
Proof.
  revert results. induction ws as [|[i r] ws IH]; intros results Hf Hj; cbn.
  - destruct Hj as [[r Hr]|Hj]; [|done]. by apply elem_of_nil in Hr.
  - apply IH; [intros i' r' Hin; apply Hf; by right|].
    destruct (decide (i = j)) as [->|Hne].
    + right. rewrite lookup_arraySet_eq. do 2 f_equal. apply Hf. left.
    + destruct Hj as [[x Hx]|Hj].
      * left. exists x. apply elem_of_cons in Hx as [[= ? ?]|Hx]; [done|exact Hx].
      * right. by apply lookup_arraySet_keep.
Qed.

(** *** The clock does not show in the results *)

Lemma execute_now tools t pc : execute tools t pc = execute tools 0 pc.
Proof.
  unfold execute. cbv zeta.
  destruct (tools !! pc_name pc) as [tl|];
    [destruct (enabled tl); cbv [negb]; [destruct (outcome _)|]|];
    rewrite ?Z.sub_diag, ?Z.add_simpl_l; reflexivity.
Qed.

Lemma executeWithTimeout_now tools t first pc ms :
  executeWithTimeout tools t first pc ms
  = executeWithTimeout tools 0 first pc ms.
Proof. unfold executeWithTimeout. by rewrite execute_now. Qed.

Lemma placeResults_writeAll tools now ms timerFirst batch results :
  placeResults batch
    (map value
       (map (fun ic => executeWithTimeout tools now (timerFirst ic.1) ic.2 ms)
          batch))
    results
  = writeAll (map (timedWrite tools ms timerFirst) batch) results.
Proof.
  revert results. induction batch as [|[i pc] batch IH]; intros results; cbn.
  - done.
  - rewrite IH. by rewrite executeWithTimeout_now.
Qed.

(** *** The batch loop *)

Lemma runBatches_writes tools opts timerFirst vs :
  0 < r_maxConcurrent opts ->
  forall fuel i now results,
    length vs - i < fuel ->
    exists k,
      runBatches fuel tools opts timerFirst vs i now results
        = Returned (writeAll (map (timedWrite tools (r_timeout opts) timerFirst)
                                (take k (drop i vs))) results) /\
      (r_continueOnError opts = true -> length vs - i <= k).
Proof.
  intros Hpos. induction fuel as [|fuel IH]; intros i now results Hfuel; [lia|].
  cbn [runBatches]. destruct (Nat.ltb_spec i (length vs)) as [Hi|Hi].
  - rewrite placeResults_writeAll.
    destruct (negb (r_continueOnError opts) && _) eqn:Hstop.
    + exists (r_maxConcurrent opts). split; [done|].
      intros Hc. rewrite Hc in Hstop. done.
    + match goal with
      | |- context [runBatches fuel tools opts timerFirst vs ?i' ?now' ?results'] =>
          destruct (IH i' now' results') as (k & -> & Hk); [lia|]
      end.
      exists (r_maxConcurrent opts + k). split.
      * rewrite <- writeAll_app, <- map_app.
        rewrite <- (drop_drop vs (r_maxConcurrent opts) i).
        by rewrite take_take_drop.
      * intros Hc. specialize (Hk Hc). lia.
  - exists 0. split; [by rewrite take_0|]. lia.
Qed.

Section WithRuntime.
Context `{Runtime}.

(** *** Sorting the calls that parsed from those that did not *)

Lemma filterParsed_wellformed (all : list ToolCall) :
  forall rest index validCalls results,
    drop index all = rest ->
    filterParsed (map WithFunction all)
      (map parseToolCallArguments (map WithFunction rest))
      index validCalls results
    = Returned (validCalls ++ validOf index rest,
                writeAll (failureWrites index rest) results).
Proof.
  induction rest as [|c rest IH]; intros index validCalls results Hdrop; cbn.
  - by rewrite app_nil_r.
  - assert (all !! index = Some c) as Hc.
    { rewrite <- (Nat.add_0_r index), <- lookup_drop, Hdrop. done. }
    assert (drop (S index) all = rest) as Hrest.
    { erewrite drop_S in Hdrop by exact Hc. by injection Hdrop. }
    change (match JSON_parse (fn_arguments (tc_function c)) with
            | Some args => Some {| pc_id := tc_id c;
                                   pc_name := fn_name (tc_function c);
                                   pc_arguments := args |}
            | None => None
            end) with (parseToolCallArguments (WithFunction c)).
    destruct (parseToolCallArguments (WithFunction c)) as [pc|].
    + rewrite IH by done. by rewrite <- app_assoc.
    + rewrite list_lookup_fmap, Hc. cbn. by rewrite IH.
Qed.

Lemma validOf_elem index calls i pc :
  (i, pc) ∈ validOf index calls <->
  exists j c, i = index + j /\ calls !! j = Some c /\
              parseToolCallArguments (WithFunction c) = Some pc.
Proof.
  revert index. induction calls as [|c rest IH]; intros index; cbn [validOf].
  - split; [intros Hin; by apply elem_of_nil in Hin|].
    intros (j & c & _ & Hj & _). done.
  - split.
    + intros Hin.
      destruct (parseToolCallArguments (WithFunction c)) as [pc'|] eqn:Hp.
      * apply elem_of_cons in Hin as [[= -> ->]|Hin].
        { exists 0, c. split; [lia|]. done. }
        apply IH in Hin as (j & c' & -> & Hj & Hp').
        exists (S j), c'. split; [lia|]. done.
      * apply IH in Hin as (j & c' & -> & Hj & Hp').
        exists (S j), c'. split; [lia|]. done.
    + intros (j & c' & -> & Hj & Hp). destruct j as [|j]; cbn in Hj.
      * injection Hj as ->. rewrite Hp. rewrite Nat.add_0_r. left.
      * assert ((index + S j, pc) ∈ validOf (S index) rest) as Hin.
        { apply IH. exists j, c'. split; [lia|]. done. }
        destruct (parseToolCallArguments (WithFunction c)); [by right|done].
Qed.

Lemma failureWrites_elem index calls i r :
  (i, r) ∈ failureWrites index calls <->
  exists j c, i = index + j /\ calls !! j = Some c /\
              parseToolCallArguments (WithFunction c) = None /\
              r = parseFailure c.
Proof.
  revert index. induction calls as [|c rest IH]; intros index; cbn [failureWrites].
  - split; [intros Hin; by apply elem_of_nil in Hin|].
    intros (j & c & _ & Hj & _). done.
  - split.
    + intros Hin.
      destruct (parseToolCallArguments (WithFunction c)) as [pc'|] eqn:Hp.
      * apply IH in Hin as (j & c' & -> & Hj & Hp' & ->).
        exists (S j), c'. split; [lia|]. done.
      * apply elem_of_cons in Hin as [[= -> ->]|Hin].
        { exists 0, c. split; [lia|]. done. }
        apply IH in Hin as (j & c' & -> & Hj & Hp' & ->).
        exists (S j), c'. split; [lia|]. done.
    + intros (j & c' & -> & Hj & Hp & ->). destruct j as [|j]; cbn in Hj.
      * injection Hj as ->. rewrite Hp. rewrite Nat.add_0_r. left.
      * assert ((index + S j, parseFailure c') ∈ failureWrites (S index) rest)
          as Hin.
        { apply IH. exists j, c'. split; [lia|]. done. }
        destruct (parseToolCallArguments (WithFunction c)); [done|by right].
Qed.

Lemma validOf_length index calls : length (validOf index calls) <= length calls.
Proof.
  revert index.
  induction calls as [|c rest IH]; intros index; cbn [validOf length]; [done|].
  destruct (parseToolCallArguments (WithFunction c)); cbn [length];
    specialize (IH (S index)); lia.
Qed.

(** *** The outcome as a sequence of assignments *)

Lemma executeToolCalls_writes tools now timerFirst calls options :
  0 < r_maxConcurrent (mergeOptions options) ->
  exists k,
    executeToolCalls tools now timerFirst (map WithFunction calls) options
      = Returned (writeAll (allWrites tools (r_timeout (mergeOptions options))
                              timerFirst k calls) []) /\
    (r_continueOnError (mergeOptions options) = true ->
     length (validOf 0 calls) <= k).
Proof.
  intros Hpos. unfold executeToolCalls, executeToolCallsFuel.
  rewrite filterParsed_wellformed by done. cbn [app].
  destruct (runBatches_writes tools (mergeOptions options) timerFirst
              (validOf 0 calls) Hpos
              (S (length (map WithFunction calls))) 0 now
              (writeAll (failureWrites 0 calls) []))
    as (k & -> & Hk).
  { rewrite length_map. pose proof (validOf_length 0 calls). lia. }
  exists k. split; [|intros Hc; specialize (Hk Hc); lia].
  unfold allWrites. by rewrite writeAll_app, drop_0.
Qed.

Lemma allWrites_sound tools ms timerFirst k calls i r :
  (i, r) ∈ allWrites tools ms timerFirst k calls ->
  exists c, calls !! i = Some c /\ r = outcomeOf tools ms (timerFirst i) c.
Proof.
  unfold allWrites, outcomeOf. intros Hin.
  apply elem_of_app in Hin as [Hin|Hin].
  - apply failureWrites_elem in Hin as (j & c & -> & Hj & Hp & ->).
    exists c. by rewrite Hp.
  - apply list_elem_of_fmap in Hin as ([i' pc] & [= -> ->] & Hin).
    apply elem_of_take in Hin as (n & Hn & _).
    apply list_elem_of_lookup_2, validOf_elem in Hn as (j & c & -> & Hj & Hp).
    exists c. by rewrite Hp.
Qed.

Lemma allWrites_complete tools ms timerFirst k calls i c :
  length (validOf 0 calls) <= k ->
  calls !! i = Some c ->
  exists r, (i, r) ∈ allWrites tools ms timerFirst k calls.
Proof.
  intros Hk Hi. unfold allWrites. rewrite take_ge by done.
  destruct (parseToolCallArguments (WithFunction c)) as [pc|] eqn:Hp.
  - exists (timedWrite tools ms timerFirst (i, pc)).2. apply elem_of_app. right.
    apply list_elem_of_fmap. exists (i, pc). split; [done|].
    apply validOf_elem. by exists i, c.
  - exists (parseFailure c). apply elem_of_app. left.
    apply failureWrites_elem. by exists i, c.
Qed.

Lemma outcomeOf_identity tools ms first c :
  toolCallId (outcomeOf tools ms first c) = tc_id c /\
  name (outcomeOf tools ms first c) = fn_name (tc_function c).
Proof.
  unfold outcomeOf, parseToolCallArguments.
  destruct (JSON_parse _) as [args|]; [|done].
  unfold executeWithTimeout.
  destruct (task _); [|destruct first; [done|]];
    apply RegistryFacts.execute_identity.
Qed.

Lemma timeoutMessage_timed_out pc ms : occursIn "timed out" (timeoutMessage pc ms).
Proof.
  exists ("Tool " +:+ dquote +:+ pc_name pc +:+ dquote +:+ " execution "),
         (" after " +:+ pretty ms +:+ "ms").
  unfold timeoutMessage. by rewrite !append_assoc.
Qed.

(** The two ways the race of a call that parsed ends. *)
Lemma outcomeOf_race tools ms first c pc :
  parseToolCallArguments (WithFunction c) = Some pc ->
  if timerWins tools first pc
  then result (outcomeOf tools ms first c) = JNull /\
       error (outcomeOf tools ms first c) = Some (timeoutMessage pc ms)
  else outcomeOf tools ms first c = value (execute tools 0 pc).
Proof.
  intros Hp. unfold outcomeOf, timerWins, executeWithTimeout. rewrite Hp.
  destruct (task (execute tools 0 pc)); [done|]. by destruct first.
Qed.

(** What [executeToolCalls] returns on well-formed calls, for batches of
    at least one call: every defined position holds the outcome of the
    call at that position, and with [continueOnError] on every position
    is defined. *)
Lemma executeToolCalls_outcomes tools now timerFirst calls options :
  0 < r_maxConcurrent (mergeOptions options) ->
  exists results,
    executeToolCalls tools now timerFirst (map WithFunction calls) options
      = Returned results /\
    length results <= length calls /\
    (forall i r, results !! i = Some (Some r) ->
       exists c, calls !! i = Some c /\
                 r = outcomeOf tools (r_timeout (mergeOptions options))
                       (timerFirst i) c) /\
    (r_continueOnError (mergeOptions options) = true ->
       length results = length calls /\
       forall i c, calls !! i = Some c ->
         results !! i
           = Some (Some (outcomeOf tools (r_timeout (mergeOptions options))
                           (timerFirst i) c))).
Proof.
  intros Hpos.
  destruct (executeToolCalls_writes tools now timerFirst calls options Hpos)
    as (k & Hrun & Hk).
  set (ms := r_timeout (mergeOptions options)) in *.
  eexists. split; [exact Hrun|].
  assert (length (writeAll (allWrites tools ms timerFirst k calls) [])
          <= length calls) as Hlen.
  { apply writeAll_length_le; [cbn; lia|].
    intros i r Hin. apply allWrites_sound in Hin as (c & Hc & _).
    by eapply lookup_lt_Some. }
  split; [exact Hlen|]. split.
  - intros i r Hi. apply writeAll_lookup_inv in Hi as [Hin|Hnil]; [|done].
    by eapply allWrites_sound.
  - intros Hcontinue. specialize (Hk Hcontinue).
    assert (forall i c, calls !! i = Some c ->
              writeAll (allWrites tools ms timerFirst k calls) [] !! i
                = Some (Some (outcomeOf tools ms (timerFirst i) c)))
      as Hdefined.
    { intros i c Hi.
      replace (outcomeOf tools ms (timerFirst i) c)
        with (outcomeAt tools ms timerFirst calls i)
        by (unfold outcomeAt; by rewrite Hi).
      apply writeAll_lookup.
      - intros i' r' Hin. apply allWrites_sound in Hin as (c' & Hc' & ->).
        unfold outcomeAt. by rewrite Hc'.
      - left. by eapply allWrites_complete. }
    split; [|exact Hdefined].
    apply Nat.le_antisymm; [exact Hlen|].
    destruct (decide (length calls = 0)) as [->|Hne]; [lia|].
    destruct (lookup_lt_is_Some_2 calls (length calls - 1)) as [c Hc]; [lia|].
    apply Hdefined, lookup_lt_Some in Hc. lia.
Qed.

(** C6: for batches of at least one call the executor returns an array
    in which every result sits at the position of its call, whatever the
    batch size and the order in which the calls settle: a defined
    position [i] holds a result with the id and the name of the [i]-th
    call.  It is the parse failure if the arguments of the call do not
    parse; the timeout error, whose text contains the words timed out,
    if the timer of the call fires before its execution has settled; and
    what the registry answers otherwise.  An execution that settles in
    the task that started it is never timed out, whatever the timeout and
    the time it took.  With [continueOnError] on the array is as long as
    the input and has no hole. *)
Theorem executeToolCalls_positions (tools : Tools) (now : Z)
    (timerFirst : nat -> bool) (calls : list ToolCall)
    (options : ExecutionOptions) :
  0 < r_maxConcurrent (mergeOptions options) ->
  exists results,
    executeToolCalls tools now timerFirst (map WithFunction calls) options
      = Returned results /\
    length results <= length calls /\
    (forall i r, results !! i = Some (Some r) ->
       exists c, calls !! i = Some c /\
                 toolCallId r = tc_id c /\
                 name r = fn_name (tc_function c) /\
                 match parseToolCallArguments (WithFunction c) with
                 | None => r = parseFailure c
                 | Some pc =>
                     if timerWins tools (timerFirst i) pc
                     then result r = JNull /\
                          exists e, error r = Some e /\
                                    e = timeoutMessage pc
                                          (r_timeout (mergeOptions options)) /\
                                    occursIn "timed out" e
                     else verdict r = verdict (value (execute tools 0 pc))
                 end) /\
    (forall i r c pc,
       results !! i = Some (Some r) ->
       calls !! i = Some c ->
       parseToolCallArguments (WithFunction c) = Some pc ->
       settlesAtOnce tools pc ->
       verdict r = verdict (value (execute tools 0 pc))) /\
    (r_continueOnError (mergeOptions options) = true ->
       length results = length calls /\
       forall i c, calls !! i = Some c -> exists r, results !! i = Some (Some r)).
Proof.
  intros Hpos.
  destruct (executeToolCalls_outcomes tools now timerFirst calls options Hpos)
    as (results & Hrun & Hlen & Hsound & Hall).
  exists results. split; [exact Hrun|]. split; [exact Hlen|].
  split; [|split].
  - intros i r Hi. destruct (Hsound i r Hi) as (c & Hc & ->).
    exists c. split; [done|].
    destruct (outcomeOf_identity tools (r_timeout (mergeOptions options))
                (timerFirst i) c) as [Hid Hname].
    split; [done|]. split; [done|].
    destruct (parseToolCallArguments (WithFunction c)) as [pc|] eqn:Hp.
    + pose proof (outcomeOf_race tools (r_timeout (mergeOptions options))
                    (timerFirst i) c pc Hp) as Hrace.
      destruct (timerWins tools (timerFirst i) pc).
      * destruct Hrace as [Hresult Herror]. split; [done|].
        eexists. split; [exact Herror|]. split; [done|].
        apply timeoutMessage_timed_out.
      * by rewrite Hrace.
    + unfold outcomeOf. by rewrite Hp.
  - intros i r c pc Hi Hc Hp Honce.
    destruct (Hsound i r Hi) as (c' & Hc' & ->).
    assert (c' = c) as -> by congruence.
    pose proof (outcomeOf_race tools (r_timeout (mergeOptions options))
                  (timerFirst i) c pc Hp) as Hrace.
    unfold timerWins in Hrace. unfold settlesAtOnce in Honce.
    rewrite Honce in Hrace. by rewrite Hrace.
  - intros Hcontinue. destruct (Hall Hcontinue) as [Hfull Hdefined].
    split; [exact Hfull|]. intros i c Hc. eexists. by apply Hdefined.
Qed.


End WithRuntime.

(** C6, as the specification has it, fails on the code: three calls in
    batches of two under a timeout of thirty seconds, the second to a
    tool that computes for a minute without giving the event loop a turn.
    Its execution exceeds the timeout, yet it settles before the timer
    can fire: the result at its position is the value, with no error,
    even with timers that fire first whenever they can. *)
Theorem long_synchronous_call_not_timed_out :
  exists results r,
    @executeToolCalls Examples.bracesRuntime busyTools 0 eagerTimers
      (map WithFunction threeCalls) twoAtATime = Returned results /\
    results !! 1 = Some (Some r) /\
    (default 0%N (timeout twoAtATime)
     < executionTime busyTools
         {| pc_id := "c2"; pc_name := "web_search";
            pc_arguments := JObj [] |})%N /\
    toolCallId r = "c2" /\
    error r = None /\
    result r = JNum 4.
Proof.
  do 2 eexists. split; [vm_compute; reflexivity|].
  split; [reflexivity|]. split; [vm_compute; reflexivity|]. by repeat split.
Qed.

(** Scenario 5 through the theorem: three calls in batches of two, the
    second waiting for its answer until after its timer has fired. *)
Lemma executeToolCalls_positions_witness :
  exists results,
    @executeToolCalls Examples.bracesRuntime Examples.someTools 0 eagerTimers
      (map WithFunction threeCalls) twoAtATime = Returned results /\
    length results = 3 /\
    exists r e, results !! 1 = Some (Some r) /\ toolCallId r = "c2" /\
                error r = Some e /\ occursIn "timed out" e.
Proof.
  destruct (@executeToolCalls_positions Examples.bracesRuntime
              Examples.someTools 0 eagerTimers threeCalls twoAtATime)
    as (results & Hrun & _ & Hsound & _ & Hall).
  { cbn. lia. }
  destruct Hall as [Hfull Hdefined]; [reflexivity|].
  destruct (Hdefined 1 (Examples.call "c2" "web_search")) as [r Hr];
    [reflexivity|].
  destruct (Hsound 1 r Hr) as (c & Hc & Hid & _ & Hrace).
  injection Hc as <-.
  change (parseToolCallArguments (WithFunction (Examples.call "c2" "web_search")))
    with (Some {| pc_id := "c2"; pc_name := "web_search";
                  pc_arguments := JObj [] |}) in Hrace.
  change (timerWins Examples.someTools (eagerTimers 1)
            {| pc_id := "c2"; pc_name := "web_search";
               pc_arguments := JObj [] |}) with true in Hrace.
  destruct Hrace as (_ & e & He & _ & Hocc).
  exists results. split; [exact Hrun|]. split; [exact Hfull|].
  exists r, e. split; [exact Hr|]. split; [exact Hid|]. split; [exact He|exact Hocc].
Defined.


End ExecutorFacts.

(** ** The orchestrator                                                   *)

Module OrchestratorFacts.
Import OrchestratorTerms.
Import Orchestrator.

(** *** Evaluations *)

(** C1 fails on the code.  An agent limited to one tool call per turn
    gets two calls from the model: the history's assistant message is cut
    to the first call, but [executeTools] is handed the uncut list, so a
    [tool_call] step and event and a tool message are produced for the
    second call as well. *)
Theorem calls_beyond_limit_are_executed :
  let agent := agentWith 1 1 true false in
  let events := sampleRun agent (callsThenText twoCalls "Four.") in
  maxToolCallsPerTurn (behavior agent) = 1 /\
  calledTools events = ["calculator"; "web_search"] /\
  exists run,
    finalRun events = Some run /\
    map m_tool_calls (filter (fun m => m_role m = assistant) (messages run))
      = [Some [Examples.call "c1" "calculator"]] /\
    map m_tool_call_id (filter (fun m => m_role m = tool) (messages run))
      = [Some "c1"; Some "c2"] /\
    map toolName (filter (fun s => step_type s = tool_call) (steps run))
      = [Some "calculator"; Some "web_search"].
Proof.
  cbv zeta. split; [reflexivity|]. split; [vm_compute; reflexivity|].
  eexists. split; [vm_compute; reflexivity|].
  repeat split; vm_compute; reflexivity.
Qed.

(** C2 fails on the code.  With [stopOnError] and [autoContinue] both on,
    a failing tool call on turn 1 marks the run as failed and ends
    [executeTools], but the loop goes on: turn 2 is executed and, the
    model answering in plain text, the run ends as completed. *)
Theorem tool_error_does_not_end_run :
  let agent := agentWith 5 2 true true in
  let answer := callsThenText [Examples.call "c1" "calculator"] "Four." in
  let events := sampleRun agent answer in
  stopOnError (behavior agent) = true /\
  (exists run,
     sampleStateAfter 1 agent answer = (Stuck, run) /\
     status run = failed /\ currentTurn run = 1 /\
     run_error run
       = Some "Cannot read properties of undefined (reading 'name')") /\
  exists run,
    finalRun events = Some run /\
    status run = completed /\
    currentTurn run = 2 /\
    output run = Some "Four." /\
    run_error run
      = Some "Cannot read properties of undefined (reading 'name')".
Proof.
  cbv zeta. split; [reflexivity|]. split.
  - eexists. split; [vm_compute; reflexivity|]. repeat split.
  - eexists. split; [vm_compute; reflexivity|]. repeat split.
Qed.

(** *** Generator code that leaves the counters alone *)

Create HintDb quiet.

Lemma sameCounters_refl run : sameCounters run run.
Proof. by split. Qed.

Lemma sameCounters_trans a b c :
  sameCounters a b -> sameCounters b c -> sameCounters a c.
Proof. intros [? ?] [? ?]. split; congruence. Qed.

Lemma allowed_weaken {A} l (r : Result A) : allowed MustReturn r -> allowed l r.
Proof. by destruct r, l. Qed.

Lemma quiet_weaken {A} l (m : Gen A) : quiet MustReturn m -> quiet l m.
Proof.
  intros Hm run. destruct (Hm run) as (? & ? & ?).
  split; [by apply allowed_weaken|done].
Qed.

Lemma quiet_ret {A} l (a : A) : quiet l (ret a).
Proof. intros run. cbn. split; [by destruct l|]. split; [apply sameCounters_refl|done]. Qed.

Lemma quiet_getRun l : quiet l getRun.
Proof. intros run. cbn. split; [by destruct l|]. split; [apply sameCounters_refl|done]. Qed.

Lemma quiet_raise {A} e : quiet MayRaise (@raise A e).
Proof. intros run. cbn. split; [done|]. split; [apply sameCounters_refl|done]. Qed.

Lemma quiet_yield l e : isProgress e -> quiet l (yield e).
Proof.
  intros He run. cbn. split; [by destruct l|].
  split; [apply sameCounters_refl|]. by apply Forall_singleton.
Qed.

Lemma quiet_modify l f :
  (forall run, sameCounters run (f run)) -> quiet l (modify f).
Proof. intros Hf run. cbn. split; [by destruct l|]. split; [apply Hf|done]. Qed.

Lemma quiet_bind {A B} l (m : Gen A) (f : A -> Gen B) :
  quiet l m -> (forall a, quiet l (f a)) -> quiet l (bind m f).
Proof.
  intros Hm Hf run. unfold bind.
  destruct (Hm run) as (Hr & Hc & He).
  destruct (m run) as [[r run1] ev1]. cbn in Hr, Hc, He.
  destruct r as [a|e|]; [|by destruct l|done].
  destruct (Hf a run1) as (Hr2 & Hc2 & He2).
  destruct (f a run1) as [[r2 run2] ev2]. cbn in *.
  split; [done|]. split; [by eapply sameCounters_trans|].
  by apply Forall_app.
Qed.

Lemma quiet_tryCatch {A} l (body : Gen A) (handler : Thrown -> Gen A) :
  quiet MayRaise body -> (forall e, quiet l (handler e)) ->
  quiet l (tryCatch body handler).
Proof.
  intros Hm Hf run. unfold tryCatch.
  destruct (Hm run) as (Hr & Hc & He).
  destruct (body run) as [[r run1] ev1]. cbn in Hr, Hc, He.
  destruct r as [a|e|]; [by destruct l| |done].
  destruct (Hf e run1) as (Hr2 & Hc2 & He2).
  destruct (handler e run1) as [[r2 run2] ev2]. cbn in *.
  split; [done|]. split; [by eapply sameCounters_trans|].
  by apply Forall_app.
Qed.

Lemma quiet_if {A} l (b : bool) (m1 m2 : Gen A) :
  quiet l m1 -> quiet l m2 -> quiet l (if b then m1 else m2).
Proof. by destruct b. Qed.

Lemma quiet_createStepEvent l type text tname targs tresult err :
  quiet l (createStepEvent type text tname targs tresult err).
Proof.
  unfold createStepEvent.
  apply quiet_bind; [apply quiet_getRun|]. intros run.
  apply quiet_bind; [by apply quiet_modify|]. intros _.
  by apply quiet_yield.
Qed.

Lemma quiet_createStatusEvent l s : quiet l (createStatusEvent s).
Proof.
  unfold createStatusEvent.
  apply quiet_bind; [by apply quiet_modify|]. intros _. by apply quiet_yield.
Qed.

Lemma quiet_pushMessage l m : quiet l (pushMessage m).
Proof. by apply quiet_modify. Qed.

#[local] Hint Resolve quiet_ret quiet_getRun quiet_raise quiet_createStepEvent
  quiet_createStatusEvent quiet_pushMessage : quiet.

(** Solves [quiet] goals by following the structure of the code. *)
Ltac quiet_steps :=
  repeat first
    [ apply quiet_bind; [|intros ?]
    | apply quiet_if
    | apply quiet_tryCatch; [|intros ?]
    | apply quiet_modify; intros ?; by split
    | apply quiet_yield; exact I
    | solve [auto with quiet] ].

Section WithRuntime.
Context `{Runtime}.

(** Handing a [ParsedToolCall] to the executor rejects: the object has no
    [function] to read the name from. *)
Lemma executeToolCalls_without_function tools now timerFirst pc options :
  executeToolCalls tools now timerFirst [WithoutFunction pc] options
  = Rejected (undefinedRead "name").
Proof. reflexivity. Qed.

Lemma quiet_parseOrThrow text : quiet MayRaise (parseOrThrow text).
Proof. unfold parseOrThrow. destruct (JSON_parse text); quiet_steps. Qed.

Lemma quiet_executeOneTool w agent toolCall :
  quiet MayRaise (executeOneTool w agent toolCall).
Proof.
  unfold executeOneTool.
  apply quiet_bind; [apply quiet_parseOrThrow|]. intros args.
  apply quiet_bind; [auto with quiet|]. intros _.
  apply quiet_bind; [by apply quiet_yield|]. intros _.
  apply quiet_tryCatch.
  - apply quiet_bind; [apply quiet_parseOrThrow|]. intros args'.
    rewrite executeToolCalls_without_function. cbn [awaitCompletion].
    apply quiet_bind; [apply quiet_raise|]. intros results.
    destruct (results !! 0) as [[r|]|]; quiet_steps.
  - intros e. quiet_steps.
Qed.

Lemma quiet_executeTools w agent toolCalls :
  quiet MayRaise (executeTools w agent toolCalls).
Proof.
  induction toolCalls as [|toolCall rest IH]; cbn [executeTools].
  - auto with quiet.
  - apply quiet_bind; [apply quiet_executeOneTool|]. intros returned.
    destruct returned; [auto with quiet|exact IH].
Qed.

(** *** One turn *)

Lemma readStream_spec ds acc msg run :
  readStream ds acc msg run
  = (Ok (streamResult ds acc msg), run, contentEvents ds).
Proof.
  revert acc msg. induction ds as [|d rest IH]; intros acc msg; [done|].
  cbn [readStream streamResult contentEvents]. unfold bind at 1.
  destruct (delta_content d) as [[|c text]|]; cbn; by rewrite IH.
Qed.

Lemma contentEvents_progress ds : Forall isProgress (contentEvents ds).
Proof.
  induction ds as [|d rest IH]; cbn; [done|].
  destruct (delta_content d) as [[|c text]|]; [done| |done].
  by apply Forall_cons.
Qed.

(** The part of [modelTurn] that follows the counting of the calls. *)
Lemma quiet_afterCounting w agent toolCalls :
  quiet MayRaise
    ((if (maxToolCallsPerTurn (behavior agent) <? length toolCalls)%nat
      then
        createStepEvent thinking
          (Some ("Limiting tool calls from " +:+ pretty (length toolCalls)
                   +:+ " to "
                   +:+ pretty (maxToolCallsPerTurn (behavior agent))))
          None None None None;;
        modify (fun r =>
                  setMessages
                    (limitLastToolCalls
                       (take (maxToolCallsPerTurn (behavior agent)) toolCalls)
                       (messages r)) r)
      else ret tt);;
     (if requireConfirmation (behavior agent)
      then modify (setStatus waiting_confirmation);;
           createStatusEvent waiting_confirmation
      else ret tt);;
     executeTools w agent toolCalls;;
     if negb (autoContinue (behavior agent)) then ret Break else ret Next).
Proof.
  apply quiet_bind; [quiet_steps|]. intros _.
  apply quiet_bind; [quiet_steps|]. intros _.
  apply quiet_bind; [apply quiet_executeTools|]. intros _.
  quiet_steps.
Qed.

Lemma modelTurn_spec w agent run :
  let out := modelTurn w agent run in
  allowed MayRaise out.1.1 /\
  Forall isProgress out.2 /\
  currentTurn out.1.2 = currentTurn run /\
  totalToolCalls out.1.2
    = totalToolCalls run
      + length (announcedCalls (modelResponse w (currentTurn run))).
Proof.
  intros out. assert (out = modelTurn w agent run) as Hout by done.
  clearbody out. unfold modelTurn, announcedCalls in *. cbv zeta in Hout.
  unfold bind at 1 in Hout. cbn [getRun] in Hout.
  unfold bind at 1 in Hout. rewrite readStream_spec in Hout.
  set (answer := modelResponse w (currentTurn run)) in *.
  set (read := streamResult (deltas answer) EmptyString None) in *.
  pose proof (contentEvents_progress (deltas answer)) as Hcontent.
  destruct (failure answer) as [e|].
  { subst out. cbn. rewrite app_nil_r. repeat split; [done|lia]. }
  set (assistantMessage :=
         default {| m_role := assistant; m_content := Some read.1;
                    m_name := None; m_tool_call_id := None;
                    m_tool_calls := None |} read.2) in *.
  assert (m_tool_calls assistantMessage = read.2 ≫= m_tool_calls) as Hcalls
    by (unfold assistantMessage; by destruct read.2).
  rewrite <- Hcalls.
  unfold bind at 1 in Hout. cbn [pushMessage modify] in Hout.
  destruct (hasToolCalls (m_tool_calls assistantMessage)) eqn:Hhas.
  - unfold bind at 1 in Hout. cbn [modify] in Hout.
    match type of Hout with
    | context [ (bind ?m ?k) ?st ] =>
        pose proof (quiet_afterCounting w agent
                      (default [] (m_tool_calls assistantMessage)) st)
          as (Hr & [Hturn Htotal] & Hev);
        destruct ((bind m k) st) as [[r run'] ev]
    end.
    subst out. cbn in *. repeat split; [done| |done|lia].
    by apply Forall_app.
  - assert (default [] (m_tool_calls assistantMessage) = []) as ->.
    { unfold hasToolCalls in Hhas.
      by destruct (m_tool_calls assistantMessage) as [[|? ?]|]. }
    subst out. cbn. repeat split; [|lia].
    apply Forall_app. split; [done|]. by repeat constructor.
Qed.

Lemma iteration_spec w agent run :
  let out := iteration w agent run in
  allowed MustReturn out.1.1 /\
  Forall isProgress out.2 /\
  if aborted w (currentTurn run)
  then out.1.1 = Ok Return /\ sameCounters run out.1.2
  else currentTurn out.1.2 = S (currentTurn run) /\
       totalToolCalls out.1.2
         = totalToolCalls run + callsOfTurn w (S (currentTurn run)).
Proof.
  intros out. assert (out = iteration w agent run) as Hout by done.
  clearbody out. unfold iteration in Hout.
  unfold bind at 1 in Hout. cbn [getRun] in Hout.
  destruct (aborted w (currentTurn run)).
  { subst out. cbn. repeat split. by repeat constructor. }
  unfold bind at 1 in Hout. cbn [modify] in Hout.
  unfold bind at 1 in Hout. cbn [getRun] in Hout.
  unfold bind at 1 in Hout.
  match type of Hout with
  | context [ createStepEvent ?a ?b ?c ?d ?e ?f ?st ] =>
      pose proof (quiet_createStepEvent MustReturn a b c d e f st)
        as (Hr1 & [Hturn1 Htotal1] & Hev1);
      destruct (createStepEvent a b c d e f st) as [[r1 st1] ev1]
  end.
  cbn in Hr1, Hturn1, Htotal1, Hev1.
  destruct r1 as [[]| |]; [|done|done].
  unfold tryCatch in Hout.
  pose proof (modelTurn_spec w agent st1) as (Hr2 & Hev2 & Hturn2 & Htotal2).
  destruct (modelTurn w agent st1) as [[r2 st2] ev2].
  cbn in Hr2, Hev2, Hturn2, Htotal2.
  unfold callsOfTurn. rewrite Hturn1 in Htotal2.
  destruct r2 as [ctl|e|]; [| |done].
  - subst out. cbn. repeat split; [|lia|lia].
    rewrite ?app_nil_r. by apply Forall_app.
  - match type of Hout with
    | context [ (bind ?m ?k) st2 ] =>
        assert (quiet MustReturn (bind m k)) as Hhandler by quiet_steps;
        destruct (Hhandler st2) as (Hr3 & [Hturn3 Htotal3] & Hev3);
        destruct ((bind m k) st2) as [[r3 st3] ev3]
    end.
    subst out. cbn in *. repeat split; [done| |lia|lia].
    rewrite ?app_nil_r. apply Forall_app. split; [done|]. by apply Forall_app.
Qed.

(** *** The loop *)

Lemma sumOverTurns_same f a : sumOverTurns f a a = 0.
Proof. unfold sumOverTurns. by rewrite Nat.sub_diag. Qed.

Lemma sumOverTurns_first f a c :
  a < c -> sumOverTurns f a c = f (S a) + sumOverTurns f (S a) c.
Proof.
  intros Hlt. unfold sumOverTurns.
  replace (c - a) with (S (c - S a)) by lia. done.
Qed.

Lemma sumOverTurns_le f g a c :
  (forall t, f t <= g t) -> sumOverTurns f a c <= sumOverTurns g a c.
Proof.
  intros Hle. unfold sumOverTurns.
  generalize (S a). induction (c - a) as [|n IH]; intros from; cbn; [done|].
  specialize (IH (S from)). specialize (Hle from). lia.
Qed.

(** The guard of the loop, in whole turns. *)
Lemma belowLimit_turnsAllowed (turn : nat) agent :
  belowLimit turn (maxTurns (behavior agent))
  = (turn <? turnsAllowed agent)%nat.
Proof.
  unfold belowLimit, turnsAllowed.
  set (limit := maxTurns (behavior agent)).
  pose proof (Qle_ceiling limit) as Hup.
  pose proof (Qceiling_lt limit) as Hdown.
  destruct (Nat.ltb_spec turn (Z.to_nat (Qceiling limit))) as [Hlt|Hge].
  - assert (inject_Z (Z.of_nat turn) < limit)%Q as Hbelow.
    { eapply Qle_lt_trans; [|exact Hdown]. rewrite <- Zle_Qle. lia. }
    destruct (Qcompare_spec (inject_Z (Z.of_nat turn)) limit) as [Heq|?|Hgt];
      [|done|].
    + rewrite Heq in Hbelow. by apply Qlt_irrefl in Hbelow.
    + by apply Qlt_le_weak, Qle_not_lt in Hgt.
  - assert (limit <= inject_Z (Z.of_nat turn))%Q as Habove.
    { eapply Qle_trans; [exact Hup|]. rewrite <- Zle_Qle. lia. }
    destruct (Qcompare_spec (inject_Z (Z.of_nat turn)) limit) as [|Hlt|];
      [done| |done].
    by apply Qle_not_lt in Habove.
Qed.

Lemma turnsAllowed_whole agent (turn n : nat) :
  turn <= turnsAllowed agent ->
  maxTurns (behavior agent) = inject_Z (Z.of_nat n) ->
  turn <= n.
Proof.
  unfold turnsAllowed. intros Hturn Hlimit.
  rewrite Hlimit, Qceiling_Z in Hturn. lia.
Qed.

Lemma turnsAllowed_below agent (turn : nat) :
  turn <= turnsAllowed agent ->
  (0 <= maxTurns (behavior agent))%Q ->
  (inject_Z (Z.of_nat turn) < maxTurns (behavior agent) + 1)%Q.
Proof.
  unfold turnsAllowed. set (limit := maxTurns (behavior agent)).
  intros Hturn Hpositive.
  pose proof (Qceiling_lt limit) as Hdown.
  destruct (decide (0 <= Qceiling limit)%Z) as [Hnonneg|Hneg].
  - apply (Qle_lt_trans _ (inject_Z (Qceiling limit - 1) + 1)).
    + rewrite <- (inject_Z_plus _ 1), <- Zle_Qle. lia.
    + by apply Qplus_lt_l.
  - assert (turn = 0) as -> by lia.
    apply (Qle_lt_trans _ (limit + 0)); [by rewrite Qplus_0_r|].
    by apply Qplus_lt_r.
Qed.

Lemma whileTurns_spec w agent fuel run :
  currentTurn run <= turnsAllowed agent ->
  let out := whileTurns fuel w agent run in
  (turnsAllowed agent - currentTurn run <= fuel ->
   allowed MustReturn out.1.1) /\
  (forall e, out.1.1 <> Raise e) /\
  Forall isProgress out.2 /\
  currentTurn run <= currentTurn out.1.2 <= turnsAllowed agent /\
  totalToolCalls out.1.2
    = totalToolCalls run
      + sumOverTurns (callsOfTurn w) (currentTurn run) (currentTurn out.1.2).
Proof.
  revert run. induction fuel as [|fuel IH]; intros run Hbound out;
    (assert (out = whileTurns _ w agent run) as Hout by done);
    clearbody out; cbn [whileTurns] in Hout; unfold bind at 1 in Hout;
    cbn [getRun] in Hout; rewrite belowLimit_turnsAllowed in Hout;
    destruct (Nat.ltb_spec (currentTurn run) (turnsAllowed agent))
      as [Hlt|Hge].
  - subst out. cbn [stuck fst snd app]. rewrite sumOverTurns_same.
    repeat split; try done; lia.
  - subst out. cbn [ret fst snd app]. rewrite sumOverTurns_same.
    repeat split; try done; lia.
  - unfold bind at 1 in Hout.
    pose proof (iteration_spec w agent run) as (Hr & Hev & Hcases).
    destruct (iteration w agent run) as [[r st] ev].
    cbn [fst snd] in Hr, Hev, Hcases.
    destruct r as [ctl| |]; [|done|done].
    destruct (aborted w (currentTurn run)).
    { destruct Hcases as [[= ->] [Hturn Htotal]].
      subst out. cbn [ret fst snd app].
      rewrite Hturn, Htotal, sumOverTurns_same, ?app_nil_r.
      repeat split; try done; lia. }
    destruct Hcases as [Hturn Htotal].
    assert (sumOverTurns (callsOfTurn w) (currentTurn run) (currentTurn st)
            = callsOfTurn w (S (currentTurn run))) as Hone.
    { rewrite sumOverTurns_first by lia.
      rewrite Hturn, sumOverTurns_same. lia. }
    destruct ctl.
    + assert (currentTurn st <= turnsAllowed agent) as Hbound' by lia.
      pose proof (IH st Hbound') as (Hok & Hnr & Hev' & Hturn' & Htotal').
      destruct (whileTurns fuel w agent st) as [[r' st'] ev'].
      subst out. cbn [fst snd] in *.
      split; [intros Hfuel; apply Hok; lia|].
      split; [exact Hnr|]. split; [cbn [app]; by apply Forall_app|].
      split; [lia|].
      rewrite Htotal', Htotal.
      rewrite (sumOverTurns_first _ (currentTurn run)) by lia.
      rewrite Hturn. lia.
    + subst out. cbn [ret fst snd app]. rewrite ?app_nil_r, Htotal, Hone.
      repeat split; try done; lia.
    + subst out. cbn [ret fst snd app]. rewrite ?app_nil_r, Htotal, Hone.
      repeat split; try done; lia.
  - subst out. cbn [ret fst snd app]. rewrite sumOverTurns_same.
    repeat split; try done; lia.
Qed.

Lemma quiet_maxTurnsReached : quiet MustReturn maxTurnsReached.
Proof. unfold maxTurnsReached. quiet_steps. Qed.

Lemma executeAgentLoop_spec w context run :
  currentTurn run <= turnsAllowed (ctx_agent context) ->
  let out := executeAgentLoop w context run in
  allowed MustReturn out.1.1 /\
  Forall isProgress out.2 /\
  currentTurn out.1.2 <= turnsAllowed (ctx_agent context) /\
  totalToolCalls out.1.2
    = totalToolCalls run
      + sumOverTurns (callsOfTurn w) (currentTurn run) (currentTurn out.1.2).
Proof.
  intros Hbound out.
  assert (out = executeAgentLoop w context run) as Hout by done.
  clearbody out. unfold executeAgentLoop in Hout.
  unfold bind at 1 in Hout. cbn [getRun] in Hout. unfold bind at 1 in Hout.
  pose proof (whileTurns_spec w (ctx_agent context)
                (turnsAllowed (ctx_agent context) - currentTurn run)
                run Hbound) as (Hok & _ & Hev & Hturn & Htotal).
  specialize (Hok (Nat.le_refl _)).
  destruct (whileTurns _ w (ctx_agent context) run) as [[r st] ev].
  cbn [fst snd] in Hok, Hev, Hturn, Htotal.
  destruct r as [returned| |]; [|done|done].
  destruct returned.
  - subst out. cbn [ret fst snd app]. rewrite ?app_nil_r.
    repeat split; try done; lia.
  - destruct (quiet_maxTurnsReached st) as (Hr' & [Hturn' Htotal'] & Hev').
    destruct (maxTurnsReached st) as [[r' st'] ev'].
    subst out. cbn [fst snd app] in *.
    rewrite Hturn', Htotal'. repeat split; [done| |lia|lia].
    by apply Forall_app.
Qed.

End WithRuntime.

(** *** Starting and ending a run *)

(** [runAgent] past its preconditions: the status event, the events of
    the loop, and the ending that fits the way the loop ended. *)
Lemma runAgentWith_started loop o w agentId request agent :
  agents o !! agentId = Some agent ->
  size (activeRuns o) < maxConcurrentRuns (config o) ->
  req_serverId request ∈ servers w ->
  resolveModel agent request <> EmptyString ->
  runAgentWith loop o w agentId request =
    let started :=
      withActiveRuns
        (<[nanoid w := entryContext agent request]> (activeRuns o)) o in
    let ended :=
      withActiveRuns (delete (nanoid w) (activeRuns started)) o in
    match loop w (entryContext agent request)
            (entryRun w agent agentId request) with
    | (Ok _, run1, ev) =>
        (StatusEvent executing :: ev ++ [DoneEvent run1], ended)
    | (Raise e, run1, ev) =>
        (StatusEvent executing :: ev
           ++ [ErrorEvent (messageOr "Unknown error" e);
               DoneEvent (setError (Some (messageOr "Unknown error" e))
                            (setStatus failed run1))],
         ended)
    | (Stuck, _, ev) => (StatusEvent executing :: ev, started)
    end.
Proof.
  intros Hagent Hroom Hserver Hmodel. unfold runAgentWith. rewrite Hagent.
  destruct (Nat.leb_spec (maxConcurrentRuns (config o)) (size (activeRuns o)));
    [lia|].
  rewrite bool_decide_eq_true_2 by done. cbn [negb].
  unfold entryContext, entryRun.
  destruct (resolveModel agent request) as [|c model]; [done|].
  cbv [bind modify createStatusEvent yield]. cbn [app].
  destruct (loop w _ _) as [[r run1] ev]. by destruct r.
Qed.

Lemma preconditions_decided o w agentId request :
  (exists msg, PreconditionFails o w agentId request msg) \/
  (exists agent,
     agents o !! agentId = Some agent /\
     size (activeRuns o) < maxConcurrentRuns (config o) /\
     req_serverId request ∈ servers w /\
     resolveModel agent request <> EmptyString).
Proof.
  destruct (agents o !! agentId) as [agent|] eqn:Hagent;
    [|left; eexists; by apply UnknownAgent].
  destruct (Nat.leb_spec (maxConcurrentRuns (config o)) (size (activeRuns o)));
    [left; eexists; by apply CapacityReached|].
  destruct (decide (req_serverId request ∈ servers w));
    [|left; eexists; by apply UnknownServer].
  destruct (decide (resolveModel agent request = EmptyString));
    [left; eexists; by eapply NoModel|].
  right. by exists agent.
Qed.

(** A failed precondition ends [runAgent] in one error event, the first
    failing check deciding which, with the orchestrator untouched. *)
Lemma runAgentWith_refused o w agentId request :
  (exists msg, PreconditionFails o w agentId request msg) ->
  exists msg,
    PreconditionFails o w agentId request msg /\
    forall loop, runAgentWith loop o w agentId request = ([ErrorEvent msg], o).
Proof.
  intros [msg0 Hfails].
  destruct (agents o !! agentId) as [agent|] eqn:Hagent; cycle 1.
  { eexists. split; [by apply UnknownAgent|].
    intros loop. unfold runAgentWith. by rewrite Hagent. }
  destruct (Nat.leb_spec (maxConcurrentRuns (config o)) (size (activeRuns o)))
    as [Hfull|Hroom].
  { eexists. split; [by apply CapacityReached|].
    intros loop. unfold runAgentWith. rewrite Hagent.
    by rewrite (proj2 (Nat.leb_le _ _) Hfull). }
  destruct (decide (req_serverId request ∈ servers w)) as [Hin|Hout]; cycle 1.
  { eexists. split; [by apply UnknownServer|].
    intros loop. unfold runAgentWith. rewrite Hagent.
    rewrite (proj2 (Nat.leb_gt _ _) Hroom).
    by rewrite bool_decide_eq_false_2. }
  destruct (resolveModel agent request) as [|c model] eqn:Hmodel.
  { eexists. split; [by eapply NoModel|].
    intros loop. unfold runAgentWith. rewrite Hagent.
    rewrite (proj2 (Nat.leb_gt _ _) Hroom).
    rewrite bool_decide_eq_true_2 by done. by rewrite Hmodel. }
  exfalso. destruct Hfails as [Hnone|Hfull|Hserver|agent' Hagent' Hmodel'].
  - congruence.
  - lia.
  - done.
  - congruence.
Qed.

Lemma finalRun_done events run :
  finalRun (events ++ [DoneEvent run]) = Some run.
Proof. unfold finalRun. by rewrite last_snoc. Qed.

Section WithRuntime.
Context `{Runtime}.

(** C5: at every iteration boundary of a run started by [runAgent], and
    in the run record of its [done] event, [currentTurn] is at most the
    least integer that is not below [maxTurns]: it is at most [maxTurns]
    when that is a whole number, and below [maxTurns + 1] in any case.
    [totalToolCalls] is the sum, over the turns taken, of the number of
    tool calls the model asked for on that turn, counted before the cut
    to [maxToolCallsPerTurn]; so it is at least the sum of the counts
    after the cut. *)
Theorem counters_within_bounds (w : World) (agentId : string)
    (request : RunAgentRequest) :
  (forall agent fuel,
     let at_boundary :=
       (whileTurns fuel w agent (entryRun w agent agentId request)).1.2 in
     currentTurn at_boundary <= turnsAllowed agent /\
     (forall n : nat, maxTurns (behavior agent) = inject_Z (Z.of_nat n) ->
        currentTurn at_boundary <= n) /\
     ((0 <= maxTurns (behavior agent))%Q ->
        (inject_Z (Z.of_nat (currentTurn at_boundary))
         < maxTurns (behavior agent) + 1)%Q) /\
     totalToolCalls at_boundary
       = sumOverTurns (callsOfTurn w) 0 (currentTurn at_boundary) /\
     sumOverTurns
       (fun t => callsOfTurn w t `min` maxToolCallsPerTurn (behavior agent))
       0 (currentTurn at_boundary)
       <= totalToolCalls at_boundary) /\
  (forall o run,
     finalRun (runAgent o w agentId request).1 = Some run ->
     exists agent,
       agents o !! agentId = Some agent /\
       currentTurn run <= turnsAllowed agent /\
       (forall n : nat, maxTurns (behavior agent) = inject_Z (Z.of_nat n) ->
          currentTurn run <= n) /\
       ((0 <= maxTurns (behavior agent))%Q ->
          (inject_Z (Z.of_nat (currentTurn run))
           < maxTurns (behavior agent) + 1)%Q) /\
       totalToolCalls run = sumOverTurns (callsOfTurn w) 0 (currentTurn run) /\
       sumOverTurns
         (fun t => callsOfTurn w t `min` maxToolCallsPerTurn (behavior agent))
         0 (currentTurn run)
         <= totalToolCalls run).
Proof.
  split.
  - intros agent fuel at_boundary. subst at_boundary.
    pose proof (whileTurns_spec w agent fuel (entryRun w agent agentId request))
      as Hspec.
    destruct Hspec as (_ & _ & _ & Hturn & Htotal); [cbn; lia|].
    cbn [entryRun setStatus setMessages initialRun currentTurn totalToolCalls]
      in Hturn, Htotal.
    split; [lia|].
    split; [intros n Hn; apply (turnsAllowed_whole agent _ n); [lia|done]|].
    split; [intros Hpos; apply turnsAllowed_below; [lia|done]|].
    split; [lia|]. rewrite Htotal. cbn [Nat.add].
    apply sumOverTurns_le. intros t. lia.
  - intros o run Hfinal.
    destruct (preconditions_decided o w agentId request)
      as [Hfails|(agent & Hagent & Hroom & Hserver & Hmodel)].
    { apply runAgentWith_refused in Hfails as (msg & _ & Hrefused).
      unfold runAgent in Hfinal. by rewrite Hrefused in Hfinal. }
    exists agent. split; [done|].
    unfold runAgent in Hfinal.
    rewrite (runAgentWith_started _ o w agentId request agent) in Hfinal by done.
    cbv zeta in Hfinal.
    pose proof (executeAgentLoop_spec w (entryContext agent request)
                  (entryRun w agent agentId request)) as Hloop.
    destruct Hloop as (Hr & _ & Hturn & Htotal); [cbn; lia|].
    destruct (executeAgentLoop w _ _) as [[r run1] ev].
    cbn [fst snd] in Hr, Hturn, Htotal, Hfinal.
    destruct r as [[]| |]; [|done|done].
    cbn [fst] in Hfinal.
    rewrite app_comm_cons, finalRun_done in Hfinal. injection Hfinal as <-.
    cbn [entryRun setStatus setMessages initialRun currentTurn totalToolCalls
         entryContext ctx_agent] in Hturn, Htotal.
    split; [lia|].
    split; [intros n Hn; apply (turnsAllowed_whole agent _ n); [lia|done]|].
    split; [intros Hpos; apply turnsAllowed_below; [lia|done]|].
    split; [lia|]. rewrite Htotal. cbn [Nat.add].
    apply sumOverTurns_le. intros t. lia.
Qed.

(** C5, as the specification has it, fails on the code: the schema
    accepts the turn limit 1.5, and a run whose requests to the model
    fail, in an agent that goes on after errors, then takes two turns. *)
Theorem currentTurn_exceeds_fractional_limit :
  let agent := withMaxTurns (3 # 2) (agentWith 5 1 true false) in
  exists run,
    finalRun (sampleRun agent unreachableModel) = Some run /\
    currentTurn run = 2 /\
    ~ (inject_Z (Z.of_nat (currentTurn run)) <= maxTurns (behavior agent))%Q.
Proof.
  cbv zeta. eexists. split; [vm_compute; reflexivity|].
  split; [reflexivity|]. intros Hle. vm_compute in Hle. by apply Hle.
Qed.

End WithRuntime.

(** *** The theorems at work on the sample runs *)

(** Two turns allowed, two calls asked for on the first, one call per
    turn permitted. *)
Lemma counters_within_bounds_witness :
  let agent := agentWith 1 2 true false in
  exists run,
    finalRun (sampleRun agent (callsThenText twoCalls "Four.")) = Some run /\
    currentTurn run <= 2 /\
    totalToolCalls run = 2.
Proof.
  intros agent.
  destruct (@counters_within_bounds Examples.bracesRuntime
              (worldWith (callsThenText twoCalls "Four.")) "helper"
              sampleRequest) as [_ Hfinal].
  edestruct (Hfinal (orchestratorWith agent))
    as (agent' & Hagent & _ & Hwhole & _ & Htotal & _).
  - vm_compute. reflexivity.
  - vm_compute in Hagent. injection Hagent as <-.
    eexists. split; [vm_compute; reflexivity|].
    split; [exact (Hwhole 2 eq_refl)|]. rewrite Htotal. vm_compute. reflexivity.
Defined.

End OrchestratorFacts.

(* ===================================================================== *)
(** * Further properties                                                  *)
(* ===================================================================== *)

(** ** The registry as a map of tools                                     *)

Module RegistryOperationsFacts.
Import ToolOperations RegistryTerms.

(** X1: registering a tool makes it the one that is executed under its
    name, whatever was registered there before: it is available exactly
    when registered as enabled, a call by that name settles with the
    outcome of the new handler, and calls by other names are executed as
    they were. *)
Theorem register_then_execute (tools : Tools) (h : ToolHandler)
    (cat : option string) (auth : bool) (startTime : Z)
    (call other : ParsedToolCall) (en : bool) :
  pc_name other <> pc_name call ->
  let tools' := register (pc_name call) h en cat auth tools in
  isAvailable tools' (pc_name call) = en /\
  (let r := value (execute tools' startTime call) in
   if en then
     match outcome (h (pc_arguments call)) with
     | Resolves v => result r = v /\ error r = None
     | Throws e => result r = JNull /\ error r = Some (messageOr "Unknown error" e)
     end
   else result r = JNull /\ error r = Some (disabledText (pc_name call))) /\
  execute tools' startTime other = execute tools startTime other /\
  isAvailable tools' (pc_name other) = isAvailable tools (pc_name other).
Proof.
  intros Hne tools'. subst tools'. unfold register, isAvailable, execute.
  rewrite lookup_insert_eq, lookup_insert_ne by done. cbn.
  split; [done|]. split; [|done].
  destruct en; cbn; [|done]. by destruct (outcome _).
Qed.

Lemma register_then_execute_witness :
  result (value (execute (register "calculator" Examples.quick true None false ∅) 0
                   {| pc_id := "c1"; pc_name := "calculator";
                      pc_arguments := JObj [] |})) = JNum 4.
Proof.
  destruct (register_then_execute ∅ Examples.quick None false 0
              {| pc_id := "c1"; pc_name := "calculator"; pc_arguments := JObj [] |}
              {| pc_id := "c2"; pc_name := "web_search"; pc_arguments := JObj [] |}
              true) as (_ & [Hresult _] & _).
  - cbn. discriminate.
  - exact Hresult.
Defined.

(** X2: after [unregister] a call by that name is answered with the
    not-found error and the tool is unavailable, whether or not it was
    registered; [unregister] reports whether it was; tools of other names
    are untouched, and unregistering an unknown name changes nothing. *)
Theorem unregister_then_execute (tools : Tools) (startTime : Z)
    (call other : ParsedToolCall) :
  pc_name other <> pc_name call ->
  let tools' := unregister (pc_name call) tools in
  error (value (execute tools' startTime call))
    = Some (notFoundText (pc_name call)) /\
  result (value (execute tools' startTime call)) = JNull /\
  isAvailable tools' (pc_name call) = false /\
  (unregisterFound (pc_name call) tools = true
   <-> is_Some (tools !! pc_name call)) /\
  (unregisterFound (pc_name call) tools = false -> tools' = tools) /\
  execute tools' startTime other = execute tools startTime other.
Proof.
  intros Hne tools'. subst tools'.
  unfold unregister, isAvailable, execute, unregisterFound.
  rewrite lookup_delete_eq, lookup_delete_ne by done. cbn.
  split; [done|]. split; [done|]. split; [done|].
  split; [apply bool_decide_eq_true|]. split; [|done].
  intros Hnot. apply bool_decide_eq_false in Hnot. apply delete_id.
  by apply eq_None_not_Some.
Qed.

Lemma unregister_then_execute_witness :
  error (value (execute (unregister "calculator" Examples.someTools) 0
                  {| pc_id := "c1"; pc_name := "calculator";
                     pc_arguments := JObj [] |}))
  = Some (notFoundText "calculator").
Proof.
  destruct (unregister_then_execute Examples.someTools 0
              {| pc_id := "c1"; pc_name := "calculator"; pc_arguments := JObj [] |}
              {| pc_id := "c2"; pc_name := "web_search"; pc_arguments := JObj [] |})
    as (Herror & _).
  - cbn. discriminate.
  - exact Herror.
Defined.

(** X3: [setEnabled] on a registered tool decides its availability and
    nothing else: disabled, a call is answered with the disabled error
    without the handler being consulted; enabled again, a tool that was
    enabled is executed exactly as before the two switches.  On an
    unknown name [setEnabled] reports false and leaves the registry as it
    is. *)
Theorem setEnabled_switch (tools : Tools) (startTime : Z)
    (call : ParsedToolCall) (b : bool) :
  (forall tl, tools !! pc_name call = Some tl ->
     setEnabledFound (pc_name call) tools = true /\
     isAvailable (setEnabled (pc_name call) b tools) (pc_name call) = b /\
     error (value (execute (setEnabled (pc_name call) false tools)
                     startTime call))
       = Some (disabledText (pc_name call)) /\
     (enabled tl = true ->
      setEnabled (pc_name call) true (setEnabled (pc_name call) false tools)
        = tools)) /\
  (tools !! pc_name call = None ->
     setEnabledFound (pc_name call) tools = false /\
     setEnabled (pc_name call) b tools = tools).
Proof.
  unfold setEnabled, setEnabledFound, isAvailable, execute. split.
  - intros tl Htl. split; [by apply bool_decide_eq_true_2|].
    rewrite !lookup_alter_eq, Htl. cbn. split; [done|]. split; [done|].
    intros Hen. apply map_eq. intros name.
    destruct (decide (name = pc_name call)) as [->|Hne].
    + rewrite !lookup_alter_eq, Htl. cbn. destruct tl; cbn in *. by subst.
    + by rewrite !lookup_alter_ne.
  - intros Hnone. split.
    + apply bool_decide_eq_false_2. rewrite Hnone. by intros [? ?].
    + apply map_eq. intros name.
      destruct (decide (name = pc_name call)) as [->|Hne].
      * by rewrite lookup_alter_eq, Hnone.
      * by rewrite lookup_alter_ne.
Qed.

Lemma setEnabled_switch_witness :
  isAvailable (setEnabled "calculator" false Examples.someTools) "calculator"
    = false /\
  setEnabled "calculator" true (setEnabled "calculator" false Examples.someTools)
    = Examples.someTools.
Proof.
  destruct (setEnabled_switch Examples.someTools 0
              {| pc_id := "c1"; pc_name := "calculator"; pc_arguments := JObj [] |}
              false) as [Hknown _].
  destruct (Hknown (Examples.tool Examples.quick)) as (_ & Havail & _ & Hback).
  - reflexivity.
  - split; [exact Havail|]. apply Hback. reflexivity.
Defined.

End RegistryOperationsFacts.

(** ** The executor beyond well-formed calls and default options          *)

Module ExecutorOperationsFacts.
Import ToolOperations ExecutorTerms ExecutorFacts RegistryTerms.

Section WithRuntime.
Context `{Runtime}.

Lemma filterParsed_without_function (all : list CallObject) :
  forall rest index validCalls results,
    drop index all = rest ->
    (exists pc, WithoutFunction pc ∈ rest) ->
    filterParsed all (map parseToolCallArguments rest) index validCalls results
    = Rejected (undefinedRead "name").
Proof.
  induction rest as [|c rest IH]; intros index validCalls results Hdrop [pc Hin].
  - by apply elem_of_nil in Hin.
  - assert (all !! index = Some c) as Hc.
    { rewrite <- (Nat.add_0_r index), <- lookup_drop, Hdrop. done. }
    assert (drop (S index) all = rest) as Hrest.
    { erewrite drop_S in Hdrop by exact Hc. by injection Hdrop. }
    cbn [map filterParsed].
    destruct c as [tc|pc'].
    + assert (exists pc, WithoutFunction pc ∈ rest) as Hin'.
      { exists pc. by apply elem_of_cons in Hin as [?|?]. }
      destruct (parseToolCallArguments (WithFunction tc)); [by apply IH|].
      rewrite Hc. by apply IH.
    + cbn [parseToolCallArguments]. by rewrite Hc.
Qed.

(** X4: a list of calls in which some object has no [function] property,
    which is what the orchestrator passes, makes [executeToolCalls]
    reject with the type error of reading [name] off [undefined]: no
    result array is returned, whatever the registry, the options and the
    other calls are. *)
Theorem executeToolCalls_rejects_without_function (tools : Tools) (now : Z)
    (timerFirst : nat -> bool)
    (toolCalls : list CallObject) (options : ExecutionOptions)
    (pc : ParsedToolCall) :
  WithoutFunction pc ∈ toolCalls ->
  executeToolCalls tools now timerFirst toolCalls options
  = Rejected (undefinedRead "name").
Proof.
  intros Hin. unfold executeToolCalls, executeToolCallsFuel.
  rewrite (filterParsed_without_function toolCalls toolCalls 0 [] []); eauto.
Qed.

Lemma validOf_nonempty index calls c pc :
  c ∈ calls -> parseToolCallArguments (WithFunction c) = Some pc ->
  0 < length (validOf index calls).
Proof.
  intros Hin Hp. apply list_elem_of_lookup_1 in Hin as [j Hj].
  assert ((index + j, pc) ∈ validOf index calls) as Hv
    by (apply validOf_elem; by exists j, c).
  destruct (validOf index calls); [by apply elem_of_nil in Hv|cbn; lia].
Qed.

Lemma runBatches_no_progress tools opts timerFirst vs now results fuel :
  r_maxConcurrent opts = 0 -> 0 < length vs ->
  runBatches fuel tools opts timerFirst vs 0 now results = Unfinished.
Proof.
  intros Hzero Hvs. revert now results.
  induction fuel as [|fuel IH]; intros now results; [done|].
  cbn [runBatches]. rewrite Hzero.
  destruct (Nat.ltb_spec 0 (length vs)); [|lia].
  cbn. rewrite andb_false_r. apply IH.
Qed.

(** X5: with [maxConcurrent] set to 0 the batch loop never advances: as
    soon as one call parses, [executeToolCalls] does not return, however
    long it runs. *)
Theorem executeToolCalls_zero_batch_never_returns (tools : Tools) (now : Z)
    (timerFirst : nat -> bool)
    (calls : list ToolCall) (options : ExecutionOptions) (fuel : nat)
    (c : ToolCall) (pc : ParsedToolCall) :
  r_maxConcurrent (mergeOptions options) = 0 ->
  c ∈ calls ->
  parseToolCallArguments (WithFunction c) = Some pc ->
  executeToolCallsFuel fuel tools now timerFirst (map WithFunction calls) options
  = Unfinished.
Proof.
  intros Hzero Hin Hp. unfold executeToolCallsFuel.
  rewrite filterParsed_wellformed by done. cbn [app].
  apply runBatches_no_progress; [done|]. by eapply validOf_nonempty.
Qed.

(** With [continueOnError] on, the results in full. *)
Lemma executeToolCalls_all_outcomes tools now timerFirst calls options :
  r_continueOnError (mergeOptions options) = true ->
  0 < r_maxConcurrent (mergeOptions options) ->
  executeToolCalls tools now timerFirst (map WithFunction calls) options
  = Returned (imap (fun i c => Some (outcomeOf tools
                                       (r_timeout (mergeOptions options))
                                       (timerFirst i) c))
                calls).
Proof.
  intros Hc Hm.
  destruct (executeToolCalls_outcomes tools now timerFirst calls options Hm)
    as (results & -> & _ & _ & Hfull).
  destruct (Hfull Hc) as [Hlen Hdefined]. f_equal.
  apply list_eq. intros i. rewrite list_lookup_imap.
  destruct (calls !! i) as [c|] eqn:Hi; cbn.
  - by apply Hdefined.
  - apply lookup_ge_None. apply lookup_ge_None in Hi. lia.
Qed.

(** No timer fires on a call that settles in the task that started it. *)
Lemma outcomeOf_settled tools ms first c :
  (forall pc, parseToolCallArguments (WithFunction c) = Some pc ->
              settlesAtOnce tools pc) ->
  outcomeOf tools ms first c = answerOf tools c.
Proof.
  intros Honce. unfold answerOf.
  destruct (parseToolCallArguments (WithFunction c)) as [pc|] eqn:Hp.
  - pose proof (outcomeOf_race tools ms first c pc Hp) as Hrace.
    unfold timerWins in Hrace. by rewrite (Honce pc eq_refl) in Hrace.
  - unfold outcomeOf. by rewrite Hp.
Qed.

Lemma timeoutMessage_truthy pc ms : truthy (Some (timeoutMessage pc ms)) = true.
Proof. reflexivity. Qed.

(** X6: calls whose executions settle in the task that started them
    (the tool is missing or disabled, or its handler comes back without
    giving the event loop a turn) are never timed out.  With
    [continueOnError] on and batches of at least one call, the array
    returned for such calls holds, position by position, what the registry
    answers to the call, or its parse failure: neither the timeout, be it
    0, nor the size of the batches, nor the clock, nor the order in which
    timers could fire leaves a trace in what the results say. *)
Theorem executeToolCalls_settled_calls_unaffected (tools : Tools)
    (now1 now2 : Z) (timerFirst1 timerFirst2 : nat -> bool)
    (calls : list ToolCall) (options1 options2 : ExecutionOptions) :
  (forall c pc, c ∈ calls ->
                parseToolCallArguments (WithFunction c) = Some pc ->
                settlesAtOnce tools pc) ->
  r_continueOnError (mergeOptions options1) = true ->
  r_continueOnError (mergeOptions options2) = true ->
  0 < r_maxConcurrent (mergeOptions options1) ->
  0 < r_maxConcurrent (mergeOptions options2) ->
  exists results1 results2,
    executeToolCalls tools now1 timerFirst1 (map WithFunction calls) options1
      = Returned results1 /\
    executeToolCalls tools now2 timerFirst2 (map WithFunction calls) options2
      = Returned results2 /\
    map (fmap verdict) results1
      = map (fun c => Some (verdict (answerOf tools c))) calls /\
    map (fmap verdict) results2 = map (fmap verdict) results1.
Proof.
  intros Honce Hc1 Hc2 Hm1 Hm2.
  assert (forall timerFirst ms,
            map (fmap verdict)
              (imap (fun i c => Some (outcomeOf tools ms (timerFirst i) c))
                 calls)
            = map (fun c => Some (verdict (answerOf tools c))) calls)
    as Hsame.
  { intros timerFirst ms. apply list_eq. intros i.
    rewrite !list_lookup_fmap, list_lookup_imap.
    destruct (calls !! i) as [c|] eqn:Hi; [|done]. cbn.
    rewrite outcomeOf_settled; [done|].
    intros pc Hp. apply (Honce c pc); [|done].
    by eapply list_elem_of_lookup_2. }
  do 2 eexists.
  split; [by apply executeToolCalls_all_outcomes|].
  split; [by apply executeToolCalls_all_outcomes|].
  by rewrite !Hsame.
Qed.

(** *** Stopping at the first batch with an error *)

Lemma allParse_cons c calls :
  allParse (c :: calls) ->
  is_Some (parseToolCallArguments (WithFunction c)) /\ allParse calls.
Proof.
  intros Hall. split; [apply Hall; left|].
  intros c' Hin. apply Hall. by right.
Qed.

Lemma failureWrites_allParse index calls :
  allParse calls -> failureWrites index calls = [].
Proof.
  revert index. induction calls as [|c rest IH]; intros index Hall; [done|].
  apply allParse_cons in Hall as [[pc Hp] Hrest].
  cbn [failureWrites]. rewrite Hp. by apply IH.
Qed.

Lemma validOf_allParse_length index calls :
  allParse calls -> length (validOf index calls) = length calls.
Proof.
  revert index. induction calls as [|c rest IH]; intros index Hall; [done|].
  apply allParse_cons in Hall as [[pc Hp] Hrest].
  cbn [validOf]. rewrite Hp. cbn [length]. by rewrite IH.
Qed.

Lemma validOf_allParse_take index calls m :
  allParse calls -> take m (validOf index calls) = validOf index (take m calls).
Proof.
  revert index m. induction calls as [|c rest IH]; intros index m Hall.
  - by destruct m.
  - apply allParse_cons in Hall as [[pc Hp] Hrest].
    destruct m as [|m]; [done|].
    cbn [validOf take]. rewrite Hp. cbn [take]. by rewrite IH.
Qed.

Lemma writeAll_in_sequence tools ms timerFirst index calls results :
  allParse calls -> length results = index ->
  writeAll (map (timedWrite tools ms timerFirst) (validOf index calls)) results
  = results
      ++ imap (fun i c => Some (outcomeOf tools ms (timerFirst (index + i)) c))
           calls.
Proof.
  revert index results.
  induction calls as [|c rest IH]; intros index results Hall Hlen.
  - cbn. by rewrite app_nil_r.
  - apply allParse_cons in Hall as [[pc Hp] Hrest].
    cbn [validOf]. rewrite Hp. cbn [map writeAll fold_left timedWrite fst snd].
    change (fold_left _ ?ws ?acc) with (writeAll ws acc).
    rewrite (IH (S index)); [|done|].
    + unfold arraySet. rewrite Hlen, Nat.ltb_irrefl, Nat.sub_diag. cbn.
      rewrite <- app_assoc. cbn. rewrite Nat.add_0_r.
      unfold outcomeOf at 2. rewrite Hp. do 2 f_equal.
      apply imap_ext. intros i c' _. cbn. do 3 f_equal. lia.
    + rewrite length_arraySet. lia.
Qed.

(** X7: with [continueOnError] off, the loop ends with the first batch
    that holds an error.  When every call parses and one of the first
    [maxConcurrent] calls comes back with an error, be it from the
    registry or from its timer, the array returned has the first
    [maxConcurrent] positions of the input and no other: each holds what
    its call came to, and the calls of later batches are never started. *)
Theorem executeToolCalls_stops_after_failing_batch (tools : Tools) (now : Z)
    (timerFirst : nat -> bool)
    (calls : list ToolCall) (options : ExecutionOptions)
    (j : nat) (c : ToolCall) :
  allParse calls ->
  r_continueOnError (mergeOptions options) = false ->
  j < r_maxConcurrent (mergeOptions options) ->
  calls !! j = Some c ->
  hasError (outcomeOf tools (r_timeout (mergeOptions options))
              (timerFirst j) c) = true ->
  exists results,
    executeToolCalls tools now timerFirst (map WithFunction calls) options
      = Returned results /\
    length results
      = Nat.min (r_maxConcurrent (mergeOptions options)) (length calls) /\
    forall i c',
      i < r_maxConcurrent (mergeOptions options) ->
      calls !! i = Some c' ->
      exists r,
        results !! i = Some (Some r) /\
        verdict r
          = verdict (outcomeOf tools (r_timeout (mergeOptions options))
                       (timerFirst i) c').
Proof.
  intros Hall Hstop Hj Hc Herr.
  exists (imap (fun i c => Some (outcomeOf tools
                                   (r_timeout (mergeOptions options))
                                   (timerFirst i) c))
            (take (r_maxConcurrent (mergeOptions options)) calls)).
  split; [|split].
  - unfold executeToolCalls, executeToolCallsFuel.
    rewrite filterParsed_wellformed by done.
    rewrite failureWrites_allParse by done. cbn [app writeAll fold_left].
    cbn [runBatches]. rewrite validOf_allParse_length by done.
    pose proof (lookup_lt_Some _ _ _ Hc) as Hlen.
    destruct (Nat.ltb_spec 0 (length calls)); [|lia].
    rewrite drop_0, placeResults_writeAll, Hstop. cbn [negb andb].
    rewrite validOf_allParse_take by done.
    assert (existsb hasError
              (map value
                 (map (fun ic => executeWithTimeout tools now
                                   (timerFirst ic.1) ic.2
                                   (r_timeout (mergeOptions options)))
                    (validOf 0 (take (r_maxConcurrent (mergeOptions options))
                                  calls)))) = true) as ->.
    { apply existsb_exists.
      exists (outcomeOf tools (r_timeout (mergeOptions options))
                (timerFirst j) c).
      split; [|done].
      destruct (Hall c) as [pc Hp]; [by eapply list_elem_of_lookup_2|].
      apply in_map_iff.
      exists (executeWithTimeout tools now (timerFirst j) pc
                (r_timeout (mergeOptions options))).
      split.
      - unfold outcomeOf. rewrite Hp. by rewrite executeWithTimeout_now.
      - apply in_map_iff. exists (j, pc). split; [done|].
        apply list_elem_of_In, validOf_elem. exists j, c.
        split; [done|]. split; [|done]. rewrite lookup_take_lt by lia. done. }
    f_equal. rewrite (writeAll_in_sequence tools _ timerFirst 0); [done| |done].
    intros c' Hin. apply Hall. by eapply subseteq_take.
  - by rewrite length_imap, length_take.
  - intros i c' Hi Hc'. eexists. split; [|reflexivity].
    rewrite list_lookup_imap, lookup_take_lt by done. by rewrite Hc'.
Qed.

(** *** Checking availability before executing *)

Lemma missingTools_elem tools calls n :
  n ∈ missingTools tools calls <->
  exists c, c ∈ calls /\ fn_name (tc_function c) = n /\
            isAvailable tools n = false.
Proof.
  induction calls as [|c rest IH]; cbn [missingTools].
  - split; [intros Hin; by apply elem_of_nil in Hin|].
    intros (c & Hin & _). by apply elem_of_nil in Hin.
  - destruct (isAvailable tools (fn_name (tc_function c))) eqn:Hav; cbn [negb].
    + rewrite IH. split.
      * intros (c' & Hin & Hn & Hno). exists c'. split; [by right|done].
      * intros (c' & Hin & Hn & Hno).
        apply elem_of_cons in Hin as [->|Hin]; [congruence|].
        by exists c'.
    + rewrite elem_of_cons, IH. split.
      * intros [->|(c' & Hin & Hn & Hno)].
        { exists c. split; [left|done]. }
        exists c'. split; [by right|done].
      * intros (c' & Hin & Hn & Hno).
        apply elem_of_cons in Hin as [->|Hin]; [by left|].
        right. by exists c'.
Qed.

(** X8: [validateToolsAvailable] reports a name as missing exactly when a
    call names a tool that is unregistered or disabled, and is valid
    exactly when no call does.  After a valid report every call that
    parses is answered by the handler of its tool: its error is the one
    the handler threw, or none, never the not-found or disabled error of
    the registry. *)
Theorem validateToolsAvailable_sound (tools : Tools) (calls : list ToolCall) :
  (forall n, n ∈ missing (validateToolsAvailable tools calls) <->
             exists c, c ∈ calls /\ fn_name (tc_function c) = n /\
                       isAvailable tools n = false) /\
  (valid (validateToolsAvailable tools calls) = true <->
   forall c, c ∈ calls -> isAvailable tools (fn_name (tc_function c)) = true) /\
  (valid (validateToolsAvailable tools calls) = true ->
   forall c pc startTime,
     c ∈ calls -> parseToolCallArguments (WithFunction c) = Some pc ->
     exists tl,
       tools !! pc_name pc = Some tl /\
       error (value (execute tools startTime pc))
       = match outcome (handler tl (pc_arguments pc)) with
         | Resolves _ => None
         | Throws e => Some (messageOr "Unknown error" e)
         end).
Proof.
  assert (valid (validateToolsAvailable tools calls) = true <->
          forall c, c ∈ calls ->
                    isAvailable tools (fn_name (tc_function c)) = true)
    as Hvalid.
  { unfold validateToolsAvailable. cbn [valid].
    rewrite bool_decide_eq_true. split.
    - intros Hlen c Hin.
      destruct (isAvailable tools (fn_name (tc_function c))) eqn:Hav; [done|].
      assert (fn_name (tc_function c) ∈ missingTools tools calls) as Hm
        by (apply missingTools_elem; by exists c).
      destruct (missingTools tools calls); [by apply elem_of_nil in Hm|done].
    - intros Hall.
      destruct (missingTools tools calls) as [|n rest] eqn:Hmiss; [done|].
      assert (n ∈ missingTools tools calls) as Hn by (rewrite Hmiss; left).
      apply missingTools_elem in Hn as (c & Hin & <- & Hno).
      rewrite (Hall c Hin) in Hno. done. }
  split; [apply missingTools_elem|]. split; [exact Hvalid|].
  intros Hok c pc startTime Hin Hp.
  pose proof (proj1 Hvalid Hok c Hin) as Hav.
  unfold parseToolCallArguments in Hp.
  destruct (JSON_parse _) as [args|]; [|done]. injection Hp as <-.
  unfold isAvailable in Hav. unfold execute. cbn [pc_name pc_arguments].
  destruct (tools !! fn_name (tc_function c)) as [tl|]; [|done].
  exists tl. split; [done|]. rewrite Hav. cbn. by destruct (outcome _).
Qed.

(** X9: [executeToolCallsAsMessages], with [continueOnError] on and
    batches of at least one call, returns one tool message per call, in
    call order and without holes: the message at position [i] has role
    [tool] and carries the id and the name of the [i]-th call.  Its
    content is that of the parse failure if the arguments of the call do
    not parse, that of the timeout error if the timer of the call fires
    before its execution has settled, and that of what the registry
    answers otherwise, as it always is for a call that settles in the
    task that started it. *)
Theorem executeToolCallsAsMessages_in_order (tools : Tools) (now : Z)
    (timerFirst : nat -> bool)
    (calls : list ToolCall) (options : ExecutionOptions) :
  r_continueOnError (mergeOptions options) = true ->
  0 < r_maxConcurrent (mergeOptions options) ->
  exists messages,
    executeToolCallsAsMessages tools now timerFirst (map WithFunction calls)
      options
    = Returned messages /\
    length messages = length calls /\
    forall i c, calls !! i = Some c ->
      exists m,
        messages !! i = Some (Some m) /\
        trm_role m = tool /\
        trm_tool_call_id m = tc_id c /\
        trm_name m = fn_name (tc_function c) /\
        trm_content m
        = match parseToolCallArguments (WithFunction c) with
          | None => formatToolResultContent (parseFailure c)
          | Some pc =>
              if timerWins tools (timerFirst i) pc
              then JSON_stringify
                     (JObj [("error",
                             JStr (timeoutMessage pc
                                     (r_timeout (mergeOptions options))))])
              else formatToolResultContent (value (execute tools 0 pc))
          end.
Proof.
  intros Hc Hm. unfold executeToolCallsAsMessages.
  rewrite executeToolCalls_all_outcomes by done.
  eexists. split; [done|]. split; [by rewrite length_map, length_imap|].
  intros i c Hi. eexists. split.
  - rewrite list_lookup_fmap, list_lookup_imap, Hi. done.
  - cbn [createToolResultMessage trm_role trm_tool_call_id trm_name
           trm_content].
    destruct (outcomeOf_identity tools (r_timeout (mergeOptions options))
                (timerFirst i) c) as [Hid Hname].
    split; [done|]. split; [done|]. split; [done|].
    destruct (parseToolCallArguments (WithFunction c)) as [pc|] eqn:Hp.
    + pose proof (outcomeOf_race tools (r_timeout (mergeOptions options))
                    (timerFirst i) c pc Hp) as Hrace.
      destruct (timerWins tools (timerFirst i) pc).
      * destruct Hrace as [_ Herror]. unfold formatToolResultContent.
        rewrite Herror. cbn [default]. by rewrite timeoutMessage_truthy.
      * by rewrite Hrace.
    + unfold outcomeOf. by rewrite Hp.
Qed.

End WithRuntime.

Lemma executeToolCalls_rejects_without_function_witness :
  @executeToolCalls Examples.bracesRuntime Examples.someTools 0 eagerTimers
    [WithFunction (Examples.call "c1" "calculator");
     WithoutFunction {| pc_id := "c2"; pc_name := "calculator";
                        pc_arguments := JObj [] |}] noOptions
  = Rejected (undefinedRead "name").
Proof.
  eapply (@executeToolCalls_rejects_without_function Examples.bracesRuntime).
  apply elem_of_cons. right. apply elem_of_cons. left. reflexivity.
Defined.

Lemma executeToolCalls_zero_batch_never_returns_witness :
  @executeToolCallsFuel Examples.bracesRuntime 1000 Examples.someTools 0
    eagerTimers (map WithFunction threeCalls)
    {| timeout := None; maxConcurrent := Some 0; continueOnError := None |}
  = Unfinished.
Proof.
  eapply (@executeToolCalls_zero_batch_never_returns Examples.bracesRuntime).
  - reflexivity.
  - apply elem_of_cons. left. reflexivity.
  - reflexivity.
Defined.

(** Two calls to a calculator that answers at once and one to a tool
    that is not registered, under a timeout of 0 in batches of one and
    under thirty seconds in batches of two. *)
Lemma executeToolCalls_settled_calls_unaffected_witness :
  exists results1 results2,
    @executeToolCalls Examples.bracesRuntime Examples.someTools 0 eagerTimers
      (map WithFunction settledCalls)
      {| timeout := Some 0%N; maxConcurrent := Some 1;
         continueOnError := Some true |} = Returned results1 /\
    @executeToolCalls Examples.bracesRuntime Examples.someTools 77
      (fun _ => false) (map WithFunction settledCalls) twoAtATime
      = Returned results2 /\
    map (fmap verdict) results2 = map (fmap verdict) results1.
Proof.
  destruct (@executeToolCalls_settled_calls_unaffected Examples.bracesRuntime
              Examples.someTools 0 77 eagerTimers (fun _ => false)
              settledCalls
              {| timeout := Some 0%N; maxConcurrent := Some 1;
                 continueOnError := Some true |} twoAtATime)
    as (results1 & results2 & Hrun1 & Hrun2 & _ & Hsame).
  - intros c pc Hin Hp.
    repeat (apply elem_of_cons in Hin as [->|Hin];
            [injection Hp as <-; reflexivity|]).
    by apply elem_of_nil in Hin.
  - reflexivity.
  - reflexivity.
  - cbn. lia.
  - cbn. lia.
  - exists results1, results2. split; [exact Hrun1|]. split; [exact Hrun2|].
    exact Hsame.
Defined.

Lemma executeToolCalls_stops_after_failing_batch_witness :
  exists results,
    @executeToolCalls Examples.bracesRuntime ToolOperations.failingTools 0
      eagerTimers (map WithFunction threeCalls)
      {| timeout := None; maxConcurrent := Some 2;
         continueOnError := Some false |}
    = Returned results /\
    length results = 2.
Proof.
  destruct (@executeToolCalls_stops_after_failing_batch Examples.bracesRuntime
              ToolOperations.failingTools 0 eagerTimers threeCalls
              {| timeout := None; maxConcurrent := Some 2;
                 continueOnError := Some false |} 0
              (Examples.call "c1" "calculator"))
    as (results & Hrun & Hlen & _).
  - intros c Hin.
    repeat (apply elem_of_cons in Hin as [->|Hin]; [by eexists|]).
    by apply elem_of_nil in Hin.
  - reflexivity.
  - cbn. lia.
  - reflexivity.
  - reflexivity.
  - exists results. split; [exact Hrun|exact Hlen].
Defined.

Lemma validateToolsAvailable_sound_witness :
  valid (validateToolsAvailable Examples.someTools threeCalls) = true /\
  error (value (execute Examples.someTools 0
                  {| pc_id := "c1"; pc_name := "calculator";
                     pc_arguments := JObj [] |})) = None.
Proof.
  split; [reflexivity|].
  destruct (@validateToolsAvailable_sound Examples.bracesRuntime
              Examples.someTools threeCalls) as (_ & _ & Hhandler).
  destruct (Hhandler eq_refl (Examples.call "c1" "calculator")
              {| pc_id := "c1"; pc_name := "calculator";
                 pc_arguments := JObj [] |} 0%Z) as (tl & Htl & Herror).
  - apply elem_of_cons. left. reflexivity.
  - reflexivity.
  - vm_compute in Htl. injection Htl as <-. exact Herror.
Defined.

Lemma executeToolCallsAsMessages_in_order_witness :
  exists messages,
    @executeToolCallsAsMessages Examples.bracesRuntime Examples.someTools 0
      eagerTimers (map WithFunction threeCalls) twoAtATime
    = Returned messages /\
    length messages = 3.
Proof.
  destruct (@executeToolCallsAsMessages_in_order Examples.bracesRuntime
              Examples.someTools 0 eagerTimers threeCalls twoAtATime)
    as (messages & Hrun & Hlen & _).
  - reflexivity.
  - cbn. lia.
  - exists messages. split; [exact Hrun|exact Hlen].
Defined.

End ExecutorOperationsFacts.


(** ** What a context window keeps                                        *)

Module ChatOperationsFacts.
Import ChatService ChatTerms ChatFacts ChatOperations.

Lemma tokens_fold (messages : list Message) (acc : Z) :
  fold_left (fun total msg => (total + estimateTokenCount (content msg) + 4)%Z)
    messages acc
  = (acc + tokensOf messages)%Z.
Proof.
  revert acc.
  induction messages as [|m rest IH]; intros acc;
    cbn [fold_left tokensOf foldr]; [lia|].
  rewrite IH. fold (tokensOf rest). unfold messageTokens. lia.
Qed.

Lemma calculateConversationTokens_sum messages :
  calculateConversationTokens messages = tokensOf messages.
Proof. unfold calculateConversationTokens. rewrite tokens_fold. lia. Qed.

Lemma tokensOf_app l1 l2 : tokensOf (l1 ++ l2) = (tokensOf l1 + tokensOf l2)%Z.
Proof.
  induction l1 as [|m l1 IH]; cbn [app tokensOf foldr]; [done|].
  fold (tokensOf (l1 ++ l2)) (tokensOf l1). rewrite IH. lia.
Qed.

Lemma messageTokens_positive m : (4 <= messageTokens m)%Z.
Proof. unfold messageTokens, estimateTokenCount. lia. Qed.

Lemma tokensOf_nonneg l : (0 <= tokensOf l)%Z.
Proof.
  induction l as [|m l IH]; cbn [tokensOf foldr]; [done|].
  fold (tokensOf l). pose proof (messageTokens_positive m). lia.
Qed.

(** The floor: as long as messages are left, fewer than [floor] kept
    messages never stop the loop. *)
Lemma keepNewest_floor reversed available floor result :
  floor `min` (length result + length reversed)
  <= length (keepNewest reversed available floor result).
Proof.
  revert available result.
  induction reversed as [|msg rest IH]; intros available result;
    cbn [keepNewest length].
  - lia.
  - destruct (_ || _) eqn:Hcond.
    + specialize (IH (available - (estimateTokenCount (content msg) + 4))%Z
                    (msg :: result)).
      cbn [length] in IH. lia.
    + apply orb_false_iff in Hcond as [_ Hfloor].
      apply Nat.ltb_ge in Hfloor. lia.
Qed.

(** The cap: what is kept beyond the floor was paid for. *)
Lemma keepNewest_cap reversed available floor result :
  let out := keepNewest reversed available floor result in
  floor < length out -> length result < length out ->
  (tokensOf out <= available + tokensOf result)%Z.
Proof.
  revert available result.
  induction reversed as [|msg rest IH]; intros available result out;
    subst out; cbn [keepNewest].
  - lia.
  - set (t := (estimateTokenCount (content msg) + 4)%Z).
    destruct (_ || _) eqn:Hcond; [|lia].
    intros Hfloor Hlen.
    destruct (decide (length (msg :: result)
                      < length (keepNewest rest (available - t) floor
                                  (msg :: result)))) as [Hmore|Hsame].
    + specialize (IH (available - t)%Z (msg :: result) Hfloor Hmore).
      cbn [tokensOf foldr] in IH. fold (tokensOf result) in IH.
      unfold messageTokens in IH. fold t in IH. lia.
    + destruct (keepNewest_extends rest (available - t) floor (msg :: result))
        as [extra Hextra].
      rewrite Hextra in Hsame, Hfloor |- *. rewrite length_app in Hsame, Hfloor.
      destruct extra; [|cbn in Hsame; lia].
      cbn [app length] in *. cbn [tokensOf foldr]. fold (tokensOf result).
      unfold messageTokens. fold t.
      apply orb_true_iff in Hcond as [Hfit|Hforced].
      * apply Z.leb_le in Hfit. lia.
      * apply Nat.ltb_lt in Hforced. lia.
Qed.

(** The anatomy of a [truncate-oldest] window. *)
Lemma oldest_window_anatomy messages budget floor keep :
  let sys := (setAside keep messages).1 in
  let working := (setAside keep messages).2 in
  let result := applyContextWindow messages (oldestWindow budget floor keep) in
  exists dropped kept,
    working = dropped ++ kept /\
    result = unshiftSystem sys kept /\
    ((calculateConversationTokens messages <= budget)%Z -> dropped = []) /\
    default DEFAULT_minMessages floor `min` length working <= length kept /\
    ((calculateConversationTokens result <= budget)%Z \/
     length kept <= default DEFAULT_minMessages floor).
Proof.
  intros sys working result. subst result.
  rewrite applyContextWindow_oldest_shape. fold sys working.
  pose proof (setAside_unshift keep messages) as Hmsgs. fold sys working in Hmsgs.
  destruct (Z.leb_spec (calculateConversationTokens messages) budget) as [Hin|Hover].
  - exists [], working. split; [reflexivity|]. split; [symmetry; exact Hmsgs|].
    split; [done|]. split; [lia|]. by left.
  - set (floor' := default DEFAULT_minMessages floor).
    set (kept := keepNewest (rev working) (reserveSystem sys budget) floor' []).
    destruct (keepNewest_within (rev working) (reserveSystem sys budget) floor' [])
      as [dropped Hdropped].
    rewrite app_nil_r, rev_involutive in Hdropped. fold kept in Hdropped.
    exists dropped, kept. split; [done|]. split; [done|]. split; [lia|].
    split.
    + pose proof (keepNewest_floor (rev working) (reserveSystem sys budget)
                    floor' []) as Hfloor.
      fold kept in Hfloor. rewrite length_rev in Hfloor. cbn in Hfloor. lia.
    + destruct (decide (length kept <= floor')) as [|Hmore]; [by right|left].
      pose proof (keepNewest_cap (rev working) (reserveSystem sys budget)
                    floor' []) as Hcap.
      cbv zeta in Hcap. fold kept in Hcap. cbn [length tokensOf foldr] in Hcap.
      rewrite calculateConversationTokens_sum.
      destruct sys as [s|]; cbn [unshiftSystem reserveSystem tokensOf foldr] in *.
      * fold (tokensOf kept). unfold messageTokens.
        assert (tokensOf kept <= budget - (estimateTokenCount (content s) + 4) + 0)%Z
          by (apply Hcap; lia).
        lia.
      * fold (tokensOf kept).
        assert (tokensOf kept <= budget + 0)%Z by (apply Hcap; lia). lia.
Qed.

Lemma applyContextWindow_oldest_like s messages budget floor keep :
  s <> Some truncate_middle ->
  applyContextWindow messages (windowOptions s budget floor keep)
  = applyContextWindow messages (oldestWindow budget floor keep).
Proof.
  intros Hs. unfold applyContextWindow, windowOptions, oldestWindow.
  cbn [maxTokens strategy minMessages keepSystemMessage].
  by destruct s as [[]|].
Qed.

(** X10: under [truncate-oldest], under [summarize] and under the default
    strategy a window is the input with one block of messages taken out:
    the system message that is set aside stays in front, the messages
    kept are the newest ones in their order, and what is dropped is the
    stretch of oldest messages between them.  Nothing is dropped when
    the input is within the budget. *)
Theorem window_drops_oldest_block (s : option WindowingStrategy)
    (messages : list Message) (budget : Z) (floor : option nat)
    (keep : option bool) :
  s <> Some truncate_middle ->
  exists front dropped kept,
    messages = front ++ dropped ++ kept /\
    applyContextWindow messages (windowOptions s budget floor keep)
      = front ++ kept /\
    front = unshiftSystem (setAside keep messages).1 [] /\
    ((calculateConversationTokens messages <= budget)%Z -> dropped = []).
Proof.
  intros Hs. rewrite applyContextWindow_oldest_like by done.
  destruct (oldest_window_anatomy messages budget floor keep)
    as (dropped & kept & Hworking & -> & Hnone & _).
  exists (unshiftSystem (setAside keep messages).1 []), dropped, kept.
  split; [|split; [|done]].
  - rewrite <- (setAside_unshift keep messages) at 1. rewrite Hworking.
    by destruct (setAside keep messages).1.
  - by destruct (setAside keep messages).1.
Qed.

Lemma window_drops_oldest_block_witness :
  exists front dropped kept,
    longChat = front ++ dropped ++ kept /\
    applyContextWindow longChat
      (windowOptions (Some summarize) 40 None None) = front ++ kept.
Proof.
  destruct (window_drops_oldest_block (Some summarize) longChat 40 None None)
    as (front & dropped & kept & Hin & Hout & _).
  - discriminate.
  - by exists front, dropped, kept.
Defined.

(** X11: the budget and the floor of a [truncate-oldest] window.  Beside
    the system message set aside, the window keeps at least [minMessages]
    messages, or all of them if there are fewer; and its estimated token
    count is within [maxTokens] unless no more than [minMessages]
    messages were kept: only the floor can push a window over budget. *)
Theorem window_floor_and_cap (messages : list Message) (budget : Z)
    (floor : option nat) (keep : option bool) :
  let result := applyContextWindow messages (oldestWindow budget floor keep) in
  let front := unshiftSystem (setAside keep messages).1 [] in
  let floor' := default DEFAULT_minMessages floor in
  floor' `min` (length messages - length front)
    <= length result - length front /\
  ((calculateConversationTokens result <= budget)%Z \/
   length result - length front <= floor').
Proof.
  intros result front floor'. subst result front floor'.
  destruct (oldest_window_anatomy messages budget floor keep)
    as (dropped & kept & Hworking & -> & _ & Hfloor & Hcap).
  pose proof (setAside_unshift keep messages) as Hmsgs.
  assert (length messages
          = length (unshiftSystem (setAside keep messages).1 [])
            + length (setAside keep messages).2) as Hlen.
  { rewrite <- Hmsgs at 1. by destruct (setAside keep messages).1. }
  assert (length (unshiftSystem (setAside keep messages).1 kept)
          = length (unshiftSystem (setAside keep messages).1 [])
            + length kept) as Hlen'
    by (by destruct (setAside keep messages).1).
  rewrite Hlen, Hlen'.
  replace (_ + length (setAside keep messages).2 - _)
    with (length (setAside keep messages).2) by lia.
  replace (_ + length kept - _) with (length kept) by lia.
  done.
Qed.

Lemma applyContextWindow_middle_shape messages budget floor keep :
  applyContextWindow messages
    (windowOptions (Some truncate_middle) budget floor keep) =
    if (calculateConversationTokens messages <=? budget)%Z then messages
    else truncateMiddle (setAside keep messages).1 (setAside keep messages).2
           budget (default DEFAULT_minMessages floor).
Proof.
  unfold applyContextWindow, windowOptions.
  cbn [maxTokens strategy minMessages keepSystemMessage default
       DEFAULT_strategy from_option id].
  destruct (_ <=? _)%Z; [done|].
  destruct messages as [|first rest]; [done|]. cbn [setAside].
  by destruct (_ && _).
Qed.

Lemma over_budget_working keep messages budget :
  (budget < calculateConversationTokens messages)%Z ->
  (reserveSystem (setAside keep messages).1 budget
   < tokensOf (setAside keep messages).2)%Z.
Proof.
  rewrite <- (setAside_unshift keep messages) at 1.
  rewrite calculateConversationTokens_sum.
  destruct (setAside keep messages).1 as [sys|];
    cbn [unshiftSystem reserveSystem tokensOf foldr];
    fold (tokensOf (setAside keep messages).2); unfold messageTokens; lia.
Qed.

(** X12: with [minMessages] 0 or 1 the strategy [truncate-middle] never
    elides the middle: the first and last messages it would keep already
    cover the whole list, so it gives what [truncate-oldest] gives. *)
Theorem truncate_middle_small_floor (messages : list Message) (budget : Z)
    (floor : option nat) (keep : option bool) :
  default DEFAULT_minMessages floor <= 1 ->
  applyContextWindow messages
    (windowOptions (Some truncate_middle) budget floor keep)
  = applyContextWindow messages (oldestWindow budget floor keep).
Proof.
  intros Hfloor.
  rewrite applyContextWindow_middle_shape, applyContextWindow_oldest_shape.
  destruct (Z.leb_spec (calculateConversationTokens messages) budget)
    as [|Hover]; [done|].
  apply (over_budget_working keep) in Hover.
  set (sys := (setAside keep messages).1) in *.
  set (working := (setAside keep messages).2) in *.
  set (m := default DEFAULT_minMessages floor) in *.
  unfold truncateMiddle.
  destruct (_ <=? _)%nat; [done|].
  rewrite tokens_fold, tokensOf_app.
  assert (tokensOf working
          <= tokensOf (take (if (m / 2 =? 0)%nat then 1 else m / 2) working)
             + tokensOf (sliceFrom
                 (- (Z.of_nat m
                     - Z.of_nat (if (m / 2 =? 0)%nat then 1 else m / 2)))
                 working))%Z as Hall.
  { destruct m as [|[|m]]; [| |lia].
    - change (- (Z.of_nat 0 - Z.of_nat (if (0 / 2 =? 0)%nat then 1 else 0 / 2)))%Z
        with 1%Z.
      change (if (0 / 2 =? 0)%nat then 1 else 0 / 2) with 1.
      unfold sliceFrom. cbn [Z.ltb Z.compare Z.to_nat Pos.to_nat Pos.iter_op Nat.add].
      rewrite <- tokensOf_app, take_drop. lia.
    - change (- (Z.of_nat 1 - Z.of_nat (if (1 / 2 =? 0)%nat then 1 else 1 / 2)))%Z
        with 0%Z.
      unfold sliceFrom. cbn [Z.ltb Z.compare Z.to_nat]. rewrite drop_0.
      pose proof (tokensOf_nonneg (take (if (1 / 2 =? 0)%nat then 1 else 1 / 2)
                                     working)).
      lia. }
  destruct (Z.ltb_spec (reserveSystem sys budget)
              (0 + (tokensOf (take (if (m / 2 =? 0)%nat then 1 else m / 2) working)
                    + tokensOf (sliceFrom
                        (- (Z.of_nat m
                            - Z.of_nat (if (m / 2 =? 0)%nat then 1 else m / 2)))
                        working)))); [done|lia].
Qed.

Lemma truncate_middle_small_floor_witness :
  applyContextWindow longChat
    (windowOptions (Some truncate_middle) 40 (Some 1) None)
  = applyContextWindow longChat (oldestWindow 40 (Some 1) None).
Proof. apply truncate_middle_small_floor. cbn. lia. Defined.

(** X13: when [truncate-middle] elides the middle (at least two messages
    to keep, more than twice as many at hand, and the first and last
    ones fit the budget), the window is the system message set aside,
    the first [floor(minMessages / 2)] working messages, one marker and
    the last [minMessages - floor(minMessages / 2)] ones.  The number in
    the marker is the number of messages left out, and the window may
    exceed the budget, by no more than the marker's own tokens. *)
Theorem truncate_middle_marker (messages : list Message) (budget : Z)
    (floor : option nat) (keep : option bool) :
  let sys := (setAside keep messages).1 in
  let working := (setAside keep messages).2 in
  let m := default DEFAULT_minMessages floor in
  let first := take (m / 2) working in
  let last := drop (length working - (m - m / 2)) working in
  let marker := truncatedMarker (Z.of_nat (length working - m)) in
  let result := applyContextWindow messages
                  (windowOptions (Some truncate_middle) budget floor keep) in
  (budget < calculateConversationTokens messages)%Z ->
  2 <= m -> 2 * m < length working ->
  (tokensOf (first ++ last) <= reserveSystem sys budget)%Z ->
  result = unshiftSystem sys (first ++ marker :: last) /\
  length first + length last + (length working - m) = length working /\
  (calculateConversationTokens result <= budget + messageTokens marker)%Z.
Proof.
  intros sys working m first last marker result Hover Hm Hlen Hfit.
  assert (m / 2 <> 0) as Hhalf.
  { intros Hzero. apply Nat.div_small_iff in Hzero; lia. }
  assert (m / 2 < m) as Hlt by (apply Nat.div_lt; lia).
  assert (result = unshiftSystem sys (first ++ marker :: last)) as Hresult.
  { subst result. rewrite applyContextWindow_middle_shape.
    destruct (Z.leb_spec (calculateConversationTokens messages) budget);
      [lia|].
    fold sys working m. unfold truncateMiddle.
    destruct (Nat.leb_spec (length working) (m * 2)); [lia|].
    destruct (Nat.eqb_spec (m / 2) 0); [done|].
    assert (sliceFrom (- (Z.of_nat m - Z.of_nat (m / 2))) working = last)
      as ->.
    { unfold sliceFrom.
      destruct (Z.ltb_spec (- (Z.of_nat m - Z.of_nat (m / 2))) 0); [|lia].
      subst last. f_equal. lia. }
    fold first. rewrite tokens_fold.
    destruct (Z.ltb_spec (reserveSystem sys budget)
                (0 + tokensOf (first ++ last))); [lia|].
    unfold marker, truncatedMarker.
    by replace (Z.of_nat (length working) - Z.of_nat (m / 2)
                - (Z.of_nat m - Z.of_nat (m / 2)))%Z
      with (Z.of_nat (length working - m)) by lia. }
  split; [exact Hresult|]. split.
  - subst first last. rewrite length_take, length_drop. lia.
  - rewrite Hresult, calculateConversationTokens_sum.
    assert (tokensOf (first ++ marker :: last)
            = (tokensOf (first ++ last) + messageTokens marker)%Z) as Hsum.
    { rewrite !tokensOf_app. cbn [tokensOf foldr]. fold (tokensOf last). lia. }
    destruct sys as [s|]; cbn [unshiftSystem reserveSystem tokensOf foldr] in *.
    + fold (tokensOf (first ++ marker :: last)). rewrite Hsum.
      unfold messageTokens at 1. lia.
    + fold (tokensOf (first ++ marker :: last)). lia.
Qed.

Lemma truncate_middle_marker_witness :
  applyContextWindow longChat
    (windowOptions (Some truncate_middle) 60 None None)
  = unshiftSystem (setAside None longChat).1
      (take 1 (setAside None longChat).2
       ++ truncatedMarker 4
       :: drop 5 (setAside None longChat).2).
Proof.
  apply (truncate_middle_marker longChat 60 None None); vm_compute;
    first [lia | discriminate | reflexivity].
Defined.

(** X14: a leading system message that is to be kept is the first
    message of the window under every strategy and every budget. *)
Theorem system_message_survives (s : option WindowingStrategy)
    (first : Message) (rest : list Message) (budget : Z)
    (floor : option nat) (keep : option bool) :
  role first = system ->
  default DEFAULT_keepSystemMessage keep = true ->
  head (applyContextWindow (first :: rest) (windowOptions s budget floor keep))
  = Some first.
Proof.
  intros Hrole Hkeep.
  assert (setAside keep (first :: rest) = (Some first, rest)) as Haside.
  { cbn [setAside]. rewrite Hkeep. by rewrite bool_decide_eq_true_2. }
  assert (s = Some truncate_middle \/ s <> Some truncate_middle) as [->|Hs]
    by (destruct s as [[]|]; (by left) || (by right)).
  - rewrite applyContextWindow_middle_shape, Haside. cbn [fst snd].
    destruct (_ <=? _)%Z; [done|].
    unfold truncateMiddle, truncateOldest.
    by repeat (destruct (_ <=? _)%nat || destruct (_ <? _)%Z).
  - rewrite applyContextWindow_oldest_like, applyContextWindow_oldest_shape,
      Haside by done.
    by destruct (_ <=? _)%Z.
Qed.

Lemma system_message_survives_witness :
  head (applyContextWindow longChat
          (windowOptions (Some truncate_middle) 0 None None))
  = head longChat.
Proof.
  apply (system_message_survives (Some truncate_middle)); reflexivity.
Defined.

(** X15: [prepareMessagesForRequest] always sends the system prompt
    first, followed by the newest messages of the conversation in their
    order: at least two of them (all, if there are fewer), and within
    the budget unless no more than two are sent. *)
Theorem prepareMessagesForRequest_window (systemPrompt : string)
    (conversation : list Message) (maxTokens : option Z) :
  exists kept,
    prepareMessagesForRequest systemPrompt conversation maxTokens
      = {| role := system; content := systemPrompt;
           msg_name := None; tool_call_id := None |} :: kept /\
    kept `suffix_of` conversation /\
    2 `min` length conversation <= length kept /\
    ((calculateConversationTokens
        (prepareMessagesForRequest systemPrompt conversation maxTokens)
      <= default 4096 maxTokens)%Z \/
     length kept <= 2).
Proof.
  set (prompt := {| role := system; content := systemPrompt;
                    msg_name := None; tool_call_id := None |}).
  destruct (oldest_window_anatomy (prompt :: conversation)
              (default 4096%Z maxTokens) None (Some true))
    as (dropped & kept & Hworking & Hresult & _ & Hfloor & Hcap).
  change (setAside (Some true) (prompt :: conversation))
    with (Some prompt, conversation) in *.
  cbn [fst snd unshiftSystem] in *.
  change (applyContextWindow (prompt :: conversation)
            (oldestWindow (default 4096%Z maxTokens) None (Some true)))
    with (prepareMessagesForRequest systemPrompt conversation maxTokens) in *.
  exists kept. split; [exact Hresult|]. split; [by exists dropped|].
  split; [exact Hfloor|exact Hcap].
Qed.

Lemma length_prefix (n : nat) (text : string) :
  String.length (String.substring 0 n text) = n `min` String.length text.
Proof.
  revert n. induction text as [|c text IH]; intros [|n];
    cbn [String.substring String.length]; try done.
  rewrite IH. lia.
Qed.

Lemma length_append (s1 s2 : string) :
  String.length (s1 +:+ s2) = String.length s1 + String.length s2.
Proof.
  induction s1 as [|c s1 IH]; [done|].
  change (S (String.length (s1 +:+ s2)) = S (String.length s1) + String.length s2).
  by rewrite IH.
Qed.

Lemma length_sliceTo (stop : Z) (text : string) :
  Z.of_nat (String.length (sliceTo stop text)) =
    if (stop <? 0)%Z then Z.max (Z.of_nat (String.length text) + stop) 0
    else Z.min stop (Z.of_nat (String.length text)).
Proof.
  unfold sliceTo. rewrite length_prefix. destruct (stop <? 0)%Z eqn:Hneg; lia.
Qed.

Section Titles.
Variable trim : string -> string.

(** X16: for a limit of at least 3 the title of a chat that has a user
    message is never longer than the limit: it is the trimmed text of
    the first user message when that fits, and otherwise the first
    [maxLength - 3] characters of that text followed by three dots,
    [maxLength] characters in all. *)
Theorem generateTitle_within_limit (messages : list Message)
    (maxLength : Z) (firstUser : Message) :
  (3 <= maxLength)%Z ->
  List.find (fun m => bool_decide (role m = user)) messages = Some firstUser ->
  let text := trim (content firstUser) in
  let title := generateTitle trim messages (Some maxLength) in
  (Z.of_nat (String.length title) <= maxLength)%Z /\
  ((Z.of_nat (String.length text) <= maxLength)%Z -> title = text) /\
  ((maxLength < Z.of_nat (String.length text))%Z ->
   title = String.substring 0 (Z.to_nat (maxLength - 3)) text +:+ "..." /\
   String.length (String.substring 0 (Z.to_nat (maxLength - 3)) text)
     = Z.to_nat (maxLength - 3) /\
   Z.of_nat (String.length title) = maxLength).
Proof.
  intros Hlimit Hfind text title. subst title.
  unfold generateTitle. rewrite Hfind. cbn [default from_option id].
  fold text.
  destruct (Z.leb_spec (Z.of_nat (String.length text)) maxLength) as [Hfits|Hlong].
  - split; [done|]. split; [done|lia].
  - assert (sliceTo (maxLength - 3) text
            = String.substring 0 (Z.to_nat (maxLength - 3)) text) as ->.
    { unfold sliceTo. destruct (Z.ltb_spec (maxLength - 3) 0); [lia|].
      f_equal. lia. }
    assert (String.length (String.substring 0 (Z.to_nat (maxLength - 3)) text)
            = Z.to_nat (maxLength - 3)) as Hfirst
      by (rewrite length_prefix; lia).
    assert (Z.of_nat (String.length
                        (String.substring 0 (Z.to_nat (maxLength - 3)) text
                         +:+ "..."))
            = maxLength) as Hlen.
    { rewrite length_append, Hfirst. cbn [String.length]. lia. }
    split; [lia|]. split; [lia|done].
Qed.

(** X17: for a limit below 3 the shortening backfires: [maxLength - 3]
    is negative, so [slice] counts from the end of the text, and a text
    longer than the limit gets a title that is longer than the limit
    too (and, for a limit of 1 or 2, longer than the text itself). *)
Theorem generateTitle_small_limit (messages : list Message)
    (maxLength : Z) (firstUser : Message) :
  (0 <= maxLength < 3)%Z ->
  List.find (fun m => bool_decide (role m = user)) messages = Some firstUser ->
  let text := trim (content firstUser) in
  let title := generateTitle trim messages (Some maxLength) in
  (maxLength < Z.of_nat (String.length text))%Z ->
  Z.of_nat (String.length title)
    = (Z.max (Z.of_nat (String.length text) + maxLength - 3) 0 + 3)%Z /\
  (maxLength < Z.of_nat (String.length title))%Z.
Proof.
  intros Hlimit Hfind text title Hlong. subst title.
  unfold generateTitle. rewrite Hfind. cbn [default from_option id].
  fold text.
  destruct (Z.leb_spec (Z.of_nat (String.length text)) maxLength); [lia|].
  rewrite length_append, Nat2Z.inj_add, length_sliceTo.
  destruct (Z.ltb_spec (maxLength - 3) 0); [|lia]. cbn [String.length]. lia.
Qed.

End Titles.

Lemma generateTitle_within_limit_witness :
  generateTitle id longChat (Some 10%Z) = "Tell me" +:+ "...".
Proof.
  destruct (generateTitle_within_limit id longChat 10
              {| role := user; content := "Tell me about the tamarin.";
                 msg_name := None; tool_call_id := None |})
    as (_ & _ & Hlong); [lia|reflexivity|].
  destruct Hlong as [Htitle _]; [vm_compute; reflexivity|exact Htitle].
Defined.

Lemma generateTitle_small_limit_witness :
  (2 < Z.of_nat (String.length (generateTitle id longChat (Some 2%Z))))%Z.
Proof.
  destruct (generateTitle_small_limit id longChat 2
              {| role := user; content := "Tell me about the tamarin.";
                 msg_name := None; tool_call_id := None |})
    as [_ Hlength]; [lia|reflexivity|vm_compute; reflexivity|exact Hlength].
Defined.

End ChatOperationsFacts.

(** ** What every run keeps                                               *)

Module RunFacts.
Import Orchestrator OrchestratorTerms OrchestratorFacts RunTerms.

Section Stepwise.
Context `{Runtime} (R : Trace) (HR : Stepwise R).

Lemma keeps_ret {A} (a : A) : keeps R (ret a).
Proof. intros run. apply (sw_refl R HR). Qed.

Lemma keeps_getRun : keeps R getRun.
Proof. intros run. apply (sw_refl R HR). Qed.

Lemma keeps_raise {A} e : keeps R (@raise A e).
Proof. intros run. apply (sw_refl R HR). Qed.

Lemma keeps_stuck {A} : keeps R (@stuck A).
Proof. intros run. apply (sw_refl R HR). Qed.

Lemma keeps_bind {A B} (m : Gen A) (k : A -> Gen B) :
  keeps R m -> (forall a, keeps R (k a)) -> keeps R (bind m k).
Proof.
  intros Hm Hk run. unfold bind. specialize (Hm run).
  destruct (m run) as [[r run1] ev1]. destruct r as [a| |]; [|done|done].
  specialize (Hk a run1). destruct (k a run1) as [[r2 run2] ev2].
  by eapply (sw_trans R HR).
Qed.

(** Code that follows a statement that throws is not reached. *)
Lemma keeps_bind_raise {A B} e (k : A -> Gen B) : keeps R (bind (raise e) k).
Proof. intros run. apply (sw_refl R HR). Qed.

Lemma keeps_tryCatch {A} (body : Gen A) (handler : Thrown -> Gen A) :
  keeps R body -> (forall e, keeps R (handler e)) ->
  keeps R (tryCatch body handler).
Proof.
  intros Hm Hk run. unfold tryCatch. specialize (Hm run).
  destruct (body run) as [[r run1] ev1]. destruct r as [a|e|]; [done| |done].
  specialize (Hk e run1). destruct (handler e run1) as [[r2 run2] ev2].
  by eapply (sw_trans R HR).
Qed.

Lemma keeps_if {A} (b : bool) (m1 m2 : Gen A) :
  keeps R m1 -> keeps R m2 -> keeps R (if b then m1 else m2).
Proof. by destruct b. Qed.

Lemma keeps_modify f : (forall run, R run [] (f run)) -> keeps R (modify f).
Proof. intros Hf run. apply Hf. Qed.

Lemma keeps_yield e : (forall run, R run [e] run) -> keeps R (yield e).
Proof. intros He run. apply He. Qed.

Lemma keeps_createStatusEvent s : keeps R (createStatusEvent s).
Proof.
  intros run. change (R run ([] ++ [StatusEvent s]) (setStatus s run)).
  eapply (sw_trans R HR); [apply (sw_status R HR)|apply (sw_status_event R HR)].
Qed.

Lemma keeps_createStepEvent type text tname targs tresult err :
  type <> tool_result ->
  keeps R (createStepEvent type text tname targs tresult err).
Proof. intros Htype run. by apply (sw_step R HR). Qed.

Lemma keeps_pushMessage m : keeps R (pushMessage m).
Proof. intros run. apply (sw_push R HR). Qed.

Lemma keeps_contentEvents ds run : R run (contentEvents ds) run.
Proof.
  induction ds as [|d rest IH]; cbn [contentEvents]; [apply (sw_refl R HR)|].
  destruct (delta_content d) as [[|c text]|]; try exact IH.
  change (R run ([ContentEvent (String c text)] ++ contentEvents rest) run).
  eapply (sw_trans R HR); [apply (sw_content_event R HR)|exact IH].
Qed.

Lemma keeps_readStream ds acc msg : keeps R (readStream ds acc msg).
Proof. intros run. rewrite readStream_spec. apply keeps_contentEvents. Qed.

Lemma keeps_parseOrThrow text : keeps R (parseOrThrow text).
Proof.
  unfold parseOrThrow. destruct (JSON_parse text); [apply keeps_ret|apply keeps_raise].
Qed.

Create HintDb keeps.

#[local] Hint Resolve keeps_ret keeps_getRun keeps_raise keeps_stuck
  keeps_createStatusEvent keeps_pushMessage keeps_readStream
  keeps_parseOrThrow : keeps.

(** Follows the structure of the code. *)
Ltac keeps_steps :=
  repeat first
    [ apply keeps_createStepEvent; discriminate
    | solve [auto with keeps]
    | apply keeps_bind; [|intros ?]
    | apply keeps_if
    | apply keeps_tryCatch; [|intros ?]
    | apply keeps_modify; intros ?;
      first [ apply (sw_status R HR) | apply (sw_error R HR)
            | apply (sw_output R HR) | apply (sw_turn R HR)
            | apply (sw_total R HR) | apply (sw_limit R HR) ]
    | apply keeps_yield; intros ?;
      first [ apply (sw_tool_call_event R HR) ] ].

Lemma keeps_executeOneTool w agent toolCall :
  keeps R (executeOneTool w agent toolCall).
Proof.
  unfold executeOneTool.
  apply keeps_bind; [auto with keeps|]. intros args.
  apply keeps_bind; [keeps_steps|]. intros ?.
  apply keeps_bind; [keeps_steps|]. intros ?.
  apply keeps_tryCatch.
  - apply keeps_bind; [auto with keeps|]. intros args'.
    rewrite executeToolCalls_without_function. cbn [awaitCompletion].
    apply keeps_bind_raise.
  - intros e. keeps_steps.
Qed.

Lemma keeps_executeTools w agent toolCalls :
  keeps R (executeTools w agent toolCalls).
Proof.
  induction toolCalls as [|toolCall rest IH]; cbn [executeTools].
  - auto with keeps.
  - apply keeps_bind; [apply keeps_executeOneTool|]. intros returned.
    destruct returned; [auto with keeps|exact IH].
Qed.

Lemma keeps_modelTurn w agent : keeps R (modelTurn w agent).
Proof.
  unfold modelTurn.
  apply keeps_bind; [auto with keeps|]. intros run.
  apply keeps_bind; [auto with keeps|]. intros read.
  destruct (failure _); [auto with keeps|].
  apply keeps_bind; [auto with keeps|]. intros ?.
  apply keeps_if.
  - apply keeps_bind; [keeps_steps|]. intros ?.
    apply keeps_bind; [keeps_steps|]. intros ?.
    apply keeps_bind; [keeps_steps|]. intros ?.
    apply keeps_bind; [apply keeps_executeTools|]. intros ?.
    keeps_steps.
  - keeps_steps.
Qed.

Lemma keeps_iteration w agent : keeps R (iteration w agent).
Proof.
  unfold iteration.
  apply keeps_bind; [auto with keeps|]. intros run.
  apply keeps_if; [keeps_steps|].
  apply keeps_bind; [keeps_steps|]. intros ?.
  apply keeps_bind; [auto with keeps|]. intros run'.
  apply keeps_bind; [keeps_steps|]. intros ?.
  apply keeps_tryCatch; [apply keeps_modelTurn|]. intros e. keeps_steps.
Qed.

Lemma keeps_whileTurns fuel w agent : keeps R (whileTurns fuel w agent).
Proof.
  induction fuel as [|fuel IH]; cbn [whileTurns].
  - keeps_steps.
  - apply keeps_bind; [auto with keeps|]. intros run.
    apply keeps_if; [|auto with keeps].
    apply keeps_bind; [apply keeps_iteration|]. intros ctl.
    destruct ctl; [exact IH|auto with keeps..].
Qed.

Lemma keeps_maxTurnsReached : keeps R maxTurnsReached.
Proof. unfold maxTurnsReached. keeps_steps. Qed.

Lemma keeps_executeAgentLoop w context : keeps R (executeAgentLoop w context).
Proof.
  unfold executeAgentLoop.
  apply keeps_bind; [auto with keeps|]. intros run.
  apply keeps_bind; [apply keeps_whileTurns|]. intros returned.
  destruct returned; [auto with keeps|apply keeps_maxTurnsReached].
Qed.

(** The two ways [runAgent] ends: refused, with one error event, or
    through the loop, between the status event and the done event. *)
Lemma runAgent_cases o w agentId request :
  (exists msg, runAgent o w agentId request = ([ErrorEvent msg], o)) \/
  exists agent ev run,
    agents o !! agentId = Some agent /\
    (runAgent o w agentId request).1
      = StatusEvent executing :: ev ++ [DoneEvent run] /\
    executeAgentLoop w (entryContext agent request)
      (entryRun w agent agentId request) = (Ok tt, run, ev).
Proof.
  destruct (preconditions_decided o w agentId request)
    as [Hfails|(agent & Hagent & Hsize & Hserver & Hmodel)].
  - left. destruct (runAgentWith_refused o w agentId request Hfails)
      as (msg & _ & Hrun).
    exists msg. apply Hrun.
  - right. unfold runAgent.
    rewrite (runAgentWith_started _ o w agentId request agent) by done.
    cbv zeta.
    pose proof (executeAgentLoop_spec w (entryContext agent request)
                  (entryRun w agent agentId request)) as Hloop.
    cbv zeta in Hloop. destruct Hloop as (Hok & _); [cbn; lia|].
    destruct (executeAgentLoop _ _ _) as [[r run] ev] eqn:Hrun.
    destruct r as [[]| |]; [|done|done].
    exists agent, ev, run. split; [exact Hagent|]. split; [reflexivity|exact Hrun].
Qed.

End Stepwise.

Lemma stepEvents_app e1 e2 :
  stepEvents (e1 ++ e2) = stepEvents e1 ++ stepEvents e2.
Proof. apply omap_app. Qed.

Lemma Logged_stepwise : Stepwise Logged.
Proof.
  split; unfold Logged; intros;
    try (cbn; rewrite ?app_nil_r; split; reflexivity).
  - destruct H as [Hb Hb'], H0 as [Hc Hc'].
    rewrite stepEvents_app, Hc, Hb, <- app_assoc. split; [done|].
    rewrite map_app, length_app, seq_app, Hb'. f_equal.
    by rewrite Hc', Hb, length_app.
Qed.

Lemma NoToolResult_stepwise : Stepwise NoToolResult.
Proof.
  split; unfold NoToolResult; intros;
    try (cbn; split; [by repeat constructor|done]).
  - destruct H as [He1 Hb], H0 as [He2 Hc].
    split; [by apply Forall_app|auto].
  - cbn. split; [by repeat constructor|].
    intros Hsteps. apply Forall_app. split; [done|]. by repeat constructor.
Qed.

Lemma outline_limitLastToolCalls calls l :
  map outline (limitLastToolCalls calls l) = map outline l.
Proof.
  unfold limitLastToolCalls. destruct (last l) as [m|] eqn:Hlast; [|done].
  apply last_Some in Hlast as [front ->].
  by rewrite removelast_last, !map_app.
Qed.

Lemma Grows_stepwise : Stepwise Grows.
Proof.
  split; unfold Grows; intros; try (cbn; reflexivity).
  - by etrans.
  - cbn. rewrite map_app. by apply prefix_app_r.
  - cbn. by rewrite outline_limitLastToolCalls.
Qed.

Section Runs.
Context `{Runtime}.

(** X18: the steps of a finished run are an exact record of its [step]
    events: [run.steps] of the run carried by the [done] event lists the
    steps of the [step] events in the order they were yielded, and the
    [index] of each is its position in that list.  (The steps inside
    [tool_call] events are not among them: their index is always 0.) *)
Theorem runAgent_steps_logged (o : AgentOrchestrator) (w : World)
    (agentId : string) (request : RunAgentRequest) (run : AgentRun) :
  finalRun (runAgent o w agentId request).1 = Some run ->
  steps run = stepEvents (runAgent o w agentId request).1 /\
  map index (steps run) = seq 0 (length (steps run)).
Proof.
  intros Hfinal.
  destruct (runAgent_cases o w agentId request)
    as [[msg Hrefused]|(agent & ev & run' & _ & Hevents & Hloop)].
  { by rewrite Hrefused in Hfinal. }
  rewrite Hevents in Hfinal |- *.
  rewrite app_comm_cons, finalRun_done in Hfinal. injection Hfinal as <-.
  pose proof (keeps_executeAgentLoop Logged Logged_stepwise w
                (entryContext agent request)
                (entryRun w agent agentId request)) as [Hsteps Hindex].
  rewrite Hloop in Hsteps, Hindex. cbn [fst snd entryRun steps setStatus
    setMessages initialRun app length] in Hsteps, Hindex.
  change (stepEvents (StatusEvent executing :: ev ++ [DoneEvent run']))
    with (stepEvents (ev ++ [DoneEvent run'])).
  rewrite stepEvents_app. change (stepEvents [DoneEvent run']) with (@nil AgentStep).
  rewrite app_nil_r. split; [exact Hsteps|]. by rewrite Hsteps.
Qed.

(** X19: no run reports the result of a tool.  Whatever the model
    answers and whatever the registry holds, [runAgent] yields no
    [tool_result] event and no step of type [tool_result], and the run of
    the [done] event has no such step: the executor rejects the parsed
    call the orchestrator hands it, so each tool call ends in the
    [catch] block of [executeTools]. *)
Theorem runAgent_reports_no_tool_result (o : AgentOrchestrator) (w : World)
    (agentId : string) (request : RunAgentRequest) :
  Forall reportsNoResult (runAgent o w agentId request).1.
Proof.
  destruct (runAgent_cases o w agentId request)
    as [[msg ->]|(agent & ev & run' & _ & -> & Hloop)].
  { by repeat constructor. }
  pose proof (keeps_executeAgentLoop NoToolResult NoToolResult_stepwise w
                (entryContext agent request)
                (entryRun w agent agentId request)) as [Hevents Hsteps].
  rewrite Hloop in Hevents, Hsteps. cbn [fst snd] in Hevents, Hsteps.
  constructor; [exact I|]. apply Forall_app. split; [exact Hevents|].
  repeat constructor. apply Hsteps. constructor.
Qed.

(** X20: the history of a run only grows.  The messages the run starts
    from (the system prompt of the agent, the context messages of the
    request and the user's input) are the first messages of the run of
    the [done] event, in that order and with role, content, name and
    [tool_call_id] unchanged. *)
Theorem runAgent_history_grows (o : AgentOrchestrator) (w : World)
    (agentId : string) (request : RunAgentRequest) (agent : AgentDefinition)
    (run : AgentRun) :
  agents o !! agentId = Some agent ->
  finalRun (runAgent o w agentId request).1 = Some run ->
  map outline (initialMessages agent request)
    `prefix_of` map outline (messages run).
Proof.
  intros Hagent Hfinal.
  destruct (runAgent_cases o w agentId request)
    as [[msg Hrefused]|(agent' & ev & run' & Hagent' & Hevents & Hloop)].
  { by rewrite Hrefused in Hfinal. }
  rewrite Hevents in Hfinal.
  rewrite app_comm_cons, finalRun_done in Hfinal. injection Hfinal as <-.
  assert (agent' = agent) as -> by congruence.
  pose proof (keeps_executeAgentLoop Grows Grows_stepwise w
                (entryContext agent request)
                (entryRun w agent agentId request)) as Hgrows.
  unfold Grows in Hgrows. by rewrite Hloop in Hgrows.
Qed.

End Runs.

Section Registry.
Context `{Runtime}.

Lemma bind_ext {A B} (m m' : Gen A) (k k' : A -> Gen B) :
  (forall run, m run = m' run) ->
  (forall a run, k a run = k' a run) ->
  forall run, bind m k run = bind m' k' run.
Proof.
  intros Hm Hk run. unfold bind. rewrite Hm.
  destruct (m' run) as [[[a| |] run1] ev1]; [|done|done]. by rewrite Hk.
Qed.

Lemma tryCatch_ext {A} (m m' : Gen A) (k k' : Thrown -> Gen A) :
  (forall run, m run = m' run) ->
  (forall e run, k e run = k' e run) ->
  forall run, tryCatch m k run = tryCatch m' k' run.
Proof.
  intros Hm Hk run. unfold tryCatch. rewrite Hm.
  destruct (m' run) as [[[a|e|] run1] ev1]; [done| |done]. by rewrite Hk.
Qed.

Lemma executeTools_registry tools w agent toolCalls run :
  executeTools (withRegistry tools w) agent toolCalls run
  = executeTools w agent toolCalls run.
Proof.
  revert run. induction toolCalls as [|toolCall rest IH]; intros run; [done|].
  cbn [executeTools]. apply bind_ext; [done|].
  intros [] run'; [done|apply IH].
Qed.

Lemma modelTurn_registry tools w agent run :
  modelTurn (withRegistry tools w) agent run = modelTurn w agent run.
Proof.
  unfold modelTurn. cbn [withRegistry modelResponse].
  apply bind_ext; [done|]. intros run0 run1.
  apply bind_ext; [done|]. intros read run2.
  destruct (failure _); [done|].
  apply bind_ext; [done|]. intros ? run3.
  destruct (hasToolCalls _); [|done].
  apply bind_ext; [done|]. intros ? run4.
  apply bind_ext; [done|]. intros ? run5.
  apply bind_ext; [done|]. intros ? run6.
  apply bind_ext; [apply executeTools_registry|done].
Qed.

Lemma iteration_registry tools w agent run :
  iteration (withRegistry tools w) agent run = iteration w agent run.
Proof.
  unfold iteration. cbn [withRegistry aborted].
  apply bind_ext; [done|]. intros run0 run1.
  destruct (aborted w _); [done|].
  apply bind_ext; [done|]. intros ? run2.
  apply bind_ext; [done|]. intros ? run3.
  apply bind_ext; [done|]. intros ? run4.
  apply tryCatch_ext; [apply modelTurn_registry|done].
Qed.

Lemma whileTurns_registry tools fuel w agent run :
  whileTurns fuel (withRegistry tools w) agent run = whileTurns fuel w agent run.
Proof.
  revert run. induction fuel as [|fuel IH]; intros run; [done|].
  cbn [whileTurns]. apply bind_ext; [done|]. intros run0 run1.
  destruct (belowLimit _ _); [|done].
  apply bind_ext; [apply iteration_registry|].
  intros [] run2; [apply IH|done..].
Qed.

Lemma executeAgentLoop_registry tools w context run :
  executeAgentLoop (withRegistry tools w) context run
  = executeAgentLoop w context run.
Proof.
  unfold executeAgentLoop.
  apply bind_ext; [done|]. intros run0 run1.
  apply bind_ext; [apply whileTurns_registry|done].
Qed.

(** X21: the tools of the registry have no part in a run.  For the same
    answers of the model, [runAgent] yields the same events and leaves
    the same orchestrator with any other registry in place: the handlers
    are never reached, since each call the orchestrator hands the
    executor is rejected before the registry is consulted.  (The tool
    definitions sent with a request are the only way of the registry
    into a run, through what the model answers.) *)
Theorem runAgent_ignores_registry (tools : Tools) (o : AgentOrchestrator)
    (w : World) (agentId : string) (request : RunAgentRequest) :
  runAgent o (withRegistry tools w) agentId request
  = runAgent o w agentId request.
Proof.
  unfold runAgent, runAgentWith. cbn [withRegistry servers nanoid].
  destruct (agents o !! agentId) as [agent|]; [|done].
  destruct (_ <=? _)%nat; [done|].
  destruct (negb _); [done|].
  destruct (resolveModel agent request) as [|c model]; [done|].
  cbv zeta.
  rewrite (bind_ext _ _ _ _ (fun run => eq_refl)
             (fun _ => bind_ext _ _ _ _ (fun run => eq_refl)
                (fun _ run =>
                   executeAgentLoop_registry tools w _ run))).
  reflexivity.
Qed.

End Registry.

Section Failures.
Context `{Runtime}.

Lemma bind_getRun {B} (k : AgentRun -> Gen B) run :
  bind getRun k run = k run run.
Proof. unfold bind, getRun. by destruct (k run run) as [[? ?] ?]. Qed.






End Failures.

Section Status.
Context `{Runtime}.

Lemma triple_bind {A B} P (m : Gen A) Q1 (k : A -> Gen B) Q E :
  triple P m Q1 E -> (forall a, triple (Q1 a) (k a) Q E) ->
  triple P (bind m k) Q E.
Proof.
  intros Hm Hk run HP. specialize (Hm run HP). unfold bind.
  destruct (m run) as [[r run1] ev1]. destruct r as [a| |]; [|done|done].
  specialize (Hk a run1 Hm). by destruct (k a run1) as [[r2 run2] ev2].
Qed.

Lemma triple_tryCatch {A} P (body : Gen A) E1 (handler : Thrown -> Gen A) Q E :
  triple P body Q E1 -> (forall e, triple E1 (handler e) Q E) ->
  triple P (tryCatch body handler) Q E.
Proof.
  intros Hm Hk run HP. specialize (Hm run HP). unfold tryCatch.
  destruct (body run) as [[r run1] ev1]. destruct r as [a|e|]; [done| |done].
  specialize (Hk e run1 Hm). by destruct (handler e run1) as [[r2 run2] ev2].
Qed.

(** Statements that assign neither [status], [output] nor [error]. *)
Ltac unchanged := intros ? ?; assumption.

Lemma underway_parseOrThrow text :
  triple Underway (parseOrThrow text) (fun _ => Underway) Underway.
Proof. unfold parseOrThrow. destruct (JSON_parse text); unchanged. Qed.

Lemma underway_readStream ds acc msg :
  triple Underway (readStream ds acc msg) (fun _ => Underway) Underway.
Proof. intros run HP. by rewrite readStream_spec. Qed.

(** Marking the run as failed sets its error. *)
Lemma underway_failed {A} (text : string) (a : A) :
  triple Underway
    (modify (setStatus failed);; modify (setError (Some text));; ret a)
    (fun _ => Underway) Underway.
Proof.
  intros run (Hout & _ & _). cbn. split; [exact Hout|]. split; [done|].
  by eexists.
Qed.

Lemma finished_failed (text : string) :
  triple Underway
    (modify (setStatus failed);; modify (setError (Some text));; ret Return)
    afterIteration Underway.
Proof.
  intros run (Hout & _ & _). cbn. split; [by right; left|]. split.
  - cbn. rewrite Hout. split; [by intros [? ?]|done].
  - by eexists.
Qed.

Lemma underway_executeOneTool w agent toolCall :
  triple Underway (executeOneTool w agent toolCall)
    (fun _ => Underway) Underway.
Proof.
  unfold executeOneTool.
  eapply triple_bind; [apply underway_parseOrThrow|]. intros args.
  apply (triple_bind _ _ (fun _ => Underway)); [unchanged|]. intros ?.
  apply (triple_bind _ _ (fun _ => Underway)); [unchanged|]. intros ?.
  apply (triple_tryCatch _ _ Underway).
  - eapply triple_bind; [apply underway_parseOrThrow|]. intros args'.
    rewrite executeToolCalls_without_function. unchanged.
  - intros e.
    apply (triple_bind _ _ (fun _ => Underway)); [unchanged|]. intros ?.
    apply (triple_bind _ _ (fun _ => Underway)); [unchanged|]. intros ?.
    destruct (stopOnError (behavior agent));
      [apply underway_failed|unchanged].
Qed.

Lemma underway_executeTools w agent toolCalls :
  triple Underway (executeTools w agent toolCalls)
    (fun _ => Underway) Underway.
Proof.
  induction toolCalls as [|toolCall rest IH]; cbn [executeTools].
  - unchanged.
  - eapply triple_bind; [apply underway_executeOneTool|].
    intros []; [unchanged|exact IH].
Qed.

Lemma modelTurn_triple w agent :
  triple Underway (modelTurn w agent) afterIteration Underway.
Proof.
  unfold modelTurn.
  apply (triple_bind _ _ (fun _ => Underway)); [unchanged|]. intros run0.
  eapply triple_bind; [apply underway_readStream|]. intros read.
  destruct (failure _); [unchanged|].
  apply (triple_bind _ _ (fun _ => Underway)); [unchanged|]. intros ?.
  destruct (hasToolCalls _).
  - apply (triple_bind _ _ (fun _ => Underway)); [unchanged|]. intros ?.
    apply (triple_bind _ _ (fun _ => Underway));
      [destruct (_ <? _)%nat; unchanged|]. intros ?.
    apply (triple_bind _ _ (fun _ => Underway)).
    { destruct (requireConfirmation _); [|unchanged].
      intros run (Hout & _ & _). cbn. by split. }
    intros ?.
    eapply triple_bind; [apply underway_executeTools|]. intros ?.
    destruct (negb _); unchanged.
  - intros run (Hout & _ & _). cbn. split; [by left|]. split; [|done].
    cbn. split; [done|by eexists].
Qed.

Lemma iteration_triple w agent :
  triple Underway (iteration w agent) afterIteration Underway.
Proof.
  unfold iteration.
  apply (triple_bind _ _ (fun _ => Underway)); [unchanged|]. intros run0.
  destruct (aborted w _).
  - intros run (Hout & _ & _). cbn. split; [by right; right|]. split; [|done].
    cbn. rewrite Hout. split; [by intros [? ?]|done].
  - apply (triple_bind _ _ (fun _ => Underway)); [unchanged|]. intros ?.
    apply (triple_bind _ _ (fun _ => Underway)); [unchanged|]. intros ?.
    apply (triple_bind _ _ (fun _ => Underway)); [unchanged|]. intros ?.
    apply (triple_tryCatch _ _ Underway); [apply modelTurn_triple|].
    intros e.
    apply (triple_bind _ _ (fun _ => Underway)); [unchanged|]. intros ?.
    destruct (stopOnError (behavior agent));
      [apply finished_failed|unchanged].
Qed.

Lemma whileTurns_triple fuel w agent :
  triple Underway (whileTurns fuel w agent) afterLoop Underway.
Proof.
  induction fuel as [|fuel IH]; cbn [whileTurns].
  - apply (triple_bind _ _ (fun _ => Underway)); [unchanged|]. intros run0.
    destruct (belowLimit _ _); [done|unchanged].
  - apply (triple_bind _ _ (fun _ => Underway)); [unchanged|]. intros run0.
    destruct (belowLimit _ _); [|unchanged].
    eapply triple_bind; [apply iteration_triple|].
    intros []; [exact IH|unchanged..].
Qed.

Lemma maxTurnsReached_triple :
  triple Underway maxTurnsReached (fun _ => Finished) Underway.
Proof.
  intros run (Hout & Hstatus & Herror). unfold maxTurnsReached.
  rewrite bind_getRun. repeat case_bool_decide; cbn.
  - split; [by left|]. split; [|done]. cbn. split; [done|by eexists].
  - assert (status run = failed) as Hfailed
      by (by destruct (decide (status run = failed))).
    split; [by right; left|]. split; [|done].
    rewrite Hout, Hfailed. split; [by intros [? ?]|done].
  - done.
  - done.
Qed.

Lemma executeAgentLoop_triple w context :
  triple Underway (executeAgentLoop w context) (fun _ => Finished) Underway.
Proof.
  unfold executeAgentLoop.
  apply (triple_bind _ _ (fun _ => Underway)); [unchanged|]. intros run0.
  eapply triple_bind; [apply whileTurns_triple|].
  intros []; [unchanged|apply maxTurnsReached_triple].
Qed.

(** X23: the run of a [done] event has come to its end.  Its status is
    [completed], [failed] or [cancelled]; it has an [output] exactly when
    it is completed; and it has an [error] when it is failed.  (The abort
    signal is the only interference from outside during the run.) *)
Theorem runAgent_done_is_finished (o : AgentOrchestrator) (w : World)
    (agentId : string) (request : RunAgentRequest) (run : AgentRun) :
  finalRun (runAgent o w agentId request).1 = Some run ->
  Finished run.
Proof.
  intros Hfinal.
  destruct (runAgent_cases o w agentId request)
    as [[msg Hrefused]|(agent & ev & run' & _ & Hevents & Hloop)].
  { by rewrite Hrefused in Hfinal. }
  rewrite Hevents in Hfinal.
  rewrite app_comm_cons, finalRun_done in Hfinal. injection Hfinal as <-.
  pose proof (executeAgentLoop_triple w (entryContext agent request)
                (entryRun w agent agentId request)) as Hend.
  rewrite Hloop in Hend. apply Hend. by split.
Qed.

End Status.

Section Slots.
Context `{Runtime}.

(** X27: a run gives back its slot.  Whether [runAgent] refuses the
    request or goes through the loop to the [done] event, it leaves the
    orchestrator as it found it, its table of active runs included,
    provided the id drawn for the run is not that of a run already
    active: the entry made for the run is deleted on every way out. *)
Theorem runAgent_releases_its_slot (o : AgentOrchestrator) (w : World)
    (agentId : string) (request : RunAgentRequest) :
  activeRuns o !! nanoid w = None ->
  (runAgent o w agentId request).2 = o.
Proof.
  intros Hfresh.
  destruct (preconditions_decided o w agentId request)
    as [Hfails|(agent & Hagent & Hsize & Hserver & Hmodel)].
  - destruct (runAgentWith_refused o w agentId request Hfails)
      as (msg & _ & Hrun).
    unfold runAgent. by rewrite Hrun.
  - unfold runAgent.
    rewrite (runAgentWith_started _ o w agentId request agent) by done.
    cbv zeta.
    pose proof (executeAgentLoop_spec w (entryContext agent request)
                  (entryRun w agent agentId request)) as Hloop.
    cbv zeta in Hloop. destruct Hloop as (Hok & _); [cbn; lia|].
    destruct (executeAgentLoop _ _ _) as [[r run] ev].
    destruct r as [[]| |]; [|done|done].
    cbn [snd withActiveRuns activeRuns].
    rewrite delete_insert_eq, delete_id by done. by destruct o.
Qed.

End Slots.

Lemma runAgent_steps_logged_witness :
  let events := sampleRun (agentWith 5 2 true false)
                  (callsThenText twoCalls "Four.") in
  exists run,
    finalRun events = Some run /\
    steps run = stepEvents events /\
    map index (steps run) = seq 0 (length (steps run)).
Proof.
  cbv zeta.
  destruct (finalRun (sampleRun (agentWith 5 2 true false)
                        (callsThenText twoCalls "Four.")))
    as [run|] eqn:Hfinal; [|by vm_compute in Hfinal].
  exists run. split; [reflexivity|].
  exact (@runAgent_steps_logged Examples.bracesRuntime
           (orchestratorWith (agentWith 5 2 true false))
           (worldWith (callsThenText twoCalls "Four."))
           "helper" sampleRequest run Hfinal).
Defined.

Lemma runAgent_history_grows_witness :
  exists run,
    finalRun (sampleRun (agentWith 5 2 true false)
                (callsThenText twoCalls "Four.")) = Some run /\
    map outline (initialMessages (agentWith 5 2 true false) sampleRequest)
      `prefix_of` map outline (messages run).
Proof.
  destruct (finalRun (sampleRun (agentWith 5 2 true false)
                        (callsThenText twoCalls "Four.")))
    as [run|] eqn:Hfinal; [|by vm_compute in Hfinal].
  exists run. split; [reflexivity|].
  exact (@runAgent_history_grows Examples.bracesRuntime
           (orchestratorWith (agentWith 5 2 true false))
           (worldWith (callsThenText twoCalls "Four."))
           "helper" sampleRequest (agentWith 5 2 true false) run
           eq_refl Hfinal).
Defined.


Lemma runAgent_done_is_finished_witness :
  exists run,
    finalRun (sampleRun (agentWith 5 2 true true)
                (callsThenText twoCalls "Four.")) = Some run /\
    Finished run.
Proof.
  destruct (finalRun (sampleRun (agentWith 5 2 true true)
                        (callsThenText twoCalls "Four.")))
    as [run|] eqn:Hfinal; [|by vm_compute in Hfinal].
  exists run. split; [reflexivity|].
  exact (@runAgent_done_is_finished Examples.bracesRuntime
           (orchestratorWith (agentWith 5 2 true true))
           (worldWith (callsThenText twoCalls "Four."))
           "helper" sampleRequest run Hfinal).
Defined.

Lemma runAgent_releases_its_slot_witness :
  (@runAgent Examples.bracesRuntime
     (orchestratorWith (agentWith 5 2 true false))
     (worldWith (callsThenText twoCalls "Four.")) "helper" sampleRequest).2
  = orchestratorWith (agentWith 5 2 true false).
Proof.
  apply (@runAgent_releases_its_slot Examples.bracesRuntime). reflexivity.
Defined.

End RunFacts.


(** ** How a run ends                                                     *)

Module RunEndFacts.
Import Orchestrator OrchestratorTerms OrchestratorFacts RunTerms RunFacts.

Section Accounting.
Context `{Runtime} (agent : AgentDefinition).














End Accounting.

Section Sequence.
Context `{Runtime}.


End Sequence.

Section Fallback.
Context `{Runtime} (w : World) (agent : AgentDefinition).
Hypothesis Hstop : stopOnError (behavior agent) = false.









Section LastTurn.
Variables (turn : nat) (am : RunMessage) (first : ToolCall)
  (others : list ToolCall).
Hypothesis Hfailure : failure (modelResponse w (S turn)) = None.
Hypothesis Hstream :
  (streamResult (deltas (modelResponse w (S turn))) EmptyString None).2
  = Some am.
Hypothesis Hcalls : m_tool_calls am = Some (first :: others).


Hypothesis Habort : aborted w turn = false.


Hypothesis Hlast : S turn = turnsAllowed agent.



End LastTurn.



End Fallback.

Section Exhausted.
Context `{Runtime}.


End Exhausted.





End RunEndFacts.

(** ** The lines of a completion stream                                   *)

Module StreamFacts.
Import StreamLines.

Lemma append_empty_r (text : string) : text +:+ EmptyString = text.
Proof.
  induction text as [|c text IH]; [done|].
  change (String c (text +:+ EmptyString) = String c text). by rewrite IH.
Qed.

Lemma append_associative (a b c : string) : (a +:+ b) +:+ c = a +:+ (b +:+ c).
Proof.
  induction a as [|x a IH]; [done|].
  change (String x ((a +:+ b) +:+ c) = String x (a +:+ (b +:+ c))).
  by rewrite IH.
Qed.

Lemma splitNewline_nonempty text : splitNewline text <> [].
Proof.
  destruct text as [|c rest]; cbn [splitNewline]; [done|].
  destruct (Ascii.eqb c newline); [done|]. by destruct (splitNewline rest).
Qed.

(** What follows the last line break holds no line break. *)
Lemma last_line_single text :
  splitNewline (default EmptyString (last (splitNewline text)))
  = [default EmptyString (last (splitNewline text))].
Proof.
  induction text as [|c rest IH]; [done|]. cbn [splitNewline].
  pose proof (splitNewline_nonempty rest) as Hrest.
  destruct (Ascii.eqb c newline) eqn:Hc.
  - destruct (splitNewline rest) as [|first more]; [done|]. exact IH.
  - destruct (splitNewline rest) as [|first [|second more]]; [done| |exact IH].
    cbn in IH |- *. by rewrite Hc, IH.
Qed.

(** Splitting a text in two parts: the lines of the first part but the
    last, then the lines of what is left of it with the second part. *)
Lemma splitNewline_app a b :
  splitNewline (a +:+ b)
  = removelast (splitNewline a)
    ++ splitNewline (default EmptyString (last (splitNewline a)) +:+ b).
Proof.
  induction a as [|c a IH]; [done|].
  change (String c a +:+ b) with (String c (a +:+ b)). cbn [splitNewline].
  pose proof (splitNewline_nonempty a) as Ha.
  destruct (Ascii.eqb c newline) eqn:Hc.
  - rewrite IH. destruct (splitNewline a) as [|first more]; [done|].
    reflexivity.
  - rewrite IH.
    destruct (splitNewline a) as [|first [|second more]]; [done| |done].
    cbn [removelast last default from_option id app].
    change (String c first +:+ b) with (String c (first +:+ b)).
    cbn [splitNewline]. by rewrite Hc.
Qed.

Lemma readChunks_lines chunks buffer :
  splitNewline buffer = [buffer] ->
  (readChunks chunks buffer).1 ++ [(readChunks chunks buffer).2]
  = splitNewline (buffer +:+ streamText chunks).
Proof.
  revert buffer. induction chunks as [|chunk rest IH]; intros buffer Hbuffer.
  - cbn. by rewrite append_empty_r.
  - cbn [readChunks streamText foldr]. fold (streamText rest).
    unfold readChunk.
    specialize (IH (default EmptyString (last (splitNewline (buffer +:+ chunk))))
                  (last_line_single _)).
    destruct (readChunks rest _) as [more final]. cbn [fst snd] in IH |- *.
    by rewrite <- app_assoc, IH, <- append_associative, <- splitNewline_app.
Qed.

(** X24: the lines the read loop goes through do not depend on how the
    stream is cut into chunks.  With the buffer that is left when the
    stream ends they are the lines of the whole text, in order: a line
    cut by a chunk boundary is put together again, and what follows the
    last line break stays in the buffer and is never looked at.  So the
    payloads handed to [JSON.parse] are those of the lines of the whole
    text but the last. *)
Theorem readChunks_whole_text (chunks : list string) :
  (readChunks chunks EmptyString).1 ++ [(readChunks chunks EmptyString).2]
    = splitNewline (streamText chunks) /\
  payloads chunks
    = omap payload (removelast (splitNewline (streamText chunks))).
Proof.
  pose proof (readChunks_lines chunks EmptyString eq_refl) as Hlines.
  change (EmptyString +:+ streamText chunks) with (streamText chunks) in Hlines.
  split; [exact Hlines|].
  unfold payloads. by rewrite <- Hlines, removelast_last.
Qed.

End StreamFacts.

(** ** The retry wrapper                                                  *)

Module RetryFacts.
Import Retry.

Section WithOperation.
Context {T : Type} (operation : nat -> Attempt T) (maxRetries : nat).

Lemma retryLoop_decided d :
  forall fuel attempt lastError,
    attempt + d < maxRetries -> d < fuel ->
    (forall i, attempt <= i < attempt + d -> retried (operation i) = true) ->
    retried (operation (attempt + d)) = false ->
    retryLoop operation maxRetries fuel attempt lastError
    = {| settlement := settles (operation (attempt + d));
         calls := S d;
         delays := map backoff (seq attempt d) |}.
Proof.
  induction d as [|d IH]; intros fuel attempt lastError Hk Hfuel Hretried Hstop.
  - rewrite Nat.add_0_r in *. destruct fuel as [|fuel]; [lia|].
    cbn [retryLoop].
    destruct (Nat.ltb_spec attempt maxRetries); [|lia].
    unfold retried, settles in *.
    destruct (operation attempt) as [value|error]; [done|].
    destruct (isClientError error); [done|].
    destruct (isAbort error); [done|discriminate].
  - destruct fuel as [|fuel]; [lia|]. cbn [retryLoop].
    destruct (Nat.ltb_spec attempt maxRetries); [|lia].
    pose proof (Hretried attempt ltac:(lia)) as Hfirst.
    unfold retried in Hfirst.
    destruct (operation attempt) as [value|error]; [done|].
    apply andb_true_iff in Hfirst as [Hclient Habort].
    apply negb_true_iff in Hclient, Habort. rewrite Hclient, Habort.
    destruct (Nat.ltb_spec attempt (maxRetries - 1)); [|lia].
    rewrite (IH fuel (S attempt) error).
    + cbn [settlement calls delays seq map app].
      by replace (S attempt + d) with (attempt + S d) by lia.
    + lia.
    + lia.
    + intros i Hi. apply Hretried. lia.
    + by replace (S attempt + d) with (attempt + S d) by lia.
Qed.

Lemma retryLoop_exhausted d :
  forall fuel attempt lastError,
    attempt + d = maxRetries -> d <= fuel ->
    (forall i, attempt <= i < maxRetries -> retried (operation i) = true) ->
    retryLoop operation maxRetries fuel attempt lastError
    = {| settlement :=
           Thrown (match d with
                   | 0 => lastError
                   | S _ => thrownBy (operation (maxRetries - 1))
                   end);
         calls := d;
         delays := map backoff (seq attempt (d - 1)) |}.
Proof.
  induction d as [|d IH]; intros fuel attempt lastError Hend Hfuel Hretried.
  - assert (retryLoop operation maxRetries fuel attempt lastError
            = {| settlement := Thrown lastError; calls := 0; delays := [] |})
      as ->; [|done].
    destruct fuel; cbn [retryLoop];
      destruct (Nat.ltb_spec attempt maxRetries); (lia || done).
  - destruct fuel as [|fuel]; [lia|]. cbn [retryLoop].
    destruct (Nat.ltb_spec attempt maxRetries); [|lia].
    pose proof (Hretried attempt ltac:(lia)) as Hfirst.
    unfold retried in Hfirst.
    destruct (operation attempt) as [value|error] eqn:Hop; [done|].
    apply andb_true_iff in Hfirst as [Hclient Habort].
    apply negb_true_iff in Hclient, Habort. rewrite Hclient, Habort.
    rewrite (IH fuel (S attempt) error) by (lia || (intros; apply Hretried; lia)).
    cbn [settlement calls delays]. f_equal.
    + destruct d as [|d]; [|done].
      replace (maxRetries - 1) with attempt by lia. by rewrite Hop.
    + destruct (Nat.ltb_spec attempt (maxRetries - 1)).
      * destruct d as [|d]; [lia|].
        by rewrite !Nat.sub_succ, !Nat.sub_0_r.
      * destruct d as [|d]; [done|lia].
Qed.

End WithOperation.

Lemma totalDelay_backoff k :
  totalDelay (map backoff (seq 0 k))
  = (RETRY_BASE_DELAY_MS * (2 ^ Z.of_nat k - 1))%Z.
Proof.
  induction k as [|k IH]; [done|].
  rewrite seq_S, map_app. unfold totalDelay in *. rewrite foldr_app.
  cbn [map foldr Nat.add]. rewrite Z.add_0_r.
  assert (forall (l : list Z) a, foldr Z.add a l = (foldr Z.add 0 l + a)%Z)
    as Hshift.
  { induction l as [|x l IHl]; intros a; cbn; [lia|]. rewrite IHl. lia. }
  rewrite Hshift, IH. unfold backoff.
  rewrite Nat2Z.inj_succ, Z.pow_succ_r by lia. lia.
Qed.

(** X25: [withRetry] stops at the first attempt that succeeds, fails
    with a client error (a status from 400 to 499) or is aborted.  When
    that is attempt [k], within the limit, [operation] has been called
    [k + 1] times, the delays waited were 1000, 2000, ... doubling up to
    [1000 * 2^(k-1)] ms, [1000 * (2^k - 1)] ms in all, and the promise
    resolves with the value, rejects with the client error itself, or
    rejects with the error [Request timed out] of code [TIMEOUT]. *)
Theorem withRetry_stops_at_decisive_attempt {T} (operation : nat -> Attempt T)
    (maxRetries : option nat) (k : nat) :
  k < default MAX_RETRIES maxRetries ->
  (forall i, i < k -> retried (operation i) = true) ->
  retried (operation k) = false ->
  let run := withRetry operation maxRetries in
  settlement run = settles (operation k) /\
  calls run = S k /\
  delays run = map backoff (seq 0 k) /\
  totalDelay (delays run) = (RETRY_BASE_DELAY_MS * (2 ^ Z.of_nat k - 1))%Z.
Proof.
  intros Hk Hretried Hstop run. subst run. unfold withRetry.
  rewrite (retryLoop_decided operation _ k) by (done || lia || (intros; apply Hretried; lia)).
  cbn [settlement calls delays]. by rewrite totalDelay_backoff.
Qed.

(** X26: when every attempt within the limit fails with an error that is
    retried, [withRetry] calls [operation] [maxRetries] times, waits
    after each failure but the last, and rejects with the last error;
    with a limit of 0 it rejects with [null] without calling
    [operation]. *)
Theorem withRetry_gives_up {T} (operation : nat -> Attempt T)
    (maxRetries : option nat) :
  let limit := default MAX_RETRIES maxRetries in
  (forall i, i < limit -> retried (operation i) = true) ->
  let run := withRetry operation maxRetries in
  settlement run
    = Thrown (match limit with
              | 0 => NullValue
              | S _ => thrownBy (operation (limit - 1))
              end) /\
  calls run = limit /\
  delays run = map backoff (seq 0 (limit - 1)).
Proof.
  intros limit Hretried run. subst run. unfold withRetry. fold limit.
  rewrite (retryLoop_exhausted operation limit limit)
    by (done || lia || (intros; apply Hretried; lia)).
  done.
Qed.

Lemma withRetry_stops_at_decisive_attempt_witness :
  settlement (withRetry recovering None) = Resolved "models" /\
  calls (withRetry recovering None) = 3 /\
  delays (withRetry recovering None) = [1000; 2000]%Z /\
  totalDelay (delays (withRetry recovering None)) = 3000%Z.
Proof.
  apply (withRetry_stops_at_decisive_attempt recovering None 2).
  - unfold MAX_RETRIES. cbn. lia.
  - intros i Hi. destruct i as [|[|i]]; [reflexivity|reflexivity|lia].
  - reflexivity.
Defined.

Lemma withRetry_gives_up_witness :
  settlement (withRetry recovering (Some 2)) = Thrown unavailable /\
  calls (withRetry recovering (Some 2)) = 2 /\
  delays (withRetry recovering (Some 2)) = [1000%Z].
Proof.
  apply (withRetry_gives_up recovering (Some 2)).
  intros i Hi. destruct i as [|[|i]]; [reflexivity|reflexivity|cbn in Hi; lia].
Defined.

End RetryFacts.
